(** * FloodLoop: flood-risk scoring, alert evaluation and live feed

    A shallow embedding of [backend/main.py], [backend/schemas.py] and
    [backend/database.py].

    Python [float] values are IEEE 754 binary64 numbers and are modelled by
    Rocq's primitive [float], whose operations are specified by the
    Standard Library ([FloatAxioms]) against [SpecFloat].  Python's
    built-ins [min], [max] and [round] are written out below the way
    CPython evaluates them. *)

From Stdlib Require Import ZArith List Bool Lia String Ascii DecimalString.
From Stdlib Require Import Floats.
Import ListNotations.

Set Warnings "-inexact-float,-register-all".
Open Scope string_scope.

(* ===================================================================== *)
(** * Python numeric built-ins on binary64                               *)
(* ===================================================================== *)

Module PyFloat.

Local Open Scope float_scope.

(** [min(a, b)]: the first argument is kept unless a later one compares
    strictly smaller ([b < a]); a NaN never replaces and is never
    replaced. *)
Definition py_min (a b : float) : float := if b <? a then b else a.

(** [max(a, b)]: the first argument is kept unless [b > a]. *)
Definition py_max (a b : float) : float := if a <? b then b else a.

(** [a >= b] on floats. *)
Definition py_ge (a b : float) : bool := b <=? a.

(** The integer nearest to [10 * m * 2^e], ties to the even integer: the
    decimal digits that [round(x, 1)] keeps for [x = m * 2^e]. *)
Definition round_half_even_tenths (m : positive) (e : Z) : Z :=
  let n := (10 * Z.pos m)%Z in
  match e with
  | Zneg p =>
      let d := Z.pow_pos 2 p in
      let q := (n / d)%Z in
      let r := (n mod d)%Z in
      match (2 * r ?= d)%Z with
      | Lt => q
      | Gt => (q + 1)%Z
      | Eq => if Z.even q then q else (q + 1)%Z
      end
  | _ => (n * 2 ^ e)%Z
  end.

(** The binary64 number nearest to the rational [k / d] (for [0 <= k],
    [0 < d]), with sign [s]; a zero keeps the sign. *)
Definition SF_of_ratio (s : bool) (k d : Z) : spec_float :=
  match k with
  | Z0 => S754_zero s
  | _ =>
      let '(q, e, l) := SFdiv_core_binary prec emax k 0 d 0 in
      binary_round_aux prec emax s q e l
  end.

(** [round(x, 1)] on a float.  CPython ([float.__round__] with
    [ndigits = 1]) returns NaN, infinities and zeros unchanged; otherwise
    it prints the exact binary value correctly rounded (half to even) to
    one decimal and reads that decimal back as the nearest float. *)
Definition py_round1 (x : float) : float :=
  match Prim2SF x with
  | S754_finite s m e => SF2Prim (SF_of_ratio s (round_half_even_tenths m e) 10)
  | _ => x
  end.

End PyFloat.

Export PyFloat.

(* ===================================================================== *)
(** * schemas.py: FloodRisk                                              *)
(* ===================================================================== *)

(** [level: str   # LOW | MEDIUM | HIGH] *)
Inductive Level := LOW | MEDIUM | HIGH.

Definition level_str (l : Level) : string :=
  match l with
  | LOW => "LOW"
  | MEDIUM => "MEDIUM"
  | HIGH => "HIGH"
  end.

Record FloodRisk := mkFloodRisk {
  score : float;
  level : Level;
  color : string
}.

(* ===================================================================== *)
(** * main.py: the flood risk engine                                     *)
(* ===================================================================== *)

Section FloodRiskEngine.

Local Open Scope float_scope.

(** The running [score] of [calculate_flood_probability] just before the
    final clamp and rounding: five [score += ...] statements starting
    from [0.0]. *)
Definition raw_score (rain_1h rain_3h humidity wind_speed clouds : float) : float :=
  let score := 0 in
  let score := score + py_min (rain_1h / 20) 1 * 40 in
  let score := score + py_min (rain_3h / 40) 1 * 25 in
  let score := score + py_min (py_max (humidity - 60) 0 / 40) 1 * 20 in
  let score := score + py_min (wind_speed / 25) 1 * 10 in
  let score := score + py_min (clouds / 100) 1 * 5 in
  score.

(** The [if score >= 65 / elif score >= 35 / else] chain. *)
Definition risk_band (score : float) : Level * string :=
  if py_ge score 65 then (HIGH, "#ef4444")
  else if py_ge score 35 then (MEDIUM, "#f59e0b")
  else (LOW, "#22c55e").

Definition calculate_flood_probability
    (rain_1h rain_3h humidity wind_speed clouds : float) : FloodRisk :=
  let score := raw_score rain_1h rain_3h humidity wind_speed clouds in
  let score := py_round1 (py_min score 100) in
  let '(level, color) := risk_band score in
  mkFloodRisk score level color.

End FloodRiskEngine.

(** ** The formula as the specification writes it, and the display colours *)

Section ScoreStatements.

Local Open Scope float_scope.

Definition spec_score (rain_1h rain_3h humidity wind_speed clouds : float) : float :=
  let score :=
    40 * py_min (rain_1h / 20) 1
    + 25 * py_min (rain_3h / 40) 1
    + 20 * py_min (py_max (humidity - 60) 0 / 40) 1
    + 10 * py_min (wind_speed / 25) 1
    + 5 * py_min (clouds / 100) 1 in
  py_round1 (py_min score 100).

Definition level_color (l : Level) : string :=
  match l with
  | HIGH => "#ef4444"
  | MEDIUM => "#f59e0b"
  | LOW => "#22c55e"
  end.

Definition valid_observation (rain_1h rain_3h humidity wind_speed clouds : float) : Prop :=
  (0 <=? rain_1h) = true /\ (0 <=? rain_3h) = true /\ (0 <=? humidity) = true /\
  (0 <=? wind_speed) = true /\ (0 <=? clouds) = true.

End ScoreStatements.

(* ===================================================================== *)
(** * Classes of binary64 values used in the proofs                      *)
(* ===================================================================== *)

Section FloatClasses.

Local Open Scope float_scope.

(** What a rounding can return: a zero, a finite number or an infinity. *)
Definition signed_as (s : bool) (x : spec_float) : Prop :=
  match x with
  | S754_zero s' | S754_infinity s' | S754_finite s' _ _ => s' = s
  | S754_nan => False
  end.

Definition nonzero_number (x : spec_float) : Prop :=
  match x with
  | S754_infinity _ | S754_finite _ _ _ => True
  | S754_zero _ | S754_nan => False
  end.

(** [0 <= x]: a zero of either sign, a positive number or [+inf]. *)
Definition sf_nonneg (x : spec_float) : Prop :=
  match x with
  | S754_zero _ | S754_finite false _ _ | S754_infinity false => True
  | _ => False
  end.

(** [x < 0]: a negative number or [-inf]. *)
Definition sf_neg (x : spec_float) : Prop :=
  match x with
  | S754_finite true _ _ | S754_infinity true => True
  | _ => False
  end.

(** Not below zero and not [-0.0]; NaN is allowed. *)
Definition sf_no_minus (x : spec_float) : Prop :=
  match x with
  | S754_zero true | S754_finite true _ _ | S754_infinity true => False
  | _ => True
  end.

(** A finite, strictly positive constant such as [20.0]. *)
Definition pos_const (c : float) : Prop :=
  exists m e, Prim2SF c = S754_finite false m e.

Definition sf_sign (x : spec_float) : option bool :=
  match x with
  | S754_nan => None
  | S754_zero s | S754_infinity s | S754_finite s _ _ => Some s
  end.

Definition sf_is_zero (x : spec_float) : Prop :=
  match x with S754_zero _ => True | _ => False end.

Definition tenths_in_range (k : Z) : bool :=
  let r := SF2Prim (SF_of_ratio false k 10) in (0 <=? r) && (r <=? 100).

(** The value [m * 2^e] on a common integer grid: every exponent met below
    is at least [- scale]. *)
Definition scale : Z := 2200.

Definition scaled (m e : Z) : Z := (m * 2 ^ (e + scale))%Z.

(** [x] is a number that is at most the bound (a scaled value): a zero, any
    negative number, [-inf], or a positive finite number of at most that
    value. *)
Definition sf_below (x : spec_float) (bound : Z) : Prop :=
  match x with
  | S754_nan => False
  | S754_infinity s => s = true
  | S754_zero _ => True
  | S754_finite true _ _ => True
  | S754_finite false m e => (- scale <= e)%Z /\ (scaled (Z.pos m) e <= bound)%Z
  end.

(** A float that is NaN or at most the bound. *)
Definition at_most (x : float) (bound : Z) : Prop :=
  is_nan x = true \/ sf_below (Prim2SF x) bound.

(** A normal positive constant [m * 2^e] of moderate size. *)
Definition normal_const (c : float) (m : positive) (e : Z) : Prop :=
  Prim2SF c = S754_finite false m e
  /\ digits2_pos m = 53%positive /\ (-1000 <= e <= 900)%Z.

Definition shr_flags (r : shr_record) : bool := shr_r r || shr_s r.

(** The scaled value of a positive finite float, 0 for anything else. *)
Definition bound_of (c : float) : Z :=
  match Prim2SF c with
  | S754_finite false m e => scaled (Z.pos m) e
  | _ => 0%Z
  end.

(** A positive normal float of moderate size, as a test. *)
Definition is_normal (c : float) : bool :=
  match Prim2SF c with
  | S754_finite false m e =>
      Pos.eqb (digits2_pos m) 53 && ((-1000 <=? e)%Z && (e <=? 900)%Z)
  | _ => false
  end.

Definition sf_emin (x : spec_float) : Prop :=
  match x with
  | S754_finite _ _ e => (emin <= e)%Z
  | _ => True
  end.

Definition tenths_at_most_60 (k : Z) : bool :=
  let r := SF2Prim (SF_of_ratio false k 10) in (r <=? 60) && negb (65 <=? r).

End FloatClasses.

Open Scope list_scope.
Open Scope Z_scope.

(* ===================================================================== *)
(** * database.py: the tables                                            *)
(* ===================================================================== *)

(** A [DateTime] value: a reading of the UTC clock. *)
Definition Time := Z.

(** [class City(Base)] *)
Record City := mkCity {
  city_id : Z;
  city_name : string;
  city_country : string;
  city_state : string;
  city_lat : float;
  city_lon : float;
  city_created_at : Time;
  city_is_favorite : bool
}.

(** [class WeatherLog(Base)] *)
Record WeatherLog := mkWeatherLog {
  log_id : Z;
  log_city_id : Z;
  log_recorded_at : Time;
  log_temperature : option float;
  log_feels_like : option float;
  log_humidity : option float;
  log_pressure : option float;
  log_wind_speed : option float;
  log_wind_deg : option float;
  log_clouds : option float;
  log_rain_1h : option float;
  log_rain_3h : option float;
  log_description : string;
  log_icon : string;
  log_flood_score : option float;
  log_flood_level : Level
}.

(** [class SearchHistory(Base)] *)
Record SearchHistory := mkSearchHistory {
  search_id : Z;
  search_query : string;
  search_resolved_to : option string;
  search_lat : option float;
  search_lon : option float;
  search_searched_at : Time;
  search_success : bool
}.

(** [class Alert(Base)] *)
Record Alert := mkAlert {
  alert_id : Z;
  alert_city_id : Z;
  alert_threshold : float;
  alert_label : string;
  alert_is_active : bool;
  alert_created_at : Time;
  alert_last_triggered : option Time;
  alert_trigger_count : Z
}.

(** [class ApiKey(Base)] *)
Record ApiKey := mkApiKey {
  key_id : Z;
  key_key : string;
  key_label : string;
  key_is_active : bool;
  key_created_at : Time;
  key_last_used : option Time;
  key_call_count : Z
}.

(** The rows of the five tables, in primary-key order of insertion. *)
Record Database := mkDatabase {
  cities : list City;
  weather_logs : list WeatherLog;
  search_history : list SearchHistory;
  alerts : list Alert;
  api_keys : list ApiKey
}.

Definition empty_db : Database := mkDatabase [] [] [] [] [].

Definition set_cities (f : list City -> list City) (d : Database) : Database :=
  mkDatabase (f (cities d)) (weather_logs d) (search_history d) (alerts d) (api_keys d).
Definition set_weather_logs (f : list WeatherLog -> list WeatherLog) (d : Database) : Database :=
  mkDatabase (cities d) (f (weather_logs d)) (search_history d) (alerts d) (api_keys d).
Definition set_search_history (f : list SearchHistory -> list SearchHistory) (d : Database) : Database :=
  mkDatabase (cities d) (weather_logs d) (f (search_history d)) (alerts d) (api_keys d).
Definition set_alerts (f : list Alert -> list Alert) (d : Database) : Database :=
  mkDatabase (cities d) (weather_logs d) (search_history d) (f (alerts d)) (api_keys d).
Definition set_api_keys (f : list ApiKey -> list ApiKey) (d : Database) : Database :=
  mkDatabase (cities d) (weather_logs d) (search_history d) (alerts d) (f (api_keys d)).

(** ** Floats in a [Float] column

    The rows of the tables hold what a later read gives back.  SQLite
    stores a NaN as NULL, and it stores a REAL without fractional part as
    an integer, so that [-0.0] comes back as [0.0]; every other value
    comes back as it was written. *)
Definition sqlite_real (x : float) : option float :=
  if is_nan x then None else Some (if is_zero x then 0%float else x).

(** The same for a value that may be [None]. *)
Definition sqlite_opt (o : option float) : option float :=
  match o with
  | Some x => sqlite_real x
  | None => None
  end.

(** A [nullable=False] column holds a number: what comes back of the
    number [x]. *)
Definition sqlite_number (x : float) : float :=
  if is_zero x then 0%float else x.

(** An [Integer primary_key] column on SQLite: the new row gets one more
    than the largest id in the table. *)
Definition next_id (ids : list Z) : Z := 1 + fold_right Z.max 0 ids.

(* ===================================================================== *)
(** * The session, the clock and failures                                *)
(* ===================================================================== *)

(** What a handler can raise. *)
Inductive Exn :=
| HTTPException (status_code : Z) (detail : string)
| RequestValidationError
| ValidationError
| IndexError
| KeyError (key : string)
| JSONDecodeError (msg : string)
| TransportError (msg : string)
| OperationalError.

Inductive Result (A : Type) :=
| Ok (a : A)
| Raise (e : Exn).
Arguments Ok {A} a.
Arguments Raise {A} e.

(** The world a request runs in.  [durable] is what the database holds
    after the last [commit]; [session] is the [Session]'s view, with the
    rows added or changed since.  [utc] gives the successive readings of
    [datetime.utcnow()] and [reads] counts them.  [fault] is the
    persistence stub's plan: [Some n] makes the call after [n] more
    persistence calls fail. *)
Record World := mkWorld {
  durable : Database;
  session : Database;
  utc : nat -> Time;
  reads : nat;
  fault : option nat
}.

Definition M (A : Type) : Type := World -> Result A * World.

Definition ret {A} (a : A) : M A := fun w => (Ok a, w).
Definition raise {A} (e : Exn) : M A := fun w => (Raise e, w).
Definition bind {A B} (m : M A) (k : A -> M B) : M B :=
  fun w => match m w with
           | (Ok a, w') => k a w'
           | (Raise e, w') => (Raise e, w')
           end.

Declare Scope py_scope.
Delimit Scope py_scope with py.
Notation "x <- m ;; k" := (bind m (fun x => k))
  (at level 61, m at next level, right associativity) : py_scope.
Notation "m ;;; k" := (bind m (fun _ => k))
  (at level 61, right associativity) : py_scope.
Open Scope py_scope.

(** [datetime.utcnow()] *)
Definition utcnow : M Time :=
  fun w => (Ok (utc w (reads w)),
            mkWorld (durable w) (session w) (utc w) (S (reads w)) (fault w)).

(** Every call into the persistence layer passes here. *)
Definition persistence_call : M unit :=
  fun w => match fault w with
           | None => (Ok tt, w)
           | Some O => (Raise OperationalError,
                        mkWorld (durable w) (session w) (utc w) (reads w) None)
           | Some (S n) => (Ok tt,
                        mkWorld (durable w) (session w) (utc w) (reads w) (Some n))
           end.

Definition read_session : M Database := fun w => (Ok (session w), w).

Definition write_session (f : Database -> Database) : M unit :=
  fun w => (Ok tt, mkWorld (durable w) (f (session w)) (utc w) (reads w) (fault w)).

(** [db.query(...)]: a read of the session's view. *)
Definition db_query {A} (q : Database -> A) : M A :=
  persistence_call ;;; d <- read_session ;; ret (q d).

(** [db.commit()]: the session's view becomes durable. *)
Definition db_commit : M unit :=
  persistence_call ;;;
  fun w => (Ok tt, mkWorld (session w) (session w) (utc w) (reads w) (fault w)).

(** [db.refresh(obj)]: the committed row is read back. *)
Definition db_refresh : M unit := persistence_call.

(** [get_db]'s [finally: db.close()]: what was not committed is dropped. *)
Definition db_close (w : World) : World :=
  mkWorld (durable w) (durable w) (utc w) (reads w) (fault w).

(** One request: the handler runs on a fresh session, which is closed
    whatever the handler returns or raises. *)
Definition request {A} (handler : M A) (w : World) : Result A * World :=
  let '(r, w') := handler (db_close w) in (r, db_close w').

(** [for x in xs: ...] with effects. *)
Fixpoint for_each {A B} (f : A -> M B) (xs : list A) : M (list B) :=
  match xs with
  | [] => ret []
  | x :: xs' => y <- f x ;; ys <- for_each f xs' ;; ret (y :: ys)
  end.

(* ===================================================================== *)
(** * main.py: configuration and upstream data                           *)
(* ===================================================================== *)

(** The environment the module reads at import time and per request. *)
Record Config := mkConfig {
  OWM_API_KEY : string;           (* os.getenv("OPENWEATHERMAP_API_KEY", "") *)
  ADMIN_SECRET : string;          (* os.getenv("ADMIN_SECRET", "changeme-admin-secret") *)
  REQUIRE_API_KEY : option string (* os.getenv("REQUIRE_API_KEY") *)
}.

(** [not s] on a string. *)
Definition str_falsy (s : string) : bool :=
  match s with EmptyString => true | _ => false end.

(** [dict.get(key, default)] on a key that is present or absent. *)
Definition get_or {A} (o : option A) (default : A) : A :=
  match o with Some v => v | None => default end.

(** One element of the ["weather"] list of an OpenWeatherMap document. *)
Record WeatherItem := mkWeatherItem {
  wi_description : option string;
  wi_icon : option string
}.

(** The keys the handlers read from a current-weather document; [None] is
    an absent key. *)
Record OwmData := mkOwmData {
  owm_name : option string;
  owm_temp : option float;
  owm_feels_like : option float;
  owm_humidity : option float;
  owm_pressure : option float;
  owm_wind_speed : option float;
  owm_wind_deg : option float;
  owm_clouds_all : option float;
  owm_rain_1h : option float;
  owm_rain_3h : option float;
  owm_weather : option (list WeatherItem);
  owm_visibility : option Z
}.

(** What [resp.json()] gives: a document, or an exception. *)
Inductive Body (A : Type) :=
| Malformed (msg : string)
| Parsed (d : A).
Arguments Malformed {A} msg.
Arguments Parsed {A} d.

(** What [await client.get(...)] gives: a response, or an exception of
    the transport (time-out, connection error). *)
Inductive Fetch (A : Type) :=
| FetchRaised (msg : string)
| FetchResponse (status_code : Z) (body : Body A).
Arguments FetchRaised {A} msg.
Arguments FetchResponse {A} status_code body.

Definition lift {A} (r : Result A) : M A := fun w => (r, w).

(** [resp.json()] *)
Definition resp_json {A} (b : Body A) : M A :=
  match b with
  | Parsed d => ret d
  | Malformed msg => raise (JSONDecodeError msg)
  end.

(** [d.get("weather", [{}])[0]] *)
Definition first_weather (d : OwmData) : Result WeatherItem :=
  match owm_weather d with
  | None => Ok (mkWeatherItem None None)
  | Some [] => Raise IndexError
  | Some (w :: _) => Ok w
  end.

(** The five-argument call the handlers make on a document. *)
Definition flood_of (d : OwmData) : FloodRisk :=
  calculate_flood_probability
    (get_or (owm_rain_1h d) 0%float)
    (get_or (owm_rain_3h d) 0%float)
    (get_or (owm_humidity d) 0%float)
    (get_or (owm_wind_speed d) 0%float)
    (get_or (owm_clouds_all d) 0%float).

(* ===================================================================== *)
(** * main.py: authentication                                            *)
(* ===================================================================== *)

(** Lowering of the ASCII capitals.  [s.lower() == "true"] holds exactly
    when this lowering of [s] is ["true"]: the only characters [str.lower]
    turns into [t], [r], [u] or [e] are these letters and their capitals. *)
Definition ascii_lower (c : ascii) : ascii :=
  let n := nat_of_ascii c in
  if (65 <=? n)%nat && (n <=? 90)%nat then ascii_of_nat (n + 32) else c.

Fixpoint lower_ascii (s : string) : string :=
  match s with
  | EmptyString => EmptyString
  | String c s' => String (ascii_lower c) (lower_ascii s')
  end.

Definition update_key (k : ApiKey) (used : Time) : ApiKey :=
  mkApiKey (key_id k) (key_key k) (key_label k) (key_is_active k)
           (key_created_at k) (Some used) (key_call_count k + 1).

(** [def require_api_key(api_key, db)] *)
Definition require_api_key (cfg : Config) (api_key : option string) : M (option ApiKey) :=
  if negb (String.eqb (lower_ascii (get_or (REQUIRE_API_KEY cfg) "false")) "true") then
    ret None
  else
    match api_key with
    | None => raise (HTTPException 401 "Missing X-API-Key header.")
    | Some key =>
        if str_falsy key then raise (HTTPException 401 "Missing X-API-Key header.")
        else
          key_row <- db_query (fun d =>
            find (fun k => String.eqb (key_key k) key && key_is_active k) (api_keys d)) ;;
          match key_row with
          | None => raise (HTTPException 403 "Invalid or revoked API key.")
          | Some row =>
              now <- utcnow ;;
              write_session (set_api_keys
                (map (fun k => if key_id k =? key_id row then update_key k now else k))) ;;;
              db_commit ;;;
              ret (Some (update_key row now))
          end
    end.

(** [def require_admin(admin_secret)] *)
Definition require_admin (cfg : Config) (admin_secret : string) : Result unit :=
  if negb (String.eqb admin_secret (ADMIN_SECRET cfg)) then
    Raise (HTTPException 403 "Invalid admin secret.")
  else Ok tt.

(* ===================================================================== *)
(** * main.py: helpers                                                   *)
(* ===================================================================== *)

(** The [WeatherLog(...)] of [_log_weather] as the table holds it: every
    column but [city_id] is nullable. *)
Definition new_weather_log (id city : Z) (at_ : Time) (d : OwmData) (w0 : WeatherItem)
    (flood : FloodRisk) : WeatherLog :=
  mkWeatherLog id city at_
    (sqlite_opt (owm_temp d)) (sqlite_opt (owm_feels_like d)) (sqlite_opt (owm_humidity d))
    (sqlite_opt (owm_pressure d)) (sqlite_opt (owm_wind_speed d)) (sqlite_opt (owm_wind_deg d))
    (sqlite_opt (owm_clouds_all d))
    (sqlite_real (get_or (owm_rain_1h d) 0%float)) (sqlite_real (get_or (owm_rain_3h d) 0%float))
    (get_or (wi_description w0) "") (get_or (wi_icon w0) "")
    (sqlite_real (score flood)) (level flood).

(** [db.add(log)] for a [WeatherLog]: the row enters the session; its id
    and [recorded_at] are the defaults it gets when flushed. *)
Definition db_add_weather_log (row : Z -> Time -> WeatherLog) : M unit :=
  persistence_call ;;;
  now <- utcnow ;;
  write_session (fun d =>
    set_weather_logs (fun ls => ls ++ [row (next_id (map log_id ls)) now]) d).

(** [def _log_weather(db, city_id, w, flood)] *)
Definition _log_weather (city : Z) (d : OwmData) (flood : FloodRisk) : M unit :=
  w0 <- lift (first_weather d) ;;
  db_add_weather_log (fun id now => new_weather_log id city now d w0 flood) ;;;
  db_commit.

(** A geocoding match ([loc] in [geocode_city]). *)
Record GeoLoc := mkGeoLoc {
  loc_name : option string;
  loc_country : option string;
  loc_state : option string;
  loc_lat : option float;
  loc_lon : option float
}.

(** The [geo] dictionary of [geocode_city]. *)
Record Geo := mkGeo {
  geo_name : option string;
  geo_country : option string;
  geo_state : string;
  geo_lat : float;
  geo_lon : float
}.

(** [f"{x}"] on a string or [None]. *)
Definition fmt (o : option string) : string := get_or o "None".

(** [def _log_search(db, query, geo=None, success=True)] *)
Definition _log_search (query : string) (geo : option Geo) (success : bool) : M unit :=
  persistence_call ;;;
  now <- utcnow ;;
  write_session (set_search_history (fun hs => hs ++ [
    mkSearchHistory (next_id (map search_id hs)) query
      (match geo with Some g => Some (fmt (geo_name g) ++ ", " ++ fmt (geo_country g))%string | None => None end)
      (match geo with Some g => sqlite_real (geo_lat g) | None => None end)
      (match geo with Some g => sqlite_real (geo_lon g) | None => None end)
      now success])) ;;;
  db_commit.

(* ===================================================================== *)
(** * main.py: core routes                                               *)
(* ===================================================================== *)

(** [class GeoResponse(BaseModel)] *)
Record GeoResponse := mkGeoResponse {
  gr_name : string;
  gr_country : string;
  gr_state : string;
  gr_lat : float;
  gr_lon : float
}.

(** [GeoResponse] built from [geo]: [name] and [country] must be strings. *)
Definition geo_response (g : Geo) : Result GeoResponse :=
  match geo_name g, geo_country g with
  | Some n, Some c => Ok (mkGeoResponse n c (geo_state g) (geo_lat g) (geo_lon g))
  | _, _ => Raise ValidationError
  end.

(** [async def geocode_city(request, city, db, _auth)], given what the
    geocoding request returned. *)
Definition geocode_city (cfg : Config) (city : string) (resp : Fetch (list GeoLoc))
    : M GeoResponse :=
  if str_falsy (OWM_API_KEY cfg) then raise (HTTPException 500 "OWM API key not configured.")
  else
    match resp with
    | FetchRaised msg => raise (TransportError msg)
    | FetchResponse status body =>
        if negb (status =? 200) then
          _log_search city None false ;;;
          raise (HTTPException status "Geocoding API error.")
        else
          data <- resp_json body ;;
          match data with
          | [] =>
              _log_search city None false ;;;
              raise (HTTPException 404 ("City '" ++ city ++ "' not found.")%string)
          | loc :: _ =>
              match loc_lat loc with
              | None => raise (KeyError "lat")
              | Some lat =>
                  match loc_lon loc with
                  | None => raise (KeyError "lon")
                  | Some lon =>
                      let geo := mkGeo (loc_name loc) (loc_country loc)
                                       (get_or (loc_state loc) "") lat lon in
                      _log_search city (Some geo) true ;;;
                      lift (geo_response geo)
                  end
              end
          end
    end.

(** [class WeatherResponse(BaseModel)] *)
Record WeatherResponse := mkWeatherResponse {
  wr_city : string;
  wr_temperature : option float;
  wr_feels_like : option float;
  wr_humidity : option float;
  wr_pressure : option float;
  wr_wind_speed : option float;
  wr_wind_deg : option float;
  wr_clouds : option float;
  wr_rain_1h : float;
  wr_rain_3h : float;
  wr_description : string;
  wr_icon : string;
  wr_visibility : option Z;
  wr_flood_risk : FloodRisk
}.

Definition weather_response (d : OwmData) (flood : FloodRisk) : Result WeatherResponse :=
  match first_weather d with
  | Raise e => Raise e
  | Ok w0 =>
      Ok (mkWeatherResponse
            (get_or (owm_name d) "")
            (owm_temp d) (owm_feels_like d) (owm_humidity d) (owm_pressure d)
            (owm_wind_speed d) (Some (get_or (owm_wind_deg d) 0%float)) (owm_clouds_all d)
            (get_or (owm_rain_1h d) 0%float) (get_or (owm_rain_3h d) 0%float)
            (get_or (wi_description w0) "") (get_or (wi_icon w0) "")
            (owm_visibility d) flood)
  end.

(** [alert.last_triggered = datetime.utcnow(); alert.trigger_count += 1] *)
Definition trigger (a : Alert) (now : Time) : Alert :=
  mkAlert (alert_id a) (alert_city_id a) (alert_threshold a) (alert_label a)
          (alert_is_active a) (alert_created_at a) (Some now) (alert_trigger_count a + 1).

(** The two assignments on a loaded [Alert]: the session's row with that
    primary key changes. *)
Definition trigger_alert (a : Alert) : M Alert :=
  now <- utcnow ;;
  write_session (set_alerts (map (fun x =>
    if alert_id x =? alert_id a then trigger x now else x))) ;;;
  ret (trigger a now).

(** [if save_log and city_id]: [None] and [0] are false. *)
Definition truthy_id (city_id : option Z) : option Z :=
  match city_id with
  | Some c => if c =? 0 then None else Some c
  | None => None
  end.

(** [async def get_weather(request, lat, lon, save_log, city_id, db, _auth)],
    given what the weather request returned. *)
Definition get_weather (cfg : Config) (resp : Fetch OwmData)
    (save_log : bool) (city_id : option Z) : M WeatherResponse :=
  if str_falsy (OWM_API_KEY cfg) then raise (HTTPException 500 "OWM API key not configured.")
  else
    match resp with
    | FetchRaised msg => raise (TransportError msg)
    | FetchResponse status body =>
        if negb (status =? 200) then raise (HTTPException status "Weather API error.")
        else
          d <- resp_json body ;;
          let flood := flood_of d in
          (match (if save_log then truthy_id city_id else None) with
           | Some city =>
               _log_weather city d flood ;;;
               alerts <- db_query (fun db => filter (fun a =>
                           (alert_city_id a =? city) && alert_is_active a &&
                           (alert_threshold a <=? score flood)%float) (alerts db)) ;;
               for_each trigger_alert alerts ;;;
               db_commit
           | None => ret tt
           end) ;;;
          lift (weather_response d flood)
    end.

(** A JSON value handed to [json.dumps]; [JTime] is the ISO-8601 string of
    a clock reading. *)
Inductive Json :=
| JNull
| JNum (x : float)
| JStr (s : string)
| JTime (t : Time)
| JObj (fields : list (string * Json)).

Definition jopt (o : option float) : Json :=
  match o with Some x => JNum x | None => JNull end.

(** [flood.model_dump()] *)
Definition model_dump (f : FloodRisk) : Json :=
  JObj [("score", JNum (score f)); ("level", JStr (level_str (level f)));
        ("color", JStr (color f))].

(** [str(e)] for the exceptions the stream can catch. *)
Definition str_exn (e : Exn) : string :=
  match e with
  | HTTPException _ detail => detail
  | RequestValidationError => "validation error"
  | ValidationError => "validation error"
  | IndexError => "list index out of range"
  | KeyError key => ("'" ++ key ++ "'")%string
  | JSONDecodeError msg => msg
  | TransportError msg => msg
  | OperationalError => "database error"
  end.

(** The [try:] block of [event_generator], up to the value it yields. *)
Definition stream_try (resp : Fetch OwmData) : M Json :=
  match resp with
  | FetchRaised msg => raise (TransportError msg)
  | FetchResponse status body =>
      if status =? 200 then
        d <- resp_json body ;;
        let flood := flood_of d in
        w0 <- lift (first_weather d) ;;
        now <- utcnow ;;
        ret (JObj [("temperature", jopt (owm_temp d));
                   ("humidity", jopt (owm_humidity d));
                   ("wind_speed", jopt (owm_wind_speed d));
                   ("rain_1h", JNum (get_or (owm_rain_1h d) 0%float));
                   ("rain_3h", JNum (get_or (owm_rain_3h d) 0%float));
                   ("clouds", jopt (owm_clouds_all d));
                   ("description", JStr (get_or (wi_description w0) ""));
                   ("flood_risk", model_dump flood);
                   ("timestamp", JTime now)])
      else ret (JObj [("error", JStr "API error")])
  end.

(** [try: ... except Exception as e: yield {'error': str(e)}]: the event
    one pass of the loop yields. *)
Definition stream_event (resp : Fetch OwmData) : M Json :=
  fun w => match stream_try resp w with
           | (Ok j, w') => (Ok j, w')
           | (Raise e, w') => (Ok (JObj [("error", JStr (str_exn e))]), w')
           end.

(** What the generator does that its consumer can see. *)
Inductive Action :=
| Yield (event : Json)       (* yield the event as one data line *)
| Sleep (seconds : Z).       (* await asyncio.sleep(interval) *)

(** One pass of [while True], as the consumer drives it: the fetch
    returns or the task is cancelled while awaiting it; after the yield
    the consumer asks for the next event or closes the generator; the
    sleep ends or is cancelled. *)
Record Cycle := mkCycle {
  cycle_fetch : option (Fetch OwmData);  (* None: cancelled during the fetch *)
  cycle_next : bool;                     (* false: closed at the yield *)
  cycle_slept : bool                     (* false: cancelled during the sleep *)
}.

Inductive GenState := Running | Stopped.

(** [async def event_generator()], run over the cycles its consumer lets
    it make. *)
Fixpoint event_generator (interval : Z) (cycles : list Cycle) : M (list Action * GenState) :=
  match cycles with
  | [] => ret ([], Running)
  | c :: rest =>
      match cycle_fetch c with
      | None => ret ([], Stopped)
      | Some resp =>
          ev <- stream_event resp ;;
          if negb (cycle_next c) then ret ([Yield ev], Stopped)
          else if negb (cycle_slept c) then ret ([Yield ev; Sleep interval], Stopped)
          else
            r <- event_generator interval rest ;;
            ret (Yield ev :: Sleep interval :: fst r, snd r)
      end
  end.

(** [interval: int = Query(default=60, ge=10, le=300)] and the key check
    of [weather_stream]. *)
Definition weather_stream (cfg : Config) (interval : option Z) (cycles : list Cycle)
    : M (list Action * GenState) :=
  let interval := get_or interval 60 in
  if negb ((10 <=? interval) && (interval <=? 300)) then raise RequestValidationError
  else if str_falsy (OWM_API_KEY cfg) then raise (HTTPException 500 "OWM API key not configured.")
  else event_generator interval cycles.

(** [async def flood_risk_calculator(...)]: absent parameters are [0]. *)
Definition flood_risk_calculator (rain_1h rain_3h humidity wind_speed clouds : option float)
    : FloodRisk :=
  calculate_flood_probability (get_or rain_1h 0%float) (get_or rain_3h 0%float)
    (get_or humidity 0%float) (get_or wind_speed 0%float) (get_or clouds 0%float).

(* ===================================================================== *)
(** * main.py: cities                                                    *)
(* ===================================================================== *)

(** [f"{n}"] on an [int]. *)
Definition str_of_int (n : Z) : string := NilEmpty.string_of_int (Z.to_int n).


(** [db.query(City).filter(City.id == city_id).first()] *)
Definition city_by_id (city : Z) (d : Database) : option City :=
  find (fun c => city_id c =? city) (cities d).


(** [db.delete(city)]: the relationships' [cascade="all, delete"] removes
    the city's weather logs and alerts with it. *)
Definition db_delete_city (city : City) : M unit :=
  persistence_call ;;;
  write_session (fun d =>
    mkDatabase
      (filter (fun c => negb (city_id c =? city_id city)) (cities d))
      (filter (fun l => negb (log_city_id l =? city_id city)) (weather_logs d))
      (search_history d)
      (filter (fun a => negb (alert_city_id a =? city_id city)) (alerts d))
      (api_keys d)).

(** [def delete_city(city_id, db, _auth)] *)
Definition delete_city (city : Z) : M string :=
  found <- db_query (city_by_id city) ;;
  match found with
  | None => raise (HTTPException 404 "City not found.")
  | Some c =>
      db_delete_city c ;;;
      db_commit ;;;
      ret ("City '" ++ city_name c ++ "' deleted.")%string
  end.

Definition flip_favorite (c : City) : City :=
  mkCity (city_id c) (city_name c) (city_country c) (city_state c)
         (city_lat c) (city_lon c) (city_created_at c) (negb (city_is_favorite c)).

(** [def toggle_favorite(city_id, db, _auth)] *)
Definition toggle_favorite (city : Z) : M City :=
  found <- db_query (city_by_id city) ;;
  match found with
  | None => raise (HTTPException 404 "City not found.")
  | Some c =>
      write_session (set_cities (map (fun x =>
        if city_id x =? city_id c then flip_favorite x else x))) ;;;
      db_commit ;;;
      db_refresh ;;;
      ret (flip_favorite c)
  end.

(* ===================================================================== *)
(** * main.py: alerts                                                    *)
(* ===================================================================== *)

(** The JSON body of [POST /alerts] before validation; [label] may be
    absent. *)
Record AlertBody := mkAlertBody {
  body_city_id : Z;
  body_threshold : float;
  body_label : option string
}.

(** [class AlertCreate(BaseModel)] *)
Record AlertCreate := mkAlertCreate {
  ac_city_id : Z;
  ac_threshold : float;
  ac_label : string
}.

(** Validation of [AlertCreate]:
    [threshold: float = Field(..., ge=0, le=100)], [label: str = ""]. *)
Definition validate_alert (b : AlertBody) : Result AlertCreate :=
  if (0 <=? body_threshold b)%float && (body_threshold b <=? 100)%float then
    Ok (mkAlertCreate (body_city_id b) (body_threshold b) (get_or (body_label b) ""))
  else Raise RequestValidationError.

(** [def create_alert(body, db, _auth)]; the answer is the row as
    [db.refresh(alert)] reads it back, its threshold as SQLite holds it. *)
Definition create_alert (body : AlertCreate) : M Alert :=
  city <- db_query (city_by_id (ac_city_id body)) ;;
  match city with
  | None => raise (HTTPException 404
        ("City ID " ++ str_of_int (ac_city_id body) ++ " not found. Save the city first.")%string)
  | Some _ =>
      persistence_call ;;;
      now <- utcnow ;;
      d <- read_session ;;
      let alert := mkAlert (next_id (map alert_id (alerts d))) (ac_city_id body)
                           (sqlite_number (ac_threshold body)) (ac_label body)
                           true now None 0 in
      write_session (set_alerts (fun xs => xs ++ [alert])) ;;;
      db_commit ;;;
      db_refresh ;;;
      ret alert
  end.

(** [POST /alerts]: the body is validated into an [AlertCreate] before
    [create_alert] is called. *)
Definition post_alerts (b : AlertBody) : M Alert :=
  body <- lift (validate_alert b) ;;
  create_alert body.

(** [def delete_alert(alert_id, db, _auth)] *)
Definition delete_alert (alert : Z) : M string :=
  found <- db_query (fun d => find (fun a => alert_id a =? alert) (alerts d)) ;;
  match found with
  | None => raise (HTTPException 404 "Alert not found.")
  | Some a =>
      persistence_call ;;;
      write_session (set_alerts (filter (fun x => negb (alert_id x =? alert_id a)))) ;;;
      db_commit ;;;
      ret ("Alert #" ++ str_of_int alert ++ " deleted.")%string
  end.

(** One entry of ["alerts_triggered"]. *)
Record Triggered := mkTriggered {
  tr_alert_id : Z;
  tr_label : string;
  tr_threshold : float;
  tr_current_score : float;
  tr_flood_level : Level
}.

(** What [check_alerts] returns. *)
Record CheckResult := mkCheckResult {
  cr_city : string;
  cr_current_flood_score : float;
  cr_flood_level : Level;
  cr_alerts_triggered : list Triggered;
  cr_total_active_alerts : nat
}.

(** The body of [for alert in alerts:] in [check_alerts]. *)
Definition check_one (flood : FloodRisk) (a : Alert) : M (option Triggered) :=
  if py_ge (score flood) (alert_threshold a) then
    trigger_alert a ;;;
    ret (Some (mkTriggered (alert_id a) (alert_label a) (alert_threshold a)
                           (score flood) (level flood)))
  else ret None.

Fixpoint somes {A} (xs : list (option A)) : list A :=
  match xs with
  | [] => []
  | Some x :: r => x :: somes r
  | None :: r => somes r
  end.

(** [async def check_alerts(city_id, db, _auth)], given what the weather
    request for the city's coordinates returned. *)
Definition check_alerts (cfg : Config) (city : Z) (resp : Fetch OwmData) : M CheckResult :=
  found <- db_query (city_by_id city) ;;
  match found with
  | None => raise (HTTPException 404 "City not found.")
  | Some c =>
      if str_falsy (OWM_API_KEY cfg) then
        raise (HTTPException 500 "OWM API key not configured.")
      else
        match resp with
        | FetchRaised msg => raise (TransportError msg)
        | FetchResponse status body =>
            if negb (status =? 200) then raise (HTTPException status "Weather API error.")
            else
              d <- resp_json body ;;
              let flood := flood_of d in
              alerts <- db_query (fun db => filter (fun a =>
                          (alert_city_id a =? city) && alert_is_active a) (alerts db)) ;;
              triggered <- for_each (check_one flood) alerts ;;
              db_commit ;;;
              ret (mkCheckResult (city_name c) (score flood) (level flood)
                                 (somes triggered) (List.length alerts))
        end
  end.

(* ===================================================================== *)
(** * main.py: forecast                                                  *)
(* ===================================================================== *)

(** One element of the forecast document's ["list"]. *)
Record Slot := mkSlot {
  slot_dt : option Z;
  slot_dt_txt : option string;
  slot_temp : option float;
  slot_feels_like : option float;
  slot_humidity : option float;
  slot_wind_speed : option float;
  slot_clouds_all : option float;
  slot_rain_3h : option float;
  slot_weather : option (list WeatherItem)
}.

(** [class ForecastItem(BaseModel)] *)
Record ForecastItem := mkForecastItem {
  fi_dt : Z;
  fi_datetime_str : string;
  fi_temperature : float;
  fi_feels_like : float;
  fi_humidity : float;
  fi_wind_speed : float;
  fi_rain_3h : float;
  fi_clouds : float;
  fi_description : string;
  fi_icon : string;
  fi_flood_risk : FloodRisk
}.

(** The body of [for slot in data.get("list", []):]. *)
Definition forecast_item (slot : Slot) : Result ForecastItem :=
  let rain_3h := get_or (slot_rain_3h slot) 0%float in
  let flood := calculate_flood_probability 0 rain_3h
                 (get_or (slot_humidity slot) 0%float)
                 (get_or (slot_wind_speed slot) 0%float)
                 (get_or (slot_clouds_all slot) 0%float) in
  match slot_dt slot with
  | None => Raise (KeyError "dt")
  | Some dt =>
      match slot_weather slot with
      | Some [] => Raise IndexError
      | w =>
          let w0 := match w with Some (x :: _) => x | _ => mkWeatherItem None None end in
          Ok (mkForecastItem dt (get_or (slot_dt_txt slot) "")
                (get_or (slot_temp slot) 0%float) (get_or (slot_feels_like slot) 0%float)
                (get_or (slot_humidity slot) 0%float) (get_or (slot_wind_speed slot) 0%float)
                rain_3h (get_or (slot_clouds_all slot) 0%float)
                (get_or (wi_description w0) "") (get_or (wi_icon w0) "") flood)
      end
  end.

Fixpoint forecast_items (slots : list Slot) : Result (list ForecastItem) :=
  match slots with
  | [] => Ok []
  | s :: rest =>
      match forecast_item s with
      | Raise e => Raise e
      | Ok it =>
          match forecast_items rest with
          | Raise e => Raise e
          | Ok its => Ok (it :: its)
          end
      end
  end.

(* ===================================================================== *)
(** * main.py: admin                                                     *)
(* ===================================================================== *)

(** [def create_api_key(body, db, _)]; [token] is what
    [secrets.token_hex(32)] returned. *)
Definition create_api_key (label token : string) : M ApiKey :=
  persistence_call ;;;
  now <- utcnow ;;
  d <- read_session ;;
  let key := mkApiKey (next_id (map key_id (api_keys d))) token label true now None 0 in
  write_session (set_api_keys (fun ks => ks ++ [key])) ;;;
  db_commit ;;;
  db_refresh ;;;
  ret key.

Definition deactivate (k : ApiKey) : ApiKey :=
  mkApiKey (key_id k) (key_key k) (key_label k) false
           (key_created_at k) (key_last_used k) (key_call_count k).

(** [def revoke_api_key(key, db, _)] *)
Definition revoke_api_key (key : string) : M string :=
  row <- db_query (fun d => find (fun k => String.eqb (key_key k) key) (api_keys d)) ;;
  match row with
  | None => raise (HTTPException 404 "API key not found.")
  | Some r =>
      write_session (set_api_keys (map (fun k =>
        if key_id k =? key_id r then deactivate k else k))) ;;;
      db_commit ;;;
      ret "API key revoked."
  end.

(** [class StatsResponse(BaseModel)] *)
Record StatsResponse := mkStatsResponse {
  total_searches : nat;
  total_cities_saved : nat;
  total_weather_logs : nat;
  total_alerts : nat;
  high_risk_events : nat
}.

Definition is_high (l : Level) : bool :=
  match l with HIGH => true | _ => false end.

(** [def get_stats(db, _)] *)
Definition get_stats : M StatsResponse :=
  a <- db_query (fun d => List.length (search_history d)) ;;
  b <- db_query (fun d => List.length (cities d)) ;;
  c <- db_query (fun d => List.length (weather_logs d)) ;;
  e <- db_query (fun d => List.length (alerts d)) ;;
  h <- db_query (fun d => List.length (filter (fun l => is_high (log_flood_level l)) (weather_logs d))) ;;
  ret (mkStatsResponse a b c e h).

(** A route behind [Depends(require_admin)]. *)
Definition admin_route {A} (cfg : Config) (admin_secret : string) (handler : M A) : M A :=
  lift (require_admin cfg admin_secret) ;;; handler.

(** A route behind [Depends(require_api_key)]. *)
Definition api_route {A} (cfg : Config) (api_key : option string) (handler : M A) : M A :=
  require_api_key cfg api_key ;;; handler.

(* ===================================================================== *)
(** * Vocabulary of the statements                                       *)
(* ===================================================================== *)

(** An alert an evaluation of [city] at [score] fires: it belongs to the
    city, is active and its threshold is at most the score. *)
Definition qualifies (city : Z) (score : float) (a : Alert) : bool :=
  (alert_city_id a =? city) && alert_is_active a && (alert_threshold a <=? score)%float.

(** The alerts table after the rows selected by [q] were fired in table
    order, the first of them at clock reading [k]. *)
Fixpoint fire_result (q : Alert -> bool) (utc : nat -> Time) (k : nat) (xs : list Alert)
    : list Alert :=
  match xs with
  | [] => []
  | a :: r =>
      if q a then trigger a (utc k) :: fire_result q utc (S k) r
      else a :: fire_result q utc k r
  end.

(** The table after the loaded alerts [sel] were fired one after the
    other, each by its primary key. *)
Fixpoint apply_triggers (utc : nat -> Time) (k : nat) (sel tbl : list Alert) : list Alert :=
  match sel with
  | [] => tbl
  | a :: r =>
      apply_triggers utc (S k) r
        (map (fun x => if alert_id x =? alert_id a then trigger x (utc k) else x) tbl)
  end.

(** How one evaluation, whose clock readings are numbered [lo] to [hi - 1],
    relates an alert [a] to what it is afterwards. *)
Definition evaluated_once (q : Alert -> bool) (utc : nat -> Time) (lo hi : nat)
    (a a' : Alert) : Prop :=
  if q a then
    exists k, (lo <= k < hi)%nat /\
      a' = trigger a (utc k) /\
      alert_trigger_count a' = alert_trigger_count a + 1 /\
      alert_last_triggered a' = Some (utc k)
  else a' = a.

(** The request starts on a clean session over a database whose primary
    keys are unique, and the persistence layer does not fail. *)
Definition healthy (w : World) : Prop :=
  fault w = None /\ NoDup (map alert_id (alerts (durable w))).

(** A current-weather response with status 200 and a well-formed body. *)
Definition ok_response (d : OwmData) : Fetch OwmData := FetchResponse 200 (Parsed d).

(** The snapshot [_log_weather] writes on a database [d] at time [t]. *)
Definition snapshot (city : Z) (d : OwmData) (w0 : WeatherItem) (db : Database) (t : Time)
    : WeatherLog :=
  new_weather_log (next_id (map log_id (weather_logs db))) city t d w0 (flood_of d).

Definition logged (city : Z) (d : OwmData) (w0 : WeatherItem) (db : Database) (t : Time)
    : Database :=
  set_weather_logs (fun ls => ls ++ [snapshot city d w0 db t]) db.

Definition fired (city : Z) (sc : float) (u : nat -> Time) (k : nat) (db : Database)
    : Database :=
  set_alerts (fire_result (qualifies city sc) u k) db.

Definition triggered_entry (flood : FloodRisk) (a : Alert) : Triggered :=
  mkTriggered (alert_id a) (alert_label a) (alert_threshold a) (score flood) (level flood).

Definition reaches (sc : float) (a : Alert) : bool := (alert_threshold a <=? sc)%float.

Definition active_in (city : Z) (a : Alert) : bool :=
  (alert_city_id a =? city) && alert_is_active a.

(** ** A small deployment used in the scenarios *)

Definition demo_cfg : Config := mkConfig "owm-key" "admin-secret" None.

Definition demo_city : City := mkCity 1 "Chennai" "IN" "" 13.08 80.27 0 false.

Definition demo_alert (id : Z) (threshold : float) : Alert :=
  mkAlert id 1 threshold "" true 0 None 0.

(** One city with two active alerts, thresholds 30 and 80. *)
Definition demo_db : Database :=
  mkDatabase [demo_city] [] [] [demo_alert 1 30; demo_alert 2 80] [].

Definition demo_world (flt : option nat) : World :=
  mkWorld demo_db demo_db (fun n => 1000 + Z.of_nat n) 0 flt.

(** A document that carries the five factors and nothing else. *)
Definition owm_factors (rain_1h rain_3h humidity wind_speed clouds : float) : OwmData :=
  mkOwmData None None None (Some humidity) None (Some wind_speed) None (Some clouds)
            (Some rain_1h) (Some rain_3h) None None.

(** Rain of 20 mm in the hour and wind of 25: a score of 50. *)
Definition demo_owm : OwmData := owm_factors 20 0 0 25 0.

(** [check_alerts] called once per document of [ds], one request each. *)
Definition run_checks (cfg : Config) (city : Z) (rs : list (Fetch OwmData)) (w : World) : World :=
  fold_left (fun w r => snd (request (check_alerts cfg city r) w)) rs w.

(** A cycle the consumer lets run to its end. *)
Definition uncancelled (c : Cycle) : bool :=
  match cycle_fetch c with Some _ => cycle_next c && cycle_slept c | None => false end.

(** An event of the form [{"error": <message>}]. *)
Definition error_event (msg : string) : Json := JObj [("error", JStr msg)].

(** The scored payload of a successful cycle, stamped [t]. *)
Definition scored_event (d : OwmData) (w0 : WeatherItem) (t : Time) : Json :=
  JObj [("temperature", jopt (owm_temp d));
        ("humidity", jopt (owm_humidity d));
        ("wind_speed", jopt (owm_wind_speed d));
        ("rain_1h", JNum (get_or (owm_rain_1h d) 0%float));
        ("rain_3h", JNum (get_or (owm_rain_3h d) 0%float));
        ("clouds", jopt (owm_clouds_all d));
        ("description", JStr (get_or (wi_description w0) ""));
        ("flood_risk", model_dump (flood_of d));
        ("timestamp", JTime t)].

(** What a cycle must emit, by what its fetch gave. *)
Definition expected_event (utc : nat -> Time) (resp : Fetch OwmData) (ev : Json) : Prop :=
  match resp with
  | FetchRaised msg => ev = error_event msg
  | FetchResponse status body =>
      if status =? 200 then
        match body with
        | Malformed msg => ev = error_event msg
        | Parsed d =>
            match first_weather d with
            | Ok w0 => exists k, ev = scored_event d w0 (utc k)
            | Raise e => ev = error_event (str_exn e)
            end
        end
      else ev = error_event "API error"
  end.

Definition fetch_of (c : Cycle) : Fetch OwmData :=
  get_or (cycle_fetch c) (FetchRaised "").

Fixpoint emitted (interval : Z) (evs : list Json) : list Action :=
  match evs with
  | [] => []
  | ev :: r => Yield ev :: Sleep interval :: emitted interval r
  end.

(* ===================================================================== *)
(** * main.py: historical floods                                         *)
(* ===================================================================== *)

(** One entry of a city's list in [HISTORICAL_FLOODS]. *)
Record FloodEvent := mkFloodEvent {
  fe_year : Z;
  fe_event : string;
  fe_deaths : option Z;
  fe_severity : Level;
  fe_rainfall_mm : option Z;
  fe_description : string;
  fe_source : string
}.

(** The dictionary, in the order its keys were inserted. *)
Definition HISTORICAL_FLOODS : list (string * list FloodEvent) :=
  [
   ("mumbai", [
     mkFloodEvent 2005 "Mumbai Floods" (Some 1094) HIGH (Some 944)
       "July 26, 2005 – 944mm of rain in 24 hours, deadliest urban flood in Indian history."
       "IMD";
     mkFloodEvent 2017 "Mumbai Monsoon Floods" (Some 33) MEDIUM (Some 298)
       "August 2017 flooding caused widespread transport disruption and building collapses."
       "NDMA";
     mkFloodEvent 2021 "Mumbai Monsoon Floods" (Some 22) MEDIUM (Some 320)
       "July 2021 heavy rains led to landslides and building collapses in suburbs."
       "NDMA"]);
   ("new orleans", [
     mkFloodEvent 2005 "Hurricane Katrina" (Some 1833) HIGH (Some 250)
       "August 29, 2005 – Levee failures flooded 80% of the city, catastrophic $125B damage."
       "FEMA";
     mkFloodEvent 2016 "Louisiana Floods" (Some 13) MEDIUM (Some 686)
       "August 2016 – Historic flooding affected 145,000 homes in southeast Louisiana."
       "FEMA"]);
   ("houston", [
     mkFloodEvent 2017 "Hurricane Harvey" (Some 107) HIGH (Some 1539)
       "August 2017 – Harvey dropped record 1,539mm of rain, flooding 154,000 structures."
       "NOAA";
     mkFloodEvent 2015 "Memorial Day Floods" (Some 35) HIGH (Some 310)
       "May 2015 – Rapid flooding overwhelmed drainage systems, 35 fatalities."
       "NWS"]);
   ("chennai", [
     mkFloodEvent 2015 "Chennai Floods" (Some 500) HIGH (Some 1218)
       "November-December 2015 – Worst floods in 100 years, 500 deaths, $3B damage."
       "IMD";
     mkFloodEvent 2023 "Chennai Monsoon Floods" (Some 14) MEDIUM (Some 270)
       "October 2023 – Northeast monsoon flooding inundated several districts."
       "NDMA"]);
   ("kolkata", [
     mkFloodEvent 2021 "Cyclone Yaas" (Some 19) HIGH (Some 320)
       "May 2021 – Cyclone Yaas caused extensive coastal flooding in West Bengal."
       "NDMA";
     mkFloodEvent 2017 "Kolkata Urban Floods" (Some 12) MEDIUM (Some 210)
       "August 2017 – Heavy rains caused waterlogging across major areas of the city."
       "KMC"]);
   ("delhi", [
     mkFloodEvent 2023 "Delhi Yamuna Floods" (Some 27) HIGH (Some 153)
       "July 2023 – Yamuna river reached record levels, flooding low-lying areas."
       "CWC";
     mkFloodEvent 2021 "Delhi Monsoon Flooding" (Some 10) MEDIUM (Some 111)
       "September 2021 – Unprecedented rainfall in single day caused massive waterlogging."
       "IMD"]);
   ("bangalore", [
     mkFloodEvent 2022 "Bangalore Floods" (Some 16) HIGH (Some 131)
       "September 2022 – Tech parks and residential areas including Bellandur submerged."
       "IMD";
     mkFloodEvent 2017 "Bangalore Urban Floods" (Some 10) MEDIUM (Some 98)
       "August 2017 – Heavy rains caused massive waterlogging across IT corridors."
       "BBMP"]);
   ("hyderabad", [
     mkFloodEvent 2020 "Hyderabad Floods" (Some 77) HIGH (Some 324)
       "October 2020 – Worst flooding in 30 years, 77 deaths, severe damage to Old City."
       "NDMA";
     mkFloodEvent 2016 "Hyderabad Flash Floods" (Some 23) MEDIUM (Some 187)
       "August 2016 – Flash floods submerged hundreds of colonies across city."
       "GHMC"]);
   ("tirupati", [
     mkFloodEvent 2020 "Cyclone Nivar Flooding" (Some 7) HIGH (Some 310)
       "November 2020 – Cyclone Nivar brought severe rainfall and flooding to Tirupati and Chittoor district."
       "NDMA";
     mkFloodEvent 2022 "Tirupati Monsoon Floods" (Some 5) MEDIUM (Some 195)
       "October 2022 – Heavy northeast monsoon rains caused flooding in low-lying areas."
       "APSDMA"]);
   ("jakarta", [
     mkFloodEvent 2020 "Jakarta New Year Floods" (Some 66) HIGH (Some 377)
       "January 1, 2020 – Record rainfall flooded 169 locations across greater Jakarta."
       "BNPB";
     mkFloodEvent 2007 "Jakarta Mega-Floods" (Some 57) HIGH (Some 340)
       "February 2007 – Two-thirds of Jakarta submerged, 57 deaths, 400,000 evacuated."
       "OCHA"]);
   ("london", [
     mkFloodEvent 2021 "London Flash Floods" (Some 4) MEDIUM (Some 94)
       "July 2021 – Underground stations flooded, streets impassable across west London."
       "EA";
     mkFloodEvent 2007 "UK Summer Floods" (Some 13) HIGH (Some 118)
       "June-July 2007 – England's worst peacetime emergency, 55,000 homes flooded."
       "EA"]);
   ("bangkok", [
     mkFloodEvent 2011 "Thailand Megaflood" (Some 813) HIGH (Some 850)
       "Jul-Dec 2011 – Worst flooding in 50 years, 40% of Thailand affected, $45B damage."
       "OCHA"]);
   ("new york", [
     mkFloodEvent 2012 "Hurricane Sandy" (Some 43) HIGH (Some 111)
       "October 2012 – 14-foot storm surge flooded NYC subways and lower Manhattan."
       "FEMA";
     mkFloodEvent 2021 "Hurricane Ida Remnants" (Some 13) HIGH (Some 183)
       "September 2021 – Record 3.15 inches/hour rainfall flooded subway and basements."
       "NWS"]);
   ("miami", [
     mkFloodEvent 2017 "Hurricane Irma" (Some 4) HIGH (Some 320)
       "September 2017 – Storm surge and heavy rain flooded Miami Beach and downtown."
       "NOAA"]);
   ("venice", [
     mkFloodEvent 2019 "Venice Acqua Alta" (Some 2) HIGH (Some 148)
       "November 2019 – 187cm water level, second highest ever, 85% of city flooded."
       "CNR"]);
   ("default", [
     mkFloodEvent 2022 "Regional Flash Flood Events" None MEDIUM None
       "Flash flood events have increasingly impacted urban areas globally due to climate change. Check local disaster management reports for specific city data."
       "UNDRR";
     mkFloodEvent 2021 "Global Urban Flood Trend" None LOW None
       "2021 saw a 134% increase in reported urban flood events compared to the 2000-2009 decade average."
       "UNDRR"])
  ].

(** [a in b] on strings: [a] occurs in [b]. *)
Fixpoint str_in (a b : string) : bool :=
  prefix a b ||
  match b with
  | EmptyString => false
  | String _ r => str_in a r
  end.

(** [d[key]] / [key in d] on the dictionary. *)
Fixpoint dict_get {A} (d : list (string * A)) (key : string) : option A :=
  match d with
  | [] => None
  | (k, v) :: r => if String.eqb k key then Some v else dict_get r key
  end.

(** The [for key in HISTORICAL_FLOODS:] loop of [get_flood_history]. *)
Fixpoint first_related (d : list (string * list FloodEvent)) (city_lower : string)
    : option (list FloodEvent) :=
  match d with
  | [] => None
  | (key, v) :: r =>
      if negb (String.eqb key "default") && (str_in key city_lower || str_in city_lower key)
      then Some v
      else first_related r city_lower
  end.

(** [str.lower] and [str.strip] belong to the Python runtime and follow the
    Unicode tables of its version; the lookup is defined over them.  A
    Python [str] is held as its UTF-8 bytes, on which [a in b] is the
    occurrence of one byte string in the other. *)
Section FloodHistory.

Variable lower : string -> string.   (* [s.lower()] *)
Variable strip : string -> string.   (* [s.strip()] *)

(** [def get_flood_history(city_name)], over a dictionary [d]. *)
Definition flood_history_in (d : list (string * list FloodEvent)) (city_name : string)
    : list FloodEvent :=
  let city_lower := strip (lower city_name) in
  match dict_get d city_lower with
  | Some v => v
  | None =>
      match first_related d city_lower with
      | Some v => v
      | None => get_or (dict_get d "default") []
      end
  end.

Definition get_flood_history (city_name : string) : list FloodEvent :=
  flood_history_in HISTORICAL_FLOODS city_name.

(** What [flood_history] returns: the city as given, the events and their
    count. *)
Definition flood_history (city : string) : string * list FloodEvent * nat :=
  let events := get_flood_history city in
  (city, events, List.length events).

End FloodHistory.

(** ** The two built-ins on ASCII strings

    On a string of ASCII characters [str.strip] removes the leading and
    trailing characters for which [isspace] holds (tab to carriage return,
    the four separators 28 to 31, and the space) and [str.lower] lowers
    the capitals; these are used to run the lookup on ASCII names. *)
Definition ascii_isspace (c : ascii) : bool :=
  let n := nat_of_ascii c in
  ((9 <=? n)%nat && (n <=? 13)%nat) || ((28 <=? n)%nat && (n <=? 32)%nat).

Fixpoint lstrip (s : string) : string :=
  match s with
  | String c r => if ascii_isspace c then lstrip r else s
  | EmptyString => EmptyString
  end.

Fixpoint rstrip (s : string) : string :=
  match s with
  | EmptyString => EmptyString
  | String c r =>
      match rstrip r with
      | EmptyString => if ascii_isspace c then EmptyString else String c EmptyString
      | r' => String c r'
      end
  end.

Definition strip_ascii (s : string) : string := rstrip (lstrip s).

(** ** The forecast handler *)

(** The forecast document: [data["city"]] with its ["coord"], and
    [data["list"]]. *)
Record ForecastDoc := mkForecastDoc {
  fd_city_name : option string;
  fd_city_country : option string;
  fd_coord_lat : option float;
  fd_coord_lon : option float;
  fd_list : option (list Slot)
}.

(** [class ForecastResponse(BaseModel)] *)
Record ForecastResponse := mkForecastResponse {
  fr_city : string;
  fr_country : string;
  fr_lat : float;
  fr_lon : float;
  fr_items : list ForecastItem
}.

(** [async def get_forecast(request, lat, lon, _auth)], given what the
    forecast request returned; the handler has no database session. *)
Definition get_forecast (cfg : Config) (lat lon : float) (resp : Fetch ForecastDoc)
    : Result ForecastResponse :=
  if str_falsy (OWM_API_KEY cfg) then Raise (HTTPException 500 "OWM API key not configured.")
  else
    match resp with
    | FetchRaised msg => Raise (TransportError msg)
    | FetchResponse status body =>
        if negb (status =? 200) then Raise (HTTPException status "Forecast API error.")
        else
          match body with
          | Malformed msg => Raise (JSONDecodeError msg)
          | Parsed data =>
              match forecast_items (get_or (fd_list data) []) with
              | Raise e => Raise e
              | Ok items =>
                  Ok (mkForecastResponse
                        (get_or (fd_city_name data) "") (get_or (fd_city_country data) "")
                        (get_or (fd_coord_lat data) lat) (get_or (fd_coord_lon data) lon)
                        items)
              end
          end
    end.

(** ** Vocabulary of the further statements *)

Definition auth_on (cfg : Config) : bool :=
  String.eqb (lower_ascii (get_or (REQUIRE_API_KEY cfg) "false")) "true".

Definition valid_key (key : string) (k : ApiKey) : bool :=
  String.eqb (key_key k) key && key_is_active k.

(** The single row a geocoding request adds to the search history. *)
Definition logged_search (w w' : World) (query : string) (success : bool) : Prop :=
  exists row,
    search_history (durable w') = search_history (durable w) ++ [row]
    /\ search_query row = query /\ search_success row = success
    /\ cities (durable w') = cities (durable w)
    /\ alerts (durable w') = alerts (durable w)
    /\ weather_logs (durable w') = weather_logs (durable w).

(** A slot [forecast_item] can turn into an item. *)
Definition usable_slot (s : Slot) : bool :=
  match slot_dt s, slot_weather s with
  | None, _ => false
  | Some _, Some [] => false
  | Some _, _ => true
  end.

Fixpoint first_key_related (keys : list string) (s : string) : option string :=
  match keys with
  | [] => None
  | key :: r =>
      if negb (String.eqb key "default") && (str_in key s || str_in s key) then Some key
      else first_key_related r s
  end.

(** The database after [delete_city] of the row [c]. *)
Definition without_city (c : City) (db : Database) : Database :=
  mkDatabase
    (filter (fun x => negb (city_id x =? city_id c)) (cities db))
    (filter (fun l => negb (log_city_id l =? city_id c)) (weather_logs db))
    (search_history db)
    (filter (fun a => negb (alert_city_id a =? city_id c)) (alerts db))
    (api_keys db).




(* ===================================================================== *)
(** * Facts about binary64 arithmetic                                    *)
(* ===================================================================== *)

Open Scope float_scope.

(** ** Digits and right shifts *)

Lemma digits2_pos_bounds (m : positive) :
  (2 ^ (Z.pos (digits2_pos m) - 1) <= Z.pos m < 2 ^ Z.pos (digits2_pos m))%Z.
Proof.
  induction m as [m IH | m IH |]; cbn [digits2_pos].
  - rewrite Pos2Z.inj_succ.
    replace (Z.succ (Z.pos (digits2_pos m)) - 1)%Z with (Z.succ (Z.pos (digits2_pos m) - 1))%Z by lia.
    rewrite !Z.pow_succ_r by lia. lia.
  - rewrite Pos2Z.inj_succ.
    replace (Z.succ (Z.pos (digits2_pos m)) - 1)%Z with (Z.succ (Z.pos (digits2_pos m) - 1))%Z by lia.
    rewrite !Z.pow_succ_r by lia. lia.
  - cbn. lia.
Qed.

Lemma shr_1_m (r : shr_record) :
  (0 <= shr_m r)%Z -> shr_m (shr_1 r) = (shr_m r / 2)%Z.
Proof.
  destruct r as [m b s]; cbn [shr_m]; intros Hm.
  destruct m as [| p | p]; [reflexivity | | lia].
  destruct p as [p | p |]; cbn [shr_1 shr_m].
  - rewrite Pos2Z.inj_xI. apply Z.div_unique with (r := 1%Z); lia.
  - rewrite Pos2Z.inj_xO. apply Z.div_unique with (r := 0%Z); lia.
  - reflexivity.
Qed.

Lemma iter_shr_1_m (p : positive) : forall r : shr_record,
  (0 <= shr_m r)%Z -> shr_m (iter_pos shr_1 p r) = (shr_m r / 2 ^ Z.pos p)%Z.
Proof.
  assert (Hnn : forall a b, (0 <= a)%Z -> (0 < b)%Z -> (0 <= a / b)%Z)
    by (intros; apply Z.div_pos; lia).
  assert (Hpw : forall q, (0 < 2 ^ Z.pos q)%Z)
    by (intros; apply Z.pow_pos_nonneg; lia).
  induction p as [p IH | p IH |]; intros r Hr; cbn [iter_pos].
  - assert (H1 : (0 <= shr_m (shr_1 r))%Z)
      by (rewrite shr_1_m by exact Hr; apply Hnn; lia).
    assert (H2 : (0 <= shr_m (iter_pos shr_1 p (shr_1 r)))%Z)
      by (rewrite IH by exact H1; apply Hnn; auto).
    rewrite (IH _ H2), (IH _ H1), (shr_1_m _ Hr).
    rewrite !Z.div_div by (pose proof (Hpw p); lia).
    f_equal. change 2%Z with (2 ^ 1)%Z at 1.
    rewrite <- !Z.pow_add_r by lia. f_equal. lia.
  - assert (H1 : (0 <= shr_m (iter_pos shr_1 p r))%Z)
      by (rewrite IH by exact Hr; apply Hnn; auto).
    rewrite (IH _ H1), (IH _ Hr).
    rewrite !Z.div_div by (pose proof (Hpw p); lia).
    f_equal. rewrite <- !Z.pow_add_r by lia. f_equal. lia.
  - rewrite shr_1_m by auto. reflexivity.
Qed.

Lemma shr_record_of_loc_m (m : Z) (l : location) :
  shr_m (shr_record_of_loc m l) = m.
Proof. destruct l as [| []]; reflexivity. Qed.

Lemma fexp_emin (e : Z) : (emin <= fexp prec emax e)%Z.
Proof. unfold fexp. lia. Qed.

(** A right shift to the format's exponent keeps a mantissa non-negative. *)
Lemma shr_fexp_nonneg (m e : Z) (l : location) :
  (0 <= m)%Z -> (0 <= shr_m (fst (shr_fexp prec emax m e l)))%Z.
Proof.
  intros Hm. unfold shr_fexp, shr.
  destruct (fexp prec emax (Zdigits2 m + e) - e)%Z as [| p | p]; cbn [fst];
    rewrite ?iter_shr_1_m; rewrite ?shr_record_of_loc_m; auto.
  apply Z.div_pos; [assumption | apply Z.pow_pos_nonneg; lia].
Qed.

(** Above the smallest exponent it never shifts a positive mantissa away. *)
Lemma shr_fexp_pos (m e : Z) (l : location) :
  (0 < m)%Z -> (emin <= e)%Z ->
  (0 < shr_m (fst (shr_fexp prec emax m e l)))%Z /\
  (emin <= snd (shr_fexp prec emax m e l))%Z.
Proof.
  intros Hm He. unfold shr_fexp, shr.
  destruct (fexp prec emax (Zdigits2 m + e) - e)%Z as [| p | p] eqn:En; cbn [fst snd];
    rewrite ?shr_record_of_loc_m; auto.
  rewrite iter_shr_1_m by (rewrite shr_record_of_loc_m; lia).
  rewrite shr_record_of_loc_m. split; [| lia].
  destruct m as [| q | q]; try lia. cbn [Zdigits2] in En.
  pose proof (digits2_pos_bounds q) as [Hlo _].
  assert (Hp : (Z.pos p <= Z.pos (digits2_pos q) - 1)%Z).
  { unfold fexp, emin, prec, emax in *. lia. }
  apply Z.div_str_pos. split; [apply Z.pow_pos_nonneg; lia |].
  eapply Z.le_trans; [| exact Hlo]. apply Z.pow_le_mono_r; lia.
Qed.

Lemma round_nearest_even_ge (m : Z) (l : location) :
  (m <= round_nearest_even m l)%Z.
Proof. destruct l as [| []]; cbn; try destruct (Z.even m); lia. Qed.

Lemma binary_round_aux_signed (s : bool) (m e : Z) (l : location) :
  (0 <= m)%Z -> signed_as s (binary_round_aux prec emax s m e l).
Proof.
  intros Hm. unfold binary_round_aux.
  pose proof (shr_fexp_nonneg m e l Hm) as H1.
  destruct (shr_fexp prec emax m e l) as [mrs1 e1]; cbn [fst] in H1.
  pose proof (round_nearest_even_ge (shr_m mrs1) (loc_of_shr_record mrs1)) as H2.
  assert (H3 : (0 <= round_nearest_even (shr_m mrs1) (loc_of_shr_record mrs1))%Z) by lia.
  pose proof (shr_fexp_nonneg _ e1 loc_Exact H3) as H4.
  destruct (shr_fexp prec emax _ e1 loc_Exact) as [mrs2 e2]; cbn [fst] in H4.
  destruct (shr_m mrs2) as [| p | p]; try lia; [reflexivity |].
  destruct (e2 <=? emax - prec)%Z; reflexivity.
Qed.

Lemma binary_round_aux_nonzero (s : bool) (m e : Z) (l : location) :
  (0 < m)%Z -> (emin <= e)%Z -> nonzero_number (binary_round_aux prec emax s m e l).
Proof.
  intros Hm He. unfold binary_round_aux.
  pose proof (shr_fexp_pos m e l Hm He) as [H1 H1'].
  destruct (shr_fexp prec emax m e l) as [mrs1 e1]; cbn [fst snd] in H1, H1'.
  pose proof (round_nearest_even_ge (shr_m mrs1) (loc_of_shr_record mrs1)) as H2.
  assert (H3 : (0 < round_nearest_even (shr_m mrs1) (loc_of_shr_record mrs1))%Z) by lia.
  pose proof (shr_fexp_pos _ e1 loc_Exact H3 H1') as [H4 _].
  destruct (shr_fexp prec emax _ e1 loc_Exact) as [mrs2 e2]; cbn [fst] in H4.
  destruct (shr_m mrs2) as [| p | p]; try lia.
  destruct (e2 <=? emax - prec)%Z; exact I.
Qed.

Lemma valid_finite (x : float) (s : bool) (m : positive) (e : Z) :
  Prim2SF x = S754_finite s m e ->
  (Z.pos m < 2 ^ 53)%Z /\ (emin <= e)%Z.
Proof.
  intros Hx. pose proof (Prim2SF_valid x) as Hv. rewrite Hx in Hv.
  cbn [valid_binary] in Hv. unfold bounded, canonical_mantissa in Hv.
  apply andb_true_iff in Hv as [Hc _]. apply Z.eqb_eq in Hc.
  pose proof (digits2_pos_bounds m) as [_ Hhi].
  unfold fexp, emin, prec, emax in *. split; [| lia].
  eapply Z.lt_le_trans; [exact Hhi |]. apply Z.pow_le_mono_r; lia.
Qed.

(** ** Multiplication commutes *)
Lemma mul_comm (x y : float) : x * y = y * x.
Proof.
  apply Prim2SF_inj. rewrite !mul_spec.
  destruct (Prim2SF x) as [sx | sx | | sx mx ex], (Prim2SF y) as [sy | sy | | sy my ey];
    cbn [SF64mul SFmul]; rewrite ?(xorb_comm sx sy); try reflexivity.
  now rewrite (Pos.mul_comm mx my), (Z.add_comm ex ey).
Qed.

(** ** Classes of numbers, read off the specification value *)

Lemma zero_SF : Prim2SF 0 = S754_zero false.
Proof. reflexivity. Qed.

Lemma leb_zero_nonneg (x : float) : (0 <=? x) = true <-> sf_nonneg (Prim2SF x).
Proof.
  rewrite leb_spec, zero_SF.
  destruct (Prim2SF x) as [s | [] | | [] m e]; cbn; intuition congruence.
Qed.

Lemma ltb_zero_neg (x : float) : (x <? 0) = true <-> sf_neg (Prim2SF x).
Proof.
  rewrite ltb_spec, zero_SF.
  destruct (Prim2SF x) as [s | [] | | [] m e]; cbn; intuition congruence.
Qed.

Lemma ltb_pos_const_neg (c x : float) :
  pos_const c -> sf_neg (Prim2SF x) \/ (exists s, Prim2SF x = S754_zero s) -> (c <? x) = false.
Proof.
  intros (m & e & Hc) Hx. rewrite ltb_spec, Hc.
  destruct Hx as [Hx | [s Hx]].
  - destruct (Prim2SF x) as [s | [] | | [] mx ex]; cbn in *; try tauto; reflexivity.
  - rewrite Hx. reflexivity.
Qed.

Lemma signed_as_sign (s : bool) (x : spec_float) : signed_as s x -> sf_sign x = Some s.
Proof. destruct x; cbn; intros; subst; tauto. Qed.

Lemma binary_round_signed (s : bool) (p : positive) (e : Z) :
  signed_as s (binary_round prec emax s p e).
Proof.
  unfold binary_round. destruct (shl_align p e _) as [mz ez].
  apply binary_round_aux_signed. lia.
Qed.

Lemma binary_round_nonzero (s : bool) (p : positive) (e : Z) :
  (emin <= e)%Z -> nonzero_number (binary_round prec emax s p e).
Proof.
  intros He. unfold binary_round, shl_align.
  set (f := fexp prec emax (Z.pos (digits2_pos p) + e)).
  pose proof (fexp_emin (Z.pos (digits2_pos p) + e)) as Hf. fold f in Hf.
  destruct (f - e)%Z; apply binary_round_aux_nonzero; lia.
Qed.

(** Dividing or multiplying by a positive constant keeps the sign bit, keeps
    a zero a zero and keeps NaN. *)
Lemma div_pos_const_sign (c x : float) :
  pos_const c -> sf_sign (Prim2SF (x / c)) = sf_sign (Prim2SF x).
Proof.
  intros (mc & ec & Hc). rewrite div_spec, Hc.
  destruct (Prim2SF x) as [s | s | | s m e]; cbn [SF64div SFdiv sf_sign];
    rewrite ?xorb_false_r; try reflexivity.
  destruct (SFdiv_core_binary prec emax (Z.pos m) e (Z.pos mc) ec) as [[q e'] l] eqn:Hd.
  apply signed_as_sign, binary_round_aux_signed.
  unfold SFdiv_core_binary in Hd.
  set (m' := match (e - ec - _)%Z with Z.pos _ => _ | Z0 => _ | Z.neg _ => _ end) in Hd.
  assert (Hm' : (0 <= m')%Z).
  { subst m'. destruct (e - ec - _)%Z; try lia. apply Z.shiftl_nonneg. lia. }
  pose proof (Z.div_pos m' (Z.pos mc) Hm' ltac:(lia)) as Hq.
  unfold Z.div in Hq. destruct (Z.div_eucl m' (Z.pos mc)) as [q0 r0].
  cbn [fst] in Hq. inversion Hd; subst. exact Hq.
Qed.

Lemma div_pos_const_zero (c x : float) :
  pos_const c -> sf_is_zero (Prim2SF x) -> sf_is_zero (Prim2SF (x / c)).
Proof.
  intros (mc & ec & Hc). rewrite div_spec, Hc.
  destruct (Prim2SF x) as [s | s | | s m e]; cbn; tauto.
Qed.

Lemma mul_pos_const_sign (c x : float) :
  pos_const c -> sf_sign (Prim2SF (x * c)) = sf_sign (Prim2SF x).
Proof.
  intros (mc & ec & Hc). rewrite mul_spec, Hc.
  destruct (Prim2SF x) as [s | s | | s m e]; cbn [SF64mul SFmul sf_sign];
    rewrite ?xorb_false_r; try reflexivity.
  apply signed_as_sign, binary_round_aux_signed. lia.
Qed.

Lemma mul_pos_const_zero (c x : float) :
  pos_const c -> sf_is_zero (Prim2SF x) -> sf_is_zero (Prim2SF (x * c)).
Proof.
  intros (mc & ec & Hc). rewrite mul_spec, Hc.
  destruct (Prim2SF x) as [s | s | | s m e]; cbn; tauto.
Qed.

(** [h - c] for a positive constant [c], by the class of [h]. *)
Lemma sub_pos_const_cases (c h : float) :
  pos_const c ->
  match Prim2SF h with
  | S754_nan => Prim2SF (h - c) = S754_nan
  | S754_infinity s => Prim2SF (h - c) = S754_infinity s
  | S754_zero _ | S754_finite true _ _ => sf_neg (Prim2SF (h - c))
  | S754_finite false _ _ =>
      Prim2SF (h - c) = S754_zero false \/ nonzero_number (Prim2SF (h - c))
  end.
Proof.
  intros (mc & ec & Hc). rewrite sub_spec, Hc.
  pose proof (valid_finite c _ _ _ Hc) as [_ Hec].
  destruct (Prim2SF h) as [s | s | | s m e] eqn:Hh; cbn [SF64sub SFsub negb]; try reflexivity; try exact I.
  pose proof (valid_finite h _ _ _ Hh) as [_ He].
  set (ez := IntDef.Z.min e ec).
  assert (Hez : (emin <= ez)%Z) by (unfold ez; change IntDef.Z.min with Z.min; lia).
  set (a := fst (shl_align m e ez)). set (b := fst (shl_align mc ec ez)).
  destruct s; cbn [cond_Zopp].
    + assert (Hz : (- Z.pos a - Z.pos b = Z.neg (a + b))%Z) by lia.
      rewrite Hz. cbn [binary_normalize].
      pose proof (binary_round_signed true (a + b) ez) as H1.
      pose proof (binary_round_nonzero true (a + b) ez Hez) as H2.
      destruct (binary_round prec emax true (a + b) ez); cbn in *; subst; tauto.
    + destruct (Z.pos a - Z.pos b)%Z as [| p | p]; cbn [binary_normalize]; [now left | right..];
        apply binary_round_nonzero; exact Hez.
Qed.

Lemma sub_pos_const_no_neg_zero (c h : float) :
  pos_const c -> Prim2SF (h - c) <> S754_zero true.
Proof.
  intros Hc. pose proof (sub_pos_const_cases c h Hc) as H.
  destruct (Prim2SF h) as [s | s | | [] m e];
    destruct (Prim2SF (h - c)) as [[] | | |]; cbn in *; try congruence; try tauto;
    destruct H; congruence || tauto.
Qed.

Lemma add_nonneg (a b : float) :
  sf_nonneg (Prim2SF a) -> sf_nonneg (Prim2SF b) -> sf_nonneg (Prim2SF (a + b)).
Proof.
  rewrite add_spec.
  destruct (Prim2SF a) as [sa | [] | | [] ma ea], (Prim2SF b) as [sb | [] | | [] mb eb];
    cbn [sf_nonneg SF64add SFadd cond_Zopp]; try tauto; intros _ _.
  - destruct sa, sb; exact I.
  - set (ez := IntDef.Z.min ea eb).
    set (x := fst (shl_align ma ea ez)). set (y := fst (shl_align mb eb ez)).
    replace (Z.pos x + Z.pos y)%Z with (Z.pos (x + y)) by lia. cbn [binary_normalize].
    pose proof (binary_round_signed false (x + y) ez) as H1.
    destruct (binary_round prec emax false (x + y) ez) as [| | |]; cbn in *; subst; tauto.
Qed.

Ltac pos_const_tac := unfold pos_const; eexists _, _; vm_compute; reflexivity.

Lemma pos_const_1 : pos_const 1. Proof. pos_const_tac. Qed.
Lemma pos_const_5 : pos_const 5. Proof. pos_const_tac. Qed.
Lemma pos_const_10 : pos_const 10. Proof. pos_const_tac. Qed.
Lemma pos_const_20 : pos_const 20. Proof. pos_const_tac. Qed.
Lemma pos_const_25 : pos_const 25. Proof. pos_const_tac. Qed.
Lemma pos_const_40 : pos_const 40. Proof. pos_const_tac. Qed.
Lemma pos_const_60 : pos_const 60. Proof. pos_const_tac. Qed.
Lemma pos_const_100 : pos_const 100. Proof. pos_const_tac. Qed.

Create HintDb pyfloat.
#[global] Hint Resolve pos_const_1 pos_const_5 pos_const_10 pos_const_20 pos_const_25
  pos_const_40 pos_const_60 pos_const_100 : pyfloat.

Lemma sf_nonneg_iff (y : spec_float) :
  sf_nonneg y <-> sf_is_zero y \/ sf_sign y = Some false.
Proof. destruct y as [[] | [] | | [] m e]; cbn; intuition congruence. Qed.

Lemma sf_no_minus_iff (y : spec_float) :
  sf_no_minus y <-> sf_sign y <> Some true.
Proof. destruct y as [[] | [] | | [] m e]; cbn; intuition congruence. Qed.

Lemma pos_const_nonneg (c : float) : pos_const c -> sf_nonneg (Prim2SF c).
Proof. intros (m & e & ->). exact I. Qed.

Lemma pos_const_no_minus (c : float) : pos_const c -> sf_no_minus (Prim2SF c).
Proof. intros (m & e & ->). exact I. Qed.

(** *** Non-negative values stay non-negative *)

Lemma div_nonneg (c x : float) :
  pos_const c -> sf_nonneg (Prim2SF x) -> sf_nonneg (Prim2SF (x / c)).
Proof.
  intros Hc Hx. apply sf_nonneg_iff in Hx. apply sf_nonneg_iff. destruct Hx as [Hx | Hx].
  - left. now apply div_pos_const_zero.
  - right. now rewrite div_pos_const_sign.
Qed.

Lemma mul_nonneg (c x : float) :
  pos_const c -> sf_nonneg (Prim2SF x) -> sf_nonneg (Prim2SF (x * c)).
Proof.
  intros Hc Hx. apply sf_nonneg_iff in Hx. apply sf_nonneg_iff. destruct Hx as [Hx | Hx].
  - left. now apply mul_pos_const_zero.
  - right. now rewrite mul_pos_const_sign.
Qed.

Lemma py_min_nonneg (c x : float) :
  pos_const c -> sf_nonneg (Prim2SF x) -> sf_nonneg (Prim2SF (py_min x c)).
Proof.
  intros Hc Hx. unfold py_min. destruct (c <? x); [now apply pos_const_nonneg | exact Hx].
Qed.

Lemma term_nonneg (cap w x : float) :
  pos_const cap -> pos_const w -> sf_nonneg (Prim2SF x) ->
  sf_nonneg (Prim2SF (py_min (x / cap) 1 * w)).
Proof.
  intros Hcap Hw Hx.
  apply mul_nonneg, py_min_nonneg, div_nonneg; auto with pyfloat.
Qed.

Lemma baseline_nonneg (c h : float) :
  pos_const c -> sf_nonneg (Prim2SF h) -> sf_nonneg (Prim2SF (py_max (h - c) 0)).
Proof.
  intros Hc Hh. unfold py_max.
  destruct (h - c <? 0) eqn:Hlt; [exact I |].
  assert (Hn : ~ sf_neg (Prim2SF (h - c))).
  { intros H. apply ltb_zero_neg in H. congruence. }
  pose proof (sub_pos_const_cases c h Hc) as H.
  destruct (Prim2SF h) as [s | [] | | [] m e]; cbn in Hh; try tauto.
  - rewrite H. exact I.
  - destruct H as [-> | H]; [exact I |].
    destruct (Prim2SF (h - c)) as [s | [] | | [] m' e']; cbn in *; tauto.
Qed.

(** *** Values that are not negative and not [-0.0] stay so *)

Lemma div_no_minus (c x : float) :
  pos_const c -> sf_no_minus (Prim2SF x) -> sf_no_minus (Prim2SF (x / c)).
Proof. intros Hc. rewrite !sf_no_minus_iff. now rewrite div_pos_const_sign. Qed.

Lemma mul_no_minus (c x : float) :
  pos_const c -> sf_no_minus (Prim2SF x) -> sf_no_minus (Prim2SF (x * c)).
Proof. intros Hc. rewrite !sf_no_minus_iff. now rewrite mul_pos_const_sign. Qed.

Lemma py_min_no_minus (c x : float) :
  pos_const c -> sf_no_minus (Prim2SF x) -> sf_no_minus (Prim2SF (py_min x c)).
Proof.
  intros Hc Hx. unfold py_min. destruct (c <? x); [now apply pos_const_no_minus | exact Hx].
Qed.

Lemma baseline_no_minus (c h : float) :
  pos_const c -> sf_no_minus (Prim2SF (py_max (h - c) 0)).
Proof.
  intros Hc. unfold py_max.
  destruct (h - c <? 0) eqn:Hlt; [exact I |].
  assert (Hn : ~ sf_neg (Prim2SF (h - c))).
  { intros H. apply ltb_zero_neg in H. congruence. }
  pose proof (sub_pos_const_no_neg_zero c h Hc) as Hz.
  destruct (Prim2SF (h - c)) as [[] | [] | | [] m' e']; cbn in *; congruence || tauto.
Qed.

Lemma humidity_term_no_minus (h : float) :
  sf_no_minus (Prim2SF (py_min (py_max (h - 60) 0 / 40) 1 * 20)).
Proof.
  apply mul_no_minus, py_min_no_minus, div_no_minus, baseline_no_minus; auto with pyfloat.
Qed.

(** *** The accumulator's initial [0.0] *)

Lemma add_zero_absorb (a b c : float) :
  sf_no_minus (Prim2SF c) -> 0 + a + b + c = a + b + c.
Proof.
  intros Hc. apply Prim2SF_inj. rewrite !add_spec, zero_SF.
  destruct (Prim2SF a) as [[] | [] | | sa ma ea],
           (Prim2SF b) as [[] | [] | | sb mb eb],
           (Prim2SF c) as [[] | [] | | sc mc ec];
    cbn [SF64add SFadd sf_no_minus] in *; try reflexivity; try contradiction.
Qed.

Lemma tenths_table : forallb tenths_in_range (map Z.of_nat (seq 0 1001)) = true.
Proof. vm_compute. reflexivity. Qed.

Lemma tenths_ok (k : Z) : (0 <= k <= 1000)%Z -> tenths_in_range k = true.
Proof.
  intros Hk. pose proof tenths_table as H. rewrite forallb_forall in H. apply H.
  rewrite <- (Z2Nat.id k) by lia. apply in_map, in_seq. lia.
Qed.

(** [x <= 100] read on mantissa and exponent. *)
Lemma not_above_100 (x : float) (m : positive) (e : Z) :
  Prim2SF x = S754_finite false m e -> (100 <? x) = false ->
  (e < -46 \/ (e = -46 /\ Z.pos m <= 7036874417766400))%Z.
Proof.
  intros Hx Hlt. rewrite ltb_spec, Hx in Hlt.
  change (Prim2SF 100) with (S754_finite false 7036874417766400 (-46)) in Hlt.
  unfold SFltb, SFcompare in Hlt.
  destruct (Z.compare_spec (-46) e) as [He | He | He]; try discriminate; [| lia].
  right. split; [lia |].
  change (Pos.compare_cont Eq 7036874417766400 m) with (7036874417766400 ?= m)%positive in Hlt.
  destruct (Pos.compare_spec 7036874417766400 m) as [H | H | H]; try discriminate.
  - subst m. apply Z.le_refl.
  - apply Z.lt_le_incl. exact H.
Qed.

Lemma round_half_even_tenths_bounds (m : positive) (e : Z) :
  (Z.pos m < 2 ^ 53)%Z ->
  (e < -46 \/ (e = -46 /\ Z.pos m <= 7036874417766400))%Z ->
  (0 <= round_half_even_tenths m e <= 1000)%Z.
Proof.
  intros Hm He. unfold round_half_even_tenths.
  destruct e as [| p | p]; try lia.
  change (Z.pow_pos 2 p) with (2 ^ Z.pos p)%Z.
  set (d := (2 ^ Z.pos p)%Z). set (n := (10 * Z.pos m)%Z).
  assert (Hd : (0 < d)%Z) by (apply Z.pow_pos_nonneg; lia).
  pose proof (Z.div_mod n d ltac:(lia)) as Hdm.
  pose proof (Z.mod_pos_bound n d Hd) as Hr.
  assert (Hq0 : (0 <= n / d)%Z) by (apply Z.div_pos; lia).
  assert (Hq : (n / d < 1000 \/ (n / d = 1000 /\ n mod d = 0))%Z).
  { destruct He as [He | [He Hm']].
    - left. apply Z.div_lt_upper_bound; [lia |].
      assert (Hd' : (2 ^ 47 <= d)%Z) by (apply Z.pow_le_mono_r; lia).
      change (2 ^ 53)%Z with (64 * 2 ^ 47)%Z in Hm. nia.
    - assert (Hd' : d = (2 ^ 46)%Z) by (unfold d; f_equal; lia).
      assert (Hn : (n <= 1000 * d)%Z) by (rewrite Hd'; unfold n; lia).
      assert (Hle : (n / d <= 1000)%Z).
      { apply Z.div_le_upper_bound; lia. }
      destruct (Z.eq_dec (n / d) 1000) as [Heq | Hne]; [right; split; [exact Heq | nia] | left; lia]. }
  destruct (2 * (n mod d) ?= d)%Z eqn:Hc; try destruct (Z.even (n / d)); try lia;
    destruct Hq as [Hq | [Hq Hz]]; try lia;
    rewrite Hz in Hc; (apply Z.compare_eq in Hc || apply Z.compare_gt_iff in Hc); lia.
Qed.

(** Rounding to one decimal keeps a value of [[0, 100]] in [[0, 100]]. *)
Lemma py_round1_bounds (x : float) :
  sf_nonneg (Prim2SF x) -> (100 <? x) = false ->
  (0 <=? py_round1 x) = true /\ (py_round1 x <=? 100) = true.
Proof.
  intros Hx Hlt. unfold py_round1.
  destruct (Prim2SF x) as [s | [] | | [] m e] eqn:Ex; cbn in Hx; try tauto.
  - split; [apply leb_zero_nonneg; rewrite Ex; exact I |].
    rewrite leb_spec, Ex. reflexivity.
  - rewrite ltb_spec, Ex in Hlt. discriminate.
  - pose proof (valid_finite x _ _ _ Ex) as [Hm _].
    pose proof (not_above_100 x m e Ex Hlt) as He.
    pose proof (round_half_even_tenths_bounds m e Hm He) as Hk.
    pose proof (tenths_ok _ Hk) as Ht. unfold tenths_in_range in Ht.
    now apply andb_true_iff in Ht.
Qed.

(** *** Comparisons with the band limits *)

Lemma below_not_ge (c x : float) : (x <? c) = true -> (c <=? x) = false.
Proof.
  rewrite ltb_spec, leb_spec. unfold SFltb, SFleb.
  destruct (Prim2SF x) as [[] | [] | | [] mx ex], (Prim2SF c) as [[] | [] | | [] mc ec];
    cbn [SFcompare]; try discriminate; try reflexivity;
    rewrite (Z.compare_antisym ex ec);
    destruct (ex ?= ec)%Z; cbn [CompOpp]; try discriminate; try reflexivity;
    change (Pos.compare_cont Eq mx mc) with (mx ?= mc)%positive;
    change (Pos.compare_cont Eq mc mx) with (mc ?= mx)%positive;
    rewrite (Pos.compare_antisym mx mc);
    destruct (mx ?= mc)%positive; cbn; try discriminate; reflexivity.
Qed.

Lemma below_35_not_ge_65 (x : float) : (x <? 35) = true -> (65 <=? x) = false.
Proof.
  rewrite ltb_spec, leb_spec.
  change (Prim2SF 35) with (S754_finite false 4925812092436480 (-47)).
  change (Prim2SF 65) with (S754_finite false 4573968371548160 (-46)).
  unfold SFltb, SFleb.
  destruct (Prim2SF x) as [[] | [] | | [] mx ex]; cbn [SFcompare]; try discriminate; try reflexivity.
  destruct (Z.compare_spec ex (-47)), (Z.compare_spec (-46) ex); try discriminate; try reflexivity; lia.
Qed.

(** ** Floats as SQLite gives them back *)

Lemma is_nan_SF (x : float) : is_nan x = true <-> Prim2SF x = S754_nan.
Proof.
  unfold is_nan. rewrite negb_true_iff, eqb_spec. unfold SFeqb.
  destruct (Prim2SF x) as [[] | [] | | [] m e]; cbn [SFcompare];
    rewrite ?Z.compare_refl; try change (Pos.compare_cont Eq m m) with (m ?= m)%positive;
    rewrite ?Pos.compare_refl; cbn; intuition congruence.
Qed.

Lemma leb_not_nan (c x : float) : (c <=? x) = true -> is_nan x = false.
Proof.
  intros H. destruct (is_nan x) eqn:E; [| reflexivity].
  apply is_nan_SF in E. rewrite leb_spec, E in H. unfold SFleb in H.
  destruct (Prim2SF c); discriminate H.
Qed.

(** A zero of either sign comes back as [+0.0]; any other value as it is. *)
Lemma sqlite_number_SF (x : float) :
  Prim2SF (sqlite_number x) =
  match Prim2SF x with
  | S754_zero _ => S754_zero false
  | y => y
  end.
Proof.
  unfold sqlite_number, is_zero. rewrite eqb_spec.
  change (Prim2SF zero) with (S754_zero false). unfold SFeqb.
  destruct (Prim2SF x) as [s | [] | | [] m e] eqn:E; cbn [SFcompare]; rewrite ?E;
    try reflexivity.
Qed.

(** The stored number is the same number: every comparison agrees. *)
Lemma sqlite_number_eqb (x : float) :
  is_nan x = false -> (sqlite_number x =? x) = true.
Proof.
  intros Hn. rewrite eqb_spec, sqlite_number_SF. unfold SFeqb.
  destruct (Prim2SF x) as [s | [] | | [] m e] eqn:E; cbn [SFcompare];
    rewrite ?Z.compare_refl; try change (Pos.compare_cont Eq m m) with (m ?= m)%positive;
    rewrite ?Pos.compare_refl; try reflexivity.
  apply is_nan_SF in E. congruence.
Qed.

Lemma sqlite_number_leb_l (c x : float) : (c <=? sqlite_number x) = (c <=? x).
Proof.
  rewrite !leb_spec, sqlite_number_SF. unfold SFleb.
  destruct (Prim2SF x) as [s | s | | s m e], (Prim2SF c) as [s' | s' | | s' m' e'];
    reflexivity.
Qed.

Lemma sqlite_number_leb_r (c x : float) : (sqlite_number x <=? c) = (x <=? c).
Proof.
  rewrite !leb_spec, sqlite_number_SF. unfold SFleb.
  destruct (Prim2SF x) as [s | s | | s m e], (Prim2SF c) as [s' | s' | | s' m' e'];
    reflexivity.
Qed.

Lemma sqlite_number_fixed (x : float) :
  Prim2SF x <> S754_zero true -> sqlite_number x = x.
Proof.
  intros H. apply Prim2SF_inj. rewrite sqlite_number_SF.
  destruct (Prim2SF x) as [[] | s | | s m e]; congruence.
Qed.

Lemma sqlite_real_number (x : float) :
  is_nan x = false -> sqlite_real x = Some (sqlite_number x).
Proof. intros H. unfold sqlite_real, sqlite_number. now rewrite H. Qed.

Lemma sqlite_real_nan (x : float) : is_nan x = true -> sqlite_real x = None.
Proof. intros H. unfold sqlite_real. now rewrite H. Qed.

(* ===================================================================== *)
(** * The flood risk engine                                              *)
(* ===================================================================== *)

Lemma score_calculate (r1 r3 h w c : float) :
  score (calculate_flood_probability r1 r3 h w c) = py_round1 (py_min (raw_score r1 r3 h w c) 100).
Proof.
  unfold calculate_flood_probability.
  destruct (risk_band _) as [l col]. reflexivity.
Qed.

Lemma band_calculate (r1 r3 h w c : float) :
  (level (calculate_flood_probability r1 r3 h w c),
   color (calculate_flood_probability r1 r3 h w c))
  = risk_band (score (calculate_flood_probability r1 r3 h w c)).
Proof.
  unfold calculate_flood_probability.
  destruct (risk_band _) as [l col] eqn:E. cbn [level color score]. now rewrite E.
Qed.

Lemma raw_score_spec_sum (r1 r3 h w c : float) :
  raw_score r1 r3 h w c =
    40 * py_min (r1 / 20) 1
    + 25 * py_min (r3 / 40) 1
    + 20 * py_min (py_max (h - 60) 0 / 40) 1
    + 10 * py_min (w / 25) 1
    + 5 * py_min (c / 100) 1.
Proof.
  unfold raw_score.
  rewrite (add_zero_absorb _ _ _ (humidity_term_no_minus h)).
  now rewrite !(mul_comm (py_min _ 1)).
Qed.

(** C2.  For every five inputs, the score that [calculate_flood_probability]
    returns is the specification's formula: the weighted sum of the five
    capped factors, clamped at 100 and rounded to one decimal.  Rain of 20
    in the hour alone scores exactly 40.0, and rain of 40 scores the same
    40.0, not 80. *)
Theorem score_follows_weighted_formula (r1 r3 h w c : float) :
  score (calculate_flood_probability r1 r3 h w c) = spec_score r1 r3 h w c
  /\ score (calculate_flood_probability 20 0 0 0 0) = 40
  /\ score (calculate_flood_probability 40 0 0 0 0) = 40.
Proof.
  split; [| split; vm_compute; reflexivity].
  rewrite score_calculate, raw_score_spec_sum. reflexivity.
Qed.

Lemma raw_score_nonneg (r1 r3 h w c : float) :
  valid_observation r1 r3 h w c -> sf_nonneg (Prim2SF (raw_score r1 r3 h w c)).
Proof.
  intros (H1 & H3 & Hh & Hw & Hc).
  apply leb_zero_nonneg in H1, H3, Hh, Hw, Hc.
  unfold raw_score.
  repeat apply add_nonneg; try (apply term_nonneg; auto with pyfloat).
  - rewrite zero_SF. exact I.
  - apply baseline_nonneg; auto with pyfloat.
Qed.

Lemma py_min_100 (x : float) :
  sf_nonneg (Prim2SF x) ->
  sf_nonneg (Prim2SF (py_min x 100)) /\ (100 <? py_min x 100) = false.
Proof.
  intros Hx. unfold py_min. destruct (100 <? x) eqn:E.
  - split; [apply pos_const_nonneg; auto with pyfloat | reflexivity].
  - split; assumption.
Qed.

(** C4.  For every observation whose five factors are non-negative, the
    returned score lies between 0 and 100, and equal inputs give an equal
    [FloodRisk] (score, level and colour). *)
Theorem score_bounded_and_deterministic (r1 r3 h w c : float) :
  valid_observation r1 r3 h w c ->
  (0 <=? score (calculate_flood_probability r1 r3 h w c)) = true
  /\ (score (calculate_flood_probability r1 r3 h w c) <=? 100) = true
  /\ (forall r1' r3' h' w' c',
        r1' = r1 -> r3' = r3 -> h' = h -> w' = w -> c' = c ->
        calculate_flood_probability r1' r3' h' w' c' = calculate_flood_probability r1 r3 h w c).
Proof.
  intros Hv. rewrite score_calculate.
  pose proof (py_min_100 _ (raw_score_nonneg _ _ _ _ _ Hv)) as [Hn Hle].
  pose proof (py_round1_bounds _ Hn Hle) as [Hlo Hhi].
  repeat split; auto. intros; subst; reflexivity.
Qed.

Lemma score_bounded_and_deterministic_witness :
  valid_observation 12.5 30 85 7 90
  /\ (0 <=? score (calculate_flood_probability 12.5 30 85 7 90)) = true
  /\ (score (calculate_flood_probability 12.5 30 85 7 90) <=? 100) = true.
Proof.
  assert (Hv : valid_observation 12.5 30 85 7 90) by (repeat split; reflexivity).
  split; [exact Hv |].
  destruct (score_bounded_and_deterministic 12.5 30 85 7 90 Hv) as (H1 & H2 & _). split; assumption.
Defined.

(** C5.  The level follows the score with inclusive lower bounds: a score
    of at least 65 is HIGH, a score from 35 up to but below 65 is MEDIUM, a
    score below 35 is LOW; the colour is a fixed function of the level
    (HIGH red [#ef4444], MEDIUM amber [#f59e0b], LOW green [#22c55e]).  So
    65.0 is HIGH, 64.9 MEDIUM, 35.0 MEDIUM and 34.9 LOW, and rain of 25 with
    humidity 60 scores 40.0, MEDIUM. *)
Theorem level_bands_inclusive_lower (r1 r3 h w c : float) :
  let r := calculate_flood_probability r1 r3 h w c in
  ((65 <=? score r) = true -> level r = HIGH)
  /\ ((35 <=? score r) = true -> (score r <? 65) = true -> level r = MEDIUM)
  /\ ((score r <? 35) = true -> level r = LOW)
  /\ color r = level_color (level r)
  /\ fst (risk_band 65) = HIGH /\ fst (risk_band 64.9) = MEDIUM
  /\ fst (risk_band 35) = MEDIUM /\ fst (risk_band 34.9) = LOW
  /\ calculate_flood_probability 20 40 0 0 0 = mkFloodRisk 65 HIGH "#ef4444"
  /\ calculate_flood_probability 20 39.84 0 0 0 = mkFloodRisk 64.9 MEDIUM "#f59e0b"
  /\ calculate_flood_probability 17.5 0 0 0 0 = mkFloodRisk 35 MEDIUM "#f59e0b"
  /\ calculate_flood_probability 17.45 0 0 0 0 = mkFloodRisk 34.9 LOW "#22c55e"
  /\ calculate_flood_probability 25 0 60 0 0 = mkFloodRisk 40 MEDIUM "#f59e0b".
Proof.
  intros r. pose proof (band_calculate r1 r3 h w c) as Hb. fold r in Hb.
  unfold risk_band, py_ge in Hb.
  split; [| split; [| split; [| split]]].
  - intros H. rewrite H in Hb. congruence.
  - intros H1 H2. apply below_not_ge in H2. rewrite H2, H1 in Hb. congruence.
  - intros H. pose proof (below_not_ge _ _ H) as H1. pose proof (below_35_not_ge_65 _ H) as H2.
    rewrite H1, H2 in Hb. congruence.
  - destruct (65 <=? score r); [| destruct (35 <=? score r)];
      inversion Hb as [[Hl Hc]]; rewrite Hl, Hc; reflexivity.
  - clear. repeat (split; [vm_compute; reflexivity |]). vm_compute; reflexivity.
Qed.

Lemma level_bands_inclusive_lower_witness :
  (65 <=? score (calculate_flood_probability 20 40 50 3 10)) = true
  /\ level (calculate_flood_probability 20 40 50 3 10) = HIGH
  /\ (score (calculate_flood_probability 2 1 50 3 10) <? 35) = true
  /\ level (calculate_flood_probability 2 1 50 3 10) = LOW.
Proof.
  assert (H1 : (65 <=? score (calculate_flood_probability 20 40 50 3 10)) = true)
    by (vm_compute; reflexivity).
  assert (H2 : (score (calculate_flood_probability 2 1 50 3 10) <? 35) = true)
    by (vm_compute; reflexivity).
  split; [exact H1 | split; [| split; [exact H2 |]]].
  - exact (proj1 (level_bands_inclusive_lower 20 40 50 3 10) H1).
  - exact (proj1 (proj2 (proj2 (level_bands_inclusive_lower 2 1 50 3 10))) H2).
Defined.

Lemma neg_baseline (c h : float) :
  pos_const c -> (h <? 0) = true -> py_max (h - c) 0 = 0.
Proof.
  intros Hc Hh. apply ltb_zero_neg in Hh. unfold py_max.
  pose proof (sub_pos_const_cases c h Hc) as H.
  assert (Hd : sf_neg (Prim2SF (h - c))).
  { destruct (Prim2SF h) as [s | [] | | [] m e]; cbn in Hh; try tauto. now rewrite H. }
  apply ltb_zero_neg in Hd. now rewrite Hd.
Qed.

Lemma neg_term (cap w x : float) :
  pos_const cap -> pos_const w -> (x <? 0) = true ->
  py_min (x / cap) 1 * w = x / cap * w /\ (x / cap * w <=? 0) = true.
Proof.
  intros Hcap Hw Hx. apply ltb_zero_neg in Hx.
  assert (Hs : sf_sign (Prim2SF x) = Some true)
    by (destruct (Prim2SF x) as [s | [] | | [] m e]; cbn in Hx; tauto || reflexivity).
  assert (Hq : sf_sign (Prim2SF (x / cap)) = Some true) by now rewrite div_pos_const_sign.
  assert (Hp : sf_sign (Prim2SF (x / cap * w)) = Some true) by now rewrite mul_pos_const_sign.
  split.
  - unfold py_min. replace (1 <? x / cap) with false; [reflexivity |].
    rewrite ltb_spec. change (Prim2SF 1) with (S754_finite false 4503599627370496 (-52)).
    destruct (Prim2SF (x / cap)) as [[] | [] | | [] m e]; cbn in Hq; try discriminate; reflexivity.
  - rewrite leb_spec, zero_SF.
    destruct (Prim2SF (x / cap * w)) as [[] | [] | | [] m e]; cbn in Hp; try discriminate; reflexivity.
Qed.

(** C3, counterexample.  Rain of -5 does not score like rain of 0. *)
Lemma negative_rain_lowers_the_score :
  calculate_flood_probability (-5) 0 0 0 0 <> calculate_flood_probability 0 0 0 0 0.
Proof.
  intros H. apply (f_equal (fun r => score r <? 0)) in H. vm_compute in H. discriminate.
Qed.

(** C3, amended.  Only humidity has a lower clamp: replacing a negative
    humidity by 0 leaves the returned [FloodRisk] unchanged.  The other four
    factors are capped from above only: a negative value [x] passes the cap
    unchanged and adds [x / cap * weight], which is at most 0; rain of -5
    alone gives the score -10.0. *)
Theorem negative_humidity_is_clamped_other_factors_are_not (r1 r3 w c x : float) :
  (x <? 0) = true ->
  calculate_flood_probability r1 r3 x w c = calculate_flood_probability r1 r3 0 w c
  /\ (py_min (x / 20) 1 * 40 = x / 20 * 40 /\ (x / 20 * 40 <=? 0) = true)
  /\ (py_min (x / 40) 1 * 25 = x / 40 * 25 /\ (x / 40 * 25 <=? 0) = true)
  /\ (py_min (x / 25) 1 * 10 = x / 25 * 10 /\ (x / 25 * 10 <=? 0) = true)
  /\ (py_min (x / 100) 1 * 5 = x / 100 * 5 /\ (x / 100 * 5 <=? 0) = true)
  /\ calculate_flood_probability (-5) 0 0 0 0 = mkFloodRisk (-10) LOW "#22c55e".
Proof.
  intros Hx. split; [| repeat (split; [apply neg_term; auto with pyfloat |])].
  - unfold calculate_flood_probability, raw_score.
    rewrite (neg_baseline 60 x) by auto with pyfloat.
    replace (py_max (0 - 60) 0) with 0 by (vm_compute; reflexivity). reflexivity.
  - vm_compute. reflexivity.
Qed.

Lemma negative_humidity_is_clamped_other_factors_are_not_witness :
  ((-3) <? 0) = true /\
  calculate_flood_probability 1 2 (-3) 4 5 = calculate_flood_probability 1 2 0 4 5.
Proof.
  split; [reflexivity |]. apply (negative_humidity_is_clamped_other_factors_are_not 1 2 4 5 (-3)). reflexivity.
Defined.

Close Scope float_scope.

(* ===================================================================== *)
(** * Sessions, alerts and requests                                      *)
(* ===================================================================== *)

Ltac unfold_monad :=
  unfold api_route, admin_route, db_refresh, db_query, db_commit, persistence_call,
    read_session, write_session, utcnow, lift, bind, ret, raise in *.

(** ** Firing alerts *)

Lemma trigger_id (a : Alert) (t : Time) : alert_id (trigger a t) = alert_id a.
Proof. reflexivity. Qed.

Lemma bind_ok {A B} (m : M A) (k : A -> M B) (w w' : World) (a : A) :
  m w = (Ok a, w') -> bind m k w = k a w'.
Proof. intros H. unfold bind. now rewrite H. Qed.

Lemma bind_raise {A B} (m : M A) (k : A -> M B) (w w' : World) (e : Exn) :
  m w = (Raise e, w') -> bind m k w = (Raise e, w').
Proof. intros H. unfold bind. now rewrite H. Qed.

Lemma trigger_alert_run (a : Alert) (dur ses : Database) (u : nat -> Time)
    (rd : nat) (flt : option nat) :
  trigger_alert a (mkWorld dur ses u rd flt) =
  (Ok (trigger a (u rd)),
   mkWorld dur (set_alerts (map (fun x =>
             if alert_id x =? alert_id a then trigger x (u rd) else x)) ses)
           u (S rd) flt).
Proof. reflexivity. Qed.

Lemma for_each_trigger (sel : list Alert) : forall (dur ses : Database) (u : nat -> Time)
    (rd : nat) (flt : option nat),
  exists out,
    for_each trigger_alert sel (mkWorld dur ses u rd flt) =
    (Ok out,
     mkWorld dur (set_alerts (fun _ => apply_triggers u rd sel (alerts ses)) ses)
             u (rd + List.length sel) flt).
Proof.
  induction sel as [| a r IH]; intros dur ses u rd flt; cbn [for_each].
  - exists []. unfold ret. rewrite Nat.add_0_r. destruct ses; reflexivity.
  - destruct (IH dur (set_alerts (map (fun x =>
                if alert_id x =? alert_id a then trigger x (u rd) else x)) ses)
                u (S rd) flt) as [out Hout].
    exists (trigger a (u rd) :: out).
    rewrite (bind_ok _ _ _ _ _ (trigger_alert_run a dur ses u rd flt)).
    rewrite (bind_ok _ _ _ _ _ Hout). unfold ret.
    f_equal. f_equal; (destruct ses; reflexivity) || (cbn [List.length]; lia).
Qed.

Lemma map_update_fresh (a : Alert) (f : Alert -> Alert) (xs : list Alert) :
  ~ In (alert_id a) (map alert_id xs) ->
  map (fun x => if alert_id x =? alert_id a then f x else x) xs = xs.
Proof.
  induction xs as [| x r IH]; cbn; intros Hn; [reflexivity |].
  destruct (Z.eqb_spec (alert_id x) (alert_id a)) as [E | E]; [tauto |].
  f_equal. apply IH. tauto.
Qed.

Lemma apply_triggers_app (q : Alert -> bool) (u : nat -> Time) (t2 : list Alert) :
  forall (k : nat) (t1 : list Alert),
  NoDup (map alert_id (t1 ++ t2)) ->
  apply_triggers u k (filter q t2) (t1 ++ t2) = t1 ++ fire_result q u k t2.
Proof.
  induction t2 as [| a r IH]; intros k t1 Hnd; cbn [filter fire_result apply_triggers].
  - reflexivity.
  - rewrite map_app in Hnd. cbn [map] in Hnd.
    pose proof (NoDup_remove_2 _ _ _ Hnd) as Hfresh.
    rewrite in_app_iff in Hfresh.
    destruct (q a) eqn:Hq; cbn [apply_triggers].
    + rewrite map_app. cbn [map]. rewrite Z.eqb_refl.
      rewrite !map_update_fresh by tauto.
      change (t1 ++ trigger a (u k) :: r) with (t1 ++ [trigger a (u k)] ++ r).
      rewrite app_assoc, IH.
      * rewrite <- app_assoc. reflexivity.
      * rewrite <- app_assoc, map_app. cbn [map app]. exact Hnd.
    + change (t1 ++ a :: r) with (t1 ++ [a] ++ r).
      rewrite app_assoc, IH.
      * rewrite <- app_assoc. reflexivity.
      * rewrite <- app_assoc, map_app. cbn [map app]. exact Hnd.
Qed.

Lemma apply_triggers_filter (q : Alert -> bool) (u : nat -> Time) (k : nat) (tbl : list Alert) :
  NoDup (map alert_id tbl) ->
  apply_triggers u k (filter q tbl) tbl = fire_result q u k tbl.
Proof. intros H. exact (apply_triggers_app q u tbl k [] H). Qed.

Lemma fire_result_ids (q : Alert -> bool) (u : nat -> Time) (xs : list Alert) : forall k,
  map alert_id (fire_result q u k xs) = map alert_id xs.
Proof.
  induction xs as [| a r IH]; intros k; cbn; [reflexivity |].
  destruct (q a); cbn; now rewrite IH.
Qed.

Lemma fire_result_length (q : Alert -> bool) (u : nat -> Time) (xs : list Alert) : forall k,
  List.length (fire_result q u k xs) = List.length xs.
Proof.
  induction xs as [| a r IH]; intros k; cbn; [reflexivity |].
  destruct (q a); cbn; now rewrite IH.
Qed.

Lemma fire_result_once (q : Alert -> bool) (u : nat -> Time) (xs : list Alert) : forall k,
  Forall2 (evaluated_once q u k (k + List.length (filter q xs)))
          xs (fire_result q u k xs).
Proof.
  induction xs as [| a r IH]; intros k; cbn [fire_result filter]; [constructor |].
  destruct (q a) eqn:Hq; cbn [List.length]; constructor.
  - unfold evaluated_once. rewrite Hq. exists k. repeat split; lia.
  - eapply Forall2_impl; [| exact (IH (S k))].
    intros x y. unfold evaluated_once. destruct (q x); [| tauto].
    intros (j & Hj & H). exists j. split; [lia | exact H].
  - unfold evaluated_once. now rewrite Hq.
  - exact (IH k).
Qed.

Ltac run_world :=
  unfold db_close;
  cbn [durable session utc reads fault fst snd
       cities weather_logs search_history alerts api_keys
       set_cities set_weather_logs set_search_history set_alerts set_api_keys db_close].

Lemma bind_ret {A B} (a : A) (k : A -> M B) : bind (ret a) k = k a.
Proof. reflexivity. Qed.

Lemma bind_lift_ok {A B} (a : A) (k : A -> M B) : bind (lift (Ok a)) k = k a.
Proof. reflexivity. Qed.

Lemma get_weather_save_run (cfg : Config) (d : OwmData) (w0 : WeatherItem) (city : Z)
    (db ses : Database) (u : nat -> Time) (rd : nat) (flt : option nat) :
  str_falsy (OWM_API_KEY cfg) = false ->
  first_weather d = Ok w0 ->
  city <> 0 ->
  NoDup (map alert_id (alerts db)) ->
  let sc := score (flood_of d) in
  let db1 := logged city d w0 db (u rd) in
  let db2 := fired city sc u (S rd) db1 in
  let n := List.length (filter (qualifies city sc) (alerts db)) in
  request (get_weather cfg (ok_response d) true (Some city)) (mkWorld db ses u rd flt) =
  match flt with
  | Some 0%nat => (Raise OperationalError, mkWorld db db u rd None)
  | Some 1%nat => (Raise OperationalError, mkWorld db db u (S rd) None)
  | Some 2%nat => (Raise OperationalError, mkWorld db1 db1 u (S rd) None)
  | Some 3%nat => (Raise OperationalError, mkWorld db1 db1 u (S rd + n) None)
  | Some (S (S (S (S k)))) =>
      (weather_response d (flood_of d), mkWorld db2 db2 u (S rd + n) (Some k))
  | None => (weather_response d (flood_of d), mkWorld db2 db2 u (S rd + n) None)
  end.
Proof.
  intros Hkey Hw0 Hcity Hnd sc db1 db2 n.
  unfold request, get_weather, ok_response. rewrite Hkey. cbn [negb Z.eqb Pos.eqb resp_json].
  rewrite bind_ret.
  unfold truthy_id. destruct (Z.eqb_spec city 0) as [E | _]; [contradiction |].
  unfold _log_weather, db_add_weather_log. rewrite Hw0, bind_lift_ok.
  unfold db_query, db_commit, persistence_call, read_session, write_session, utcnow.
  assert (Hloop : forall f,
    for_each trigger_alert (filter (qualifies city sc) (alerts db)) (mkWorld db1 db1 u (S rd) f)
    = (fst (for_each trigger_alert (filter (qualifies city sc) (alerts db))
              (mkWorld db1 db1 u (S rd) f)),
       mkWorld db1 db2 u (S rd + n) f)).
  { intros f. destruct (for_each_trigger (filter (qualifies city sc) (alerts db))
                          db1 db1 u (S rd) f) as [out Hout].
    rewrite Hout. cbn [fst]. f_equal. f_equal.
    unfold db2, fired, db1, logged, set_alerts, set_weather_logs. cbn [alerts cities weather_logs search_history api_keys].
    now rewrite (apply_triggers_filter _ _ _ _ Hnd). }
  assert (Hfst : forall f, exists out,
    fst (for_each trigger_alert (filter (qualifies city sc) (alerts db))
           (mkWorld db1 db1 u (S rd) f)) = Ok out).
  { intros f. destruct (for_each_trigger (filter (qualifies city sc) (alerts db))
                          db1 db1 u (S rd) f) as [out Hout]. exists out. now rewrite Hout. }
  change (fun a : Alert => (alert_city_id a =? city) && alert_is_active a &&
            (alert_threshold a <=? score (flood_of d))%float) with (qualifies city sc).
  destruct flt as [[| [| [| [| k]]]] |];
    unfold bind, ret, lift; run_world; try reflexivity;
    change (set_weather_logs (fun ls => ls ++
              [new_weather_log (next_id (map log_id ls)) city (u rd) d w0 (flood_of d)]) db)
      with db1.
  all: match goal with
       | |- context [for_each _ _ (mkWorld _ _ _ _ ?f)] =>
           rewrite Hloop; destruct (Hfst f) as [out ->]; run_world; reflexivity
       end.
Qed.

Lemma for_each_check (flood : FloodRisk) (sel : list Alert) :
  forall (dur ses : Database) (u : nat -> Time) (rd : nat) (flt : option nat),
  exists out,
    for_each (check_one flood) sel (mkWorld dur ses u rd flt) =
    (Ok out,
     mkWorld dur
       (set_alerts (fun _ => apply_triggers u rd (filter (reaches (score flood)) sel) (alerts ses)) ses)
       u (rd + List.length (filter (reaches (score flood)) sel)) flt)
    /\ somes out = map (triggered_entry flood) (filter (reaches (score flood)) sel).
Proof.
  induction sel as [| a r IH]; intros dur ses u rd flt; cbn [for_each filter].
  - exists []. split; [| reflexivity]. unfold ret. cbn [List.length apply_triggers].
    rewrite Nat.add_0_r. destruct ses; reflexivity.
  - unfold check_one at 1.
    change (py_ge (score flood) (alert_threshold a)) with (reaches (score flood) a).
    destruct (reaches (score flood) a) eqn:Hq.
    + destruct (IH dur (set_alerts (map (fun x =>
                  if alert_id x =? alert_id a then trigger x (u rd) else x)) ses)
                  u (S rd) flt) as (out & Hout & Hs).
      exists (Some (triggered_entry flood a) :: out). split.
      * rewrite (bind_ok _ _ (mkWorld dur ses u rd flt)
                   (mkWorld dur (set_alerts (map (fun x =>
                       if alert_id x =? alert_id a then trigger x (u rd) else x)) ses)
                       u (S rd) flt) (Some (triggered_entry flood a))) by reflexivity.
        rewrite (bind_ok _ _ _ _ _ Hout). unfold ret. cbn [apply_triggers List.length].
        f_equal. f_equal; (destruct ses; reflexivity) || lia.
      * cbn [somes map]. now rewrite Hs.
    + destruct (IH dur ses u rd flt) as (out & Hout & Hs).
      exists (None :: out). split.
      * rewrite bind_ret. rewrite (bind_ok _ _ _ _ _ Hout). reflexivity.
      * cbn [somes]. exact Hs.
Qed.

Lemma filter_filter {A} (p q : A -> bool) (xs : list A) :
  filter p (filter q xs) = filter (fun x => q x && p x) xs.
Proof.
  induction xs as [| x r IH]; cbn; [reflexivity |].
  destruct (q x); cbn; [destruct (p x) |]; now rewrite IH.
Qed.

Lemma qualifies_split (city : Z) (sc : float) (xs : list Alert) :
  filter (reaches sc) (filter (active_in city) xs) = filter (qualifies city sc) xs.
Proof. rewrite filter_filter. reflexivity. Qed.

Lemma apply_triggers_sub (q p : Alert -> bool) (u : nat -> Time) (k : nat) (tbl : list Alert) :
  NoDup (map alert_id tbl) ->
  apply_triggers u k (filter p (filter q tbl)) tbl = fire_result (fun a => q a && p a) u k tbl.
Proof. intros H. rewrite filter_filter. now apply apply_triggers_filter. Qed.

Lemma db_query_run {A} (q : Database -> A) (dur ses : Database) (u : nat -> Time) (rd : nat) :
  db_query q (mkWorld dur ses u rd None) = (Ok (q ses), mkWorld dur ses u rd None).
Proof. reflexivity. Qed.

Lemma db_commit_run (dur ses : Database) (u : nat -> Time) (rd : nat) :
  db_commit (mkWorld dur ses u rd None) = (Ok tt, mkWorld ses ses u rd None).
Proof. reflexivity. Qed.

Lemma persistence_call_run (dur ses : Database) (u : nat -> Time) (rd : nat) :
  persistence_call (mkWorld dur ses u rd None) = (Ok tt, mkWorld dur ses u rd None).
Proof. reflexivity. Qed.

Lemma check_alerts_run (cfg : Config) (d : OwmData) (city : Z) (c : City)
    (db ses : Database) (u : nat -> Time) (rd : nat) :
  str_falsy (OWM_API_KEY cfg) = false ->
  city_by_id city db = Some c ->
  NoDup (map alert_id (alerts db)) ->
  let flood := flood_of d in
  let db' := fired city (score flood) u rd db in
  let n := List.length (filter (qualifies city (score flood)) (alerts db)) in
  request (check_alerts cfg city (ok_response d)) (mkWorld db ses u rd None) =
  (Ok (mkCheckResult (city_name c) (score flood) (level flood)
         (map (triggered_entry flood) (filter (qualifies city (score flood)) (alerts db)))
         (List.length (filter (active_in city) (alerts db)))),
   mkWorld db' db' u (rd + n)%nat None).
Proof.
  intros Hkey Hc Hnd flood db' n.
  unfold request, check_alerts, ok_response. run_world.
  rewrite (bind_ok _ _ _ _ _ (db_query_run _ _ _ _ _)). rewrite Hc, Hkey.
  cbn [negb Z.eqb Pos.eqb resp_json]. rewrite bind_ret.
  rewrite (bind_ok _ _ _ _ _ (db_query_run _ _ _ _ _)).
  fold flood. change (fun a : Alert => (alert_city_id a =? city) && alert_is_active a)
    with (active_in city).
  destruct (for_each_check flood (filter (active_in city) (alerts db)) db db u rd None)
    as (out & Hout & Hs).
  rewrite (bind_ok _ _ _ _ _ Hout).
  rewrite (bind_ok _ _ _ _ _ (db_commit_run _ _ _ _)).
  unfold ret. run_world.
  rewrite (apply_triggers_sub (active_in city) (reaches (score flood)) u rd (alerts db) Hnd).
  rewrite Hs, !qualifies_split. reflexivity.
Qed.

Lemma evaluated_once_widen (q : Alert -> bool) (u : nat -> Time) (lo hi lo' hi' : nat)
    (xs ys : list Alert) :
  (lo' <= lo)%nat -> (hi <= hi')%nat ->
  Forall2 (evaluated_once q u lo hi) xs ys -> Forall2 (evaluated_once q u lo' hi') xs ys.
Proof.
  intros Hlo Hhi. apply Forall2_impl. intros a b. unfold evaluated_once.
  destruct (q a); [| tauto]. intros (k & Hk & H). exists k. split; [lia | exact H].
Qed.

Lemma check_alerts_fires (cfg : Config) (d : OwmData) (city : Z) (c : City) (w : World) :
  str_falsy (OWM_API_KEY cfg) = false ->
  healthy w ->
  city_by_id city (durable w) = Some c ->
  let w' := snd (request (check_alerts cfg city (ok_response d)) w) in
  Forall2 (evaluated_once (qualifies city (score (flood_of d))) (utc w) (reads w) (reads w'))
          (alerts (durable w)) (alerts (durable w')).
Proof.
  intros Hkey [Hf Hnd] Hc. destruct w as [db ses u rd flt]. cbn in Hf, Hnd, Hc. subst flt.
  cbv zeta. rewrite (check_alerts_run cfg d city c db ses u rd Hkey Hc Hnd).
  cbn [snd durable reads utc alerts fired set_alerts]. apply fire_result_once.
Qed.

Lemma get_weather_fires (cfg : Config) (d : OwmData) (city : Z) (w0 : WeatherItem) (w : World) :
  str_falsy (OWM_API_KEY cfg) = false ->
  healthy w ->
  first_weather d = Ok w0 -> city <> 0 ->
  let w' := snd (request (get_weather cfg (ok_response d) true (Some city)) w) in
  Forall2 (evaluated_once (qualifies city (score (flood_of d))) (utc w) (reads w) (reads w'))
          (alerts (durable w)) (alerts (durable w')).
Proof.
  intros Hkey [Hf Hnd] Hw0 Hcity. destruct w as [db ses u rd flt]. cbn in Hf, Hnd. subst flt.
  cbv zeta. rewrite (get_weather_save_run cfg d w0 city db ses u rd None Hkey Hw0 Hcity Hnd).
  cbn [snd durable reads utc alerts fired logged set_alerts set_weather_logs].
  eapply evaluated_once_widen; [| | apply fire_result_once]; lia.
Qed.

(** C6.  One evaluation of a city at a score, by [check_alerts] or by the
    [save_log] branch of [get_weather], fires exactly the alerts that belong
    to the city, are active and have a threshold at most the score: each of
    them has its trigger count raised by exactly 1 and its [last_triggered]
    set to a clock reading taken during the evaluation; every other alert is
    unchanged.  With two active alerts of thresholds 30 and 80 and a score of
    50, only the first fires. *)
Theorem alert_evaluation_fires_exactly_the_qualifying
    (cfg : Config) (d : OwmData) (city : Z) (w : World) :
  str_falsy (OWM_API_KEY cfg) = false ->
  healthy w ->
  let sc := score (flood_of d) in
  (forall c, city_by_id city (durable w) = Some c ->
     let w' := snd (request (check_alerts cfg city (ok_response d)) w) in
     Forall2 (evaluated_once (qualifies city sc) (utc w) (reads w) (reads w'))
             (alerts (durable w)) (alerts (durable w')))
  /\ (forall w0, first_weather d = Ok w0 -> city <> 0 ->
     let w' := snd (request (get_weather cfg (ok_response d) true (Some city)) w) in
     Forall2 (evaluated_once (qualifies city sc) (utc w) (reads w) (reads w'))
             (alerts (durable w)) (alerts (durable w')))
  /\ map alert_trigger_count
       (alerts (durable (snd (request (check_alerts demo_cfg 1 (ok_response demo_owm))
                                      (demo_world None))))) = [1; 0]
  /\ map alert_trigger_count
       (alerts (durable (snd (request (get_weather demo_cfg (ok_response demo_owm) true (Some 1))
                                      (demo_world None))))) = [1; 0].
Proof.
  intros Hkey Hw sc.
  split; [| split; [| split; vm_compute; reflexivity]].
  - intros c Hc. now apply (check_alerts_fires cfg d city c).
  - intros w0 Hw0 Hcity. now apply (get_weather_fires cfg d city w0).
Qed.

Lemma demo_world_healthy : healthy (demo_world None).
Proof.
  split; [reflexivity |]. cbn. repeat constructor; cbn; intuition discriminate.
Qed.

Lemma alert_evaluation_fires_exactly_the_qualifying_witness :
  Forall2 (evaluated_once (qualifies 1 (score (flood_of demo_owm)))
             (utc (demo_world None)) (reads (demo_world None))
             (reads (snd (request (check_alerts demo_cfg 1 (ok_response demo_owm))
                                  (demo_world None)))))
    (alerts (durable (demo_world None)))
    (alerts (durable (snd (request (check_alerts demo_cfg 1 (ok_response demo_owm))
                                   (demo_world None))))).
Proof.
  exact (proj1 (alert_evaluation_fires_exactly_the_qualifying demo_cfg demo_owm 1
                  (demo_world None) eq_refl demo_world_healthy) demo_city eq_refl).
Defined.

Lemma Forall2_compose {A} (R S T : A -> A -> Prop) (xs : list A) : forall ys zs,
  Forall2 R xs ys -> Forall2 S ys zs ->
  (forall a b c, R a b -> S b c -> T a c) -> Forall2 T xs zs.
Proof.
  induction xs as [| x r IH]; intros ys zs H1 H2 HT; inversion H1; subst;
    inversion H2; subst; constructor; eauto.
Qed.

Lemma Forall2_refl_on {A} (R : A -> A -> Prop) (xs : list A) :
  (forall a, R a a) -> Forall2 R xs xs.
Proof. intros H. induction xs; constructor; auto. Qed.

Lemma qualifies_trigger (city : Z) (sc : float) (a : Alert) (t : Time) :
  qualifies city sc (trigger a t) = qualifies city sc a.
Proof. reflexivity. Qed.

Lemma fire_none (u : nat -> Time) (k : nat) (xs : list Alert) :
  fire_result (fun _ => false) u k xs = xs.
Proof. induction xs as [| a r IH]; cbn; [reflexivity | now rewrite IH]. Qed.

(** Whatever the weather request returns, one [check_alerts] request on a
    healthy world fires some selection of the alerts and leaves the world
    healthy. *)
Lemma check_alerts_step (cfg : Config) (city : Z) (resp : Fetch OwmData) (w : World) :
  healthy w ->
  let w' := snd (request (check_alerts cfg city resp) w) in
  healthy w' /\ utc w' = utc w /\ cities (durable w') = cities (durable w) /\
  exists q lo hi,
    Forall2 (evaluated_once q (utc w) lo hi) (alerts (durable w)) (alerts (durable w')).
Proof.
  intros [Hf Hnd]. destruct w as [db ses u rd flt]. cbn in Hf, Hnd. subst flt.
  assert (Hsame : forall (e : Exn) (rd' : nat),
    let w' := mkWorld db db u rd' None in
    healthy w' /\ utc w' = u /\ cities (durable w') = cities db /\
    exists q lo hi, Forall2 (evaluated_once q u lo hi) (alerts db) (alerts (durable w'))).
  { intros e rd'. cbn. repeat split; auto. exists (fun _ => false), 0%nat, 0%nat.
    apply Forall2_refl_on. intros a. exact eq_refl. }
  destruct (city_by_id city db) as [c |] eqn:Hc.
  2: { unfold request, check_alerts. run_world.
       rewrite (bind_ok _ _ _ _ _ (db_query_run _ _ _ _ _)), Hc.
       exact (Hsame OperationalError rd). }
  destruct (str_falsy (OWM_API_KEY cfg)) eqn:Hkey.
  { unfold request, check_alerts. run_world.
    rewrite (bind_ok _ _ _ _ _ (db_query_run _ _ _ _ _)), Hc, Hkey.
    exact (Hsame OperationalError rd). }
  destruct resp as [msg | status [msg | d]].
  - unfold request, check_alerts. run_world.
    rewrite (bind_ok _ _ _ _ _ (db_query_run _ _ _ _ _)), Hc, Hkey.
    exact (Hsame OperationalError rd).
  - unfold request, check_alerts. run_world.
    rewrite (bind_ok _ _ _ _ _ (db_query_run _ _ _ _ _)), Hc, Hkey.
    destruct (negb (status =? 200)); exact (Hsame OperationalError rd).
  - destruct (Z.eqb_spec status 200) as [-> | Hne].
    + fold (ok_response d). cbv zeta.
      rewrite (check_alerts_run cfg d city c db ses u rd Hkey Hc Hnd).
      cbn [snd durable utc fault fired set_alerts cities alerts]. repeat split.
      * cbn. rewrite fire_result_ids. exact Hnd.
      * eexists _, _, _. apply fire_result_once.
    + unfold request, check_alerts. run_world.
      rewrite (bind_ok _ _ _ _ _ (db_query_run _ _ _ _ _)), Hc, Hkey.
      apply Z.eqb_neq in Hne. rewrite Hne. exact (Hsame OperationalError rd).
Qed.

Lemma evaluated_once_row (q : Alert -> bool) (u : nat -> Time) (lo hi : nat) (a a' : Alert) :
  evaluated_once q u lo hi a a' ->
  alert_id a' = alert_id a /\
  (forall city sc, qualifies city sc a' = qualifies city sc a) /\
  alert_trigger_count a <= alert_trigger_count a' /\
  (q a = true -> alert_trigger_count a' = alert_trigger_count a + 1).
Proof.
  unfold evaluated_once. destruct (q a).
  - intros (k & _ & -> & _). cbn. repeat split; auto; lia.
  - intros ->. repeat split; auto; try lia; discriminate.
Qed.

(** C7.  There is no debounce: when an alert qualifies at the score of each
    of N successive [check_alerts] evaluations, its trigger count grows by
    exactly N; and whatever the evaluations return, a trigger count never
    decreases. *)
Theorem repeated_evaluation_counts_every_call
    (cfg : Config) (city : Z) (c : City) (ds : list OwmData) (rs : list (Fetch OwmData))
    (w : World) :
  str_falsy (OWM_API_KEY cfg) = false ->
  healthy w ->
  city_by_id city (durable w) = Some c ->
  Forall2 (fun a a' =>
      alert_id a' = alert_id a /\
      ((forall d, In d ds -> qualifies city (score (flood_of d)) a = true) ->
       alert_trigger_count a' = alert_trigger_count a + Z.of_nat (List.length ds)))
    (alerts (durable w))
    (alerts (durable (run_checks cfg city (map ok_response ds) w)))
  /\ Forall2 (fun a a' =>
      alert_id a' = alert_id a /\ alert_trigger_count a <= alert_trigger_count a')
    (alerts (durable w))
    (alerts (durable (run_checks cfg city rs w))).
Proof.
  intros Hkey Hw Hc. split.
  - revert w Hw Hc. induction ds as [| d r IH]; intros w Hw Hc.
    + cbn. apply Forall2_refl_on. intros a. split; [reflexivity | intros _; lia].
    + cbn [map run_checks fold_left].
      set (w1 := snd (request (check_alerts cfg city (ok_response d)) w)).
      assert (H1 : healthy w1 /\ city_by_id city (durable w1) = Some c /\
                   Forall2 (evaluated_once (qualifies city (score (flood_of d)))
                              (utc w) (reads w) (reads w1))
                           (alerts (durable w)) (alerts (durable w1))).
      { pose proof (check_alerts_step cfg city (ok_response d) w Hw) as (Hh & _ & Hcs & _).
        fold w1 in Hh, Hcs. split; [exact Hh | split].
        - unfold city_by_id in *. now rewrite Hcs.
        - exact (check_alerts_fires cfg d city c w Hkey Hw Hc). }
      destruct H1 as (Hh1 & Hc1 & Hstep).
      specialize (IH w1 Hh1 Hc1). fold (run_checks cfg city (map ok_response r) w1).
      eapply Forall2_compose; [exact Hstep | exact IH |].
      intros a b e Hab [Hid Hcount].
      apply evaluated_once_row in Hab as (Hid' & Hq & _ & Hone).
      split; [congruence |]. intros Hall.
      rewrite Hcount.
      * rewrite Hone by (apply Hall; now left). cbn [List.length]. lia.
      * intros d' Hd'. rewrite Hq. apply Hall. now right.
  - revert w Hw Hc. induction rs as [| r rest IH]; intros w Hw Hc.
    + cbn. apply Forall2_refl_on. intros a. split; [reflexivity | lia].
    + cbn [run_checks fold_left].
      pose proof (check_alerts_step cfg city r w Hw) as (Hh & _ & Hcs & q & lo & hi & Hstep).
      set (w1 := snd (request (check_alerts cfg city r) w)) in *.
      assert (Hc1 : city_by_id city (durable w1) = Some c)
        by (unfold city_by_id in *; now rewrite Hcs).
      specialize (IH w1 Hh Hc1). fold (run_checks cfg city rest w1).
      eapply Forall2_compose; [exact Hstep | exact IH |].
      intros a b e Hab [Hid Hle].
      apply evaluated_once_row in Hab as (Hid' & _ & Hle' & _).
      split; [congruence | lia].
Qed.

Lemma repeated_evaluation_counts_every_call_witness :
  Forall2 (fun a a' =>
      alert_id a' = alert_id a /\
      ((forall d, In d [demo_owm; demo_owm; demo_owm] ->
          qualifies 1 (score (flood_of d)) a = true) ->
       alert_trigger_count a' = alert_trigger_count a + 3))
    (alerts demo_db)
    (alerts (durable (run_checks demo_cfg 1
                        (map ok_response [demo_owm; demo_owm; demo_owm]) (demo_world None)))).
Proof.
  exact (proj1 (repeated_evaluation_counts_every_call demo_cfg 1 demo_city
                  [demo_owm; demo_owm; demo_owm] [] (demo_world None)
                  eq_refl demo_world_healthy eq_refl)).
Defined.

(** C1, counterexample.  When the persistence layer fails right after
    [_log_weather] has committed the snapshot, the snapshot is durable while
    the qualifying active alert is as it was. *)
Lemma snapshot_persists_without_alert_update :
  let w := demo_world (Some 2%nat) in
  let w' := snd (request (get_weather demo_cfg (ok_response demo_owm) true (Some 1)) w) in
  List.length (weather_logs (durable w)) = 0%nat
  /\ List.length (weather_logs (durable w')) = 1%nat
  /\ alerts (durable w') = alerts (durable w)
  /\ existsb (qualifies 1 (score (flood_of demo_owm))) (alerts (durable w)) = true.
Proof. vm_compute. repeat split; reflexivity. Qed.

(** C1, amended.  The log-and-evaluate branch of [get_weather] is two
    transactions: [_log_weather] commits the snapshot, then the alert
    updates are committed.  A failure before the first commit completes
    leaves neither recorded; a failure after it and before the second commit
    completes leaves the snapshot recorded and every alert unchanged; with
    no failure both are recorded.  Alert updates are never recorded without
    the snapshot. *)
Theorem log_and_evaluate_commits_twice
    (cfg : Config) (d : OwmData) (w0 : WeatherItem) (city : Z)
    (db ses : Database) (u : nat -> Time) (rd : nat) (flt : option nat) :
  str_falsy (OWM_API_KEY cfg) = false ->
  first_weather d = Ok w0 ->
  city <> 0 ->
  NoDup (map alert_id (alerts db)) ->
  let out := request (get_weather cfg (ok_response d) true (Some city))
                     (mkWorld db ses u rd flt) in
  let db1 := logged city d w0 db (u rd) in
  let db2 := fired city (score (flood_of d)) u (S rd) db1 in
  match flt with
  | Some 0%nat | Some 1%nat =>
      fst out = Raise OperationalError /\ durable (snd out) = db
  | Some 2%nat | Some 3%nat =>
      fst out = Raise OperationalError /\ durable (snd out) = db1
      /\ alerts db1 = alerts db
  | _ =>
      fst out = weather_response d (flood_of d) /\ durable (snd out) = db2
      /\ weather_logs db2 = weather_logs db1
  end.
Proof.
  intros Hkey Hw0 Hcity Hnd out db1 db2. subst out.
  rewrite (get_weather_save_run cfg d w0 city db ses u rd flt Hkey Hw0 Hcity Hnd).
  destruct flt as [[| [| [| [| k]]]] |]; cbn [fst snd durable]; repeat split; reflexivity.
Qed.

Lemma log_and_evaluate_commits_twice_witness :
  let out := request (get_weather demo_cfg (ok_response demo_owm) true (Some 1))
                     (demo_world (Some 3%nat)) in
  fst out = Raise OperationalError
  /\ durable (snd out) = logged 1 demo_owm (mkWeatherItem None None) demo_db 1000.
Proof.
  pose proof (log_and_evaluate_commits_twice demo_cfg demo_owm (mkWeatherItem None None) 1
                demo_db demo_db (fun n => 1000 + Z.of_nat n) 0 (Some 3%nat)
                eq_refl eq_refl ltac:(discriminate)
                ltac:(repeat constructor; cbn; intuition discriminate)) as H.
  cbv zeta in H. destruct H as (H1 & H2 & _). split; [exact H1 | exact H2].
Defined.

Lemma validate_alert_rejects (b : AlertBody) :
  (body_threshold b <? 0)%float = true \/ (100 <? body_threshold b)%float = true ->
  validate_alert b = Raise RequestValidationError.
Proof.
  intros [H | H]; apply below_not_ge in H; unfold validate_alert; rewrite H;
    rewrite ?andb_false_r; reflexivity.
Qed.

Lemma create_alert_run (body : AlertCreate) (c : City) (db ses : Database)
    (u : nat -> Time) (rd : nat) :
  city_by_id (ac_city_id body) db = Some c ->
  let alert := mkAlert (next_id (map alert_id (alerts db))) (ac_city_id body)
                       (sqlite_number (ac_threshold body)) (ac_label body)
                       true (u rd) None 0 in
  request (create_alert body) (mkWorld db ses u rd None) =
  (Ok alert,
   mkWorld (set_alerts (fun xs => xs ++ [alert]) db) (set_alerts (fun xs => xs ++ [alert]) db)
           u (S rd) None).
Proof.
  intros Hc alert. unfold request, create_alert. run_world.
  rewrite (bind_ok _ _ _ _ _ (db_query_run _ _ _ _ _)), Hc.
  reflexivity.
Qed.

(** C9.  A create-alert request with a threshold below 0 or above 100 fails
    validation before [create_alert] runs, and the database is unchanged;
    with a threshold in [[0, 100]] and an existing city the alert is
    created: one new row, active, never triggered, and the other tables are
    unchanged.  The row's threshold is the request's as SQLite gives it
    back: the same number, in [[0, 100]], with [-0.0] read back as
    [0.0]. *)
Theorem alert_creation_validates_threshold (b : AlertBody) (w : World) :
  ((body_threshold b <? 0)%float = true \/ (100 <? body_threshold b)%float = true ->
     fst (request (post_alerts b) w) = Raise RequestValidationError
     /\ durable (snd (request (post_alerts b) w)) = durable w)
  /\ ((0 <=? body_threshold b)%float = true -> (body_threshold b <=? 100)%float = true ->
      fault w = None ->
      forall c, city_by_id (body_city_id b) (durable w) = Some c ->
      exists alert,
        fst (request (post_alerts b) w) = Ok alert
        /\ alerts (durable (snd (request (post_alerts b) w))) = alerts (durable w) ++ [alert]
        /\ alert_city_id alert = body_city_id b
        /\ alert_threshold alert = sqlite_number (body_threshold b)
        /\ (alert_threshold alert =? body_threshold b)%float = true
        /\ (0 <=? alert_threshold alert)%float = true
        /\ (alert_threshold alert <=? 100)%float = true
        /\ (Prim2SF (body_threshold b) <> S754_zero true ->
            alert_threshold alert = body_threshold b)
        /\ alert_label alert = get_or (body_label b) ""
        /\ alert_is_active alert = true
        /\ alert_trigger_count alert = 0
        /\ alert_last_triggered alert = None
        /\ cities (durable (snd (request (post_alerts b) w))) = cities (durable w)
        /\ weather_logs (durable (snd (request (post_alerts b) w))) = weather_logs (durable w)).
Proof.
  split.
  - intros H. unfold request, post_alerts.
    rewrite (validate_alert_rejects b H). cbn. split; reflexivity.
  - intros Hlo Hhi Hf c Hc. destruct w as [db ses u rd flt]. cbn in Hf, Hc. subst flt.
    unfold post_alerts, validate_alert. rewrite Hlo, Hhi. cbn [andb]. rewrite bind_lift_ok.
    rewrite (create_alert_run _ c db ses u rd) by exact Hc.
    cbv zeta. eexists. cbn [fst snd durable set_alerts alerts cities weather_logs].
    split; [reflexivity |].
    cbn [alert_city_id alert_threshold alert_label alert_is_active alert_trigger_count
         alert_last_triggered ac_city_id ac_threshold ac_label].
    rewrite sqlite_number_leb_l, sqlite_number_leb_r.
    repeat split; try reflexivity; try assumption.
    + apply sqlite_number_eqb. exact (leb_not_nan _ _ Hlo).
    + apply sqlite_number_fixed.
Qed.

Lemma alert_creation_validates_threshold_witness :
  fst (request (post_alerts (mkAlertBody 1 (-5) None)) (demo_world None))
    = Raise RequestValidationError
  /\ fst (request (post_alerts (mkAlertBody 1 100.5 None)) (demo_world None))
    = Raise RequestValidationError
  /\ (exists alert,
       fst (request (post_alerts (mkAlertBody 1 55 (Some "river"))) (demo_world None)) = Ok alert
       /\ alert_threshold alert = 55%float)
  /\ (exists alert,
       fst (request (post_alerts (mkAlertBody 1 neg_zero None)) (demo_world None)) = Ok alert
       /\ alert_threshold alert = 0%float).
Proof.
  split; [| split; [| split]].
  - apply (proj1 (alert_creation_validates_threshold (mkAlertBody 1 (-5) None) (demo_world None))).
    left. reflexivity.
  - apply (proj1 (alert_creation_validates_threshold (mkAlertBody 1 100.5 None) (demo_world None))).
    right. reflexivity.
  - destruct (proj2 (alert_creation_validates_threshold (mkAlertBody 1 55 (Some "river"))
                       (demo_world None)) eq_refl eq_refl eq_refl demo_city eq_refl)
      as (alert & H1 & _ & _ & H2 & _).
    exists alert. split; assumption.
  - destruct (proj2 (alert_creation_validates_threshold (mkAlertBody 1 neg_zero None)
                       (demo_world None)) eq_refl eq_refl eq_refl demo_city eq_refl)
      as (alert & H1 & _ & _ & H2 & _).
    exists alert. split; assumption.
Defined.

Lemma get_weather_unsaved (cfg : Config) (resp : Fetch OwmData) (save_log : bool)
    (city_id : option Z) (w : World) :
  (if save_log then truthy_id city_id else None) = None ->
  request (get_weather cfg resp save_log city_id) w =
  (match str_falsy (OWM_API_KEY cfg), resp with
   | true, _ => Raise (HTTPException 500 "OWM API key not configured.")
   | false, FetchRaised msg => Raise (TransportError msg)
   | false, FetchResponse status body =>
       if negb (status =? 200) then Raise (HTTPException status "Weather API error.")
       else match body with
            | Malformed msg => Raise (JSONDecodeError msg)
            | Parsed d => weather_response d (flood_of d)
            end
   end, db_close w).
Proof.
  intros Hno. unfold request, get_weather. rewrite Hno.
  destruct (str_falsy (OWM_API_KEY cfg)); [reflexivity |].
  destruct resp as [msg | status [msg | d]]; try reflexivity;
    destruct (negb (status =? 200)); reflexivity.
Qed.

(** C10.  With [save_log] true but [city_id] absent or 0, [get_weather]
    answers exactly as with [save_log] false: the database is unchanged (no
    weather log row, no alert update), no error is raised for it, and on a
    successful fetch the full scored response is returned. *)
Theorem save_log_without_city_skips_persistence
    (cfg : Config) (resp : Fetch OwmData) (w : World) :
  let quiet := request (get_weather cfg resp false None) w in
  request (get_weather cfg resp true None) w = quiet
  /\ request (get_weather cfg resp true (Some 0)) w = quiet
  /\ durable (snd quiet) = durable w
  /\ (forall d w0,
        str_falsy (OWM_API_KEY cfg) = false -> resp = ok_response d ->
        first_weather d = Ok w0 ->
        exists r, fst quiet = Ok r /\ wr_flood_risk r = flood_of d).
Proof.
  cbv zeta. rewrite !get_weather_unsaved by reflexivity.
  repeat split. intros d w0 Hkey -> Hw0. rewrite Hkey. cbn [ok_response negb Z.eqb Pos.eqb fst].
  unfold weather_response. rewrite Hw0. eexists. split; reflexivity.
Qed.

Lemma save_log_without_city_skips_persistence_witness :
  exists r,
    fst (request (get_weather demo_cfg (ok_response demo_owm) true None) (demo_world None)) = Ok r
    /\ wr_flood_risk r = flood_of demo_owm.
Proof.
  destruct (save_log_without_city_skips_persistence demo_cfg (ok_response demo_owm)
              (demo_world None)) as (H1 & _ & _ & H4).
  rewrite H1. exact (H4 demo_owm (mkWeatherItem None None) eq_refl eq_refl eq_refl).
Defined.

(* ===================================================================== *)
(** * The live feed                                                      *)
(* ===================================================================== *)

(** One pass always yields an event, never raises, and touches nothing but
    the clock. *)
Lemma stream_event_run (resp : Fetch OwmData) (w : World) :
  exists ev k,
    stream_event resp w = (Ok ev, mkWorld (durable w) (session w) (utc w) k (fault w))
    /\ expected_event (utc w) resp ev.
Proof.
  destruct w as [dur ses u rd flt].
  unfold stream_event, stream_try, expected_event.
  destruct resp as [msg | status [msg | d]].
  - eexists _, _. split; reflexivity.
  - destruct (status =? 200); eexists _, _; split; reflexivity.
  - destruct (status =? 200); [| eexists _, _; split; reflexivity].
    cbn [resp_json]. rewrite bind_ret.
    destruct (first_weather d) as [w0 | e] eqn:Hw.
    + eexists _, _. split; [reflexivity |]. exists rd. reflexivity.
    + eexists _, _. split; reflexivity.
Qed.

Lemma event_generator_uncancelled (interval : Z) (cycles : list Cycle) : forall w,
  forallb uncancelled cycles = true ->
  exists evs k,
    event_generator interval cycles w =
      (Ok (emitted interval evs, Running),
       mkWorld (durable w) (session w) (utc w) k (fault w))
    /\ Forall2 (fun c ev => expected_event (utc w) (fetch_of c) ev) cycles evs.
Proof.
  induction cycles as [| c rest IH]; intros w Hall.
  - exists [], (reads w). split; [destruct w; reflexivity | constructor].
  - cbn [forallb] in Hall. apply andb_true_iff in Hall as [Hc Hrest].
    unfold uncancelled in Hc. cbn [event_generator].
    destruct (cycle_fetch c) as [resp |] eqn:Hf; [| discriminate].
    apply andb_true_iff in Hc as [Hn Hs]. rewrite Hn, Hs. cbn [negb get_or].
    destruct (stream_event_run resp w) as (ev & k & Hev & Hexp).
    rewrite (bind_ok _ _ _ _ _ Hev).
    destruct (IH (mkWorld (durable w) (session w) (utc w) k (fault w)) Hrest)
      as (evs & k' & Hrun & Hall').
    cbn [durable session utc fault] in Hrun, Hall'.
    rewrite (bind_ok _ _ _ _ _ Hrun). cbn [fst snd durable session utc fault].
    exists (ev :: evs), k'. split; [reflexivity |].
    constructor; [unfold fetch_of; rewrite Hf; exact Hexp | exact Hall'].
Qed.

Lemma event_generator_total (interval : Z) (cycles : list Cycle) : forall w,
  exists trace st k,
    event_generator interval cycles w =
      (Ok (trace, st), mkWorld (durable w) (session w) (utc w) k (fault w))
    /\ (st = Stopped -> forallb uncancelled cycles = false).
Proof.
  induction cycles as [| c rest IH]; intros w.
  - exists [], Running, (reads w). split; [destruct w; reflexivity | discriminate].
  - cbn [event_generator forallb]. unfold uncancelled at 1.
    destruct (cycle_fetch c) as [resp |].
    2: { exists [], Stopped, (reads w). split; [destruct w; reflexivity | reflexivity]. }
    destruct (stream_event_run resp w) as (ev & k & Hev & _).
    rewrite (bind_ok _ _ _ _ _ Hev).
    destruct (cycle_next c); cbn [negb andb].
    2: { eexists _, _, _. split; reflexivity. }
    destruct (cycle_slept c); cbn [negb andb].
    2: { eexists _, _, _. split; reflexivity. }
    destruct (IH (mkWorld (durable w) (session w) (utc w) k (fault w)))
      as (trace & st & k' & Hrun & Hst).
    cbn [durable session utc fault] in Hrun.
    rewrite (bind_ok _ _ _ _ _ Hrun). cbn [fst snd durable session utc fault].
    eexists _, _, _. split; [reflexivity | exact Hst].
Qed.

Lemma emitted_count (interval : Z) (evs : list Json) :
  List.length (filter (fun a => match a with Yield _ => true | Sleep _ => false end)
                      (emitted interval evs)) = List.length evs.
Proof. induction evs as [| e r IH]; cbn; [reflexivity | now rewrite IH]. Qed.

(** C8.  Every cycle of the live feed that its consumer lets run emits
    exactly one event and then sleeps for the interval: the scored payload
    when the fetch succeeds, [{"error": "API error"}] on a status other than
    200 and [{"error": <message>}] when the fetch or the handling of its
    body raises.  The generator never raises and never stops by itself: it
    stops only in a cycle its consumer cancelled. *)
Theorem live_feed_emits_one_event_per_cycle (interval : Z) (cycles : list Cycle) (w : World) :
  (forallb uncancelled cycles = true ->
     exists evs w',
       event_generator interval cycles w = (Ok (emitted interval evs, Running), w')
       /\ List.length evs = List.length cycles
       /\ Forall2 (fun c ev => expected_event (utc w) (fetch_of c) ev) cycles evs)
  /\ (exists trace st w',
        event_generator interval cycles w = (Ok (trace, st), w')
        /\ (st = Stopped -> forallb uncancelled cycles = false)).
Proof.
  split.
  - intros Hall.
    destruct (event_generator_uncancelled interval cycles w Hall) as (evs & k & Hrun & Hev).
    eexists _, _. split; [exact Hrun | split; [| exact Hev]].
    symmetry. exact (Forall2_length Hev).
  - destruct (event_generator_total interval cycles w) as (trace & st & k & Hrun & Hst).
    eexists _, _, _. split; [exact Hrun | exact Hst].
Qed.

Lemma live_feed_emits_one_event_per_cycle_witness :
  exists evs w',
    event_generator 60
      [mkCycle (Some (FetchResponse 503 (Malformed ""))) true true;
       mkCycle (Some (FetchRaised "timed out")) true true;
       mkCycle (Some (ok_response demo_owm)) true true] (demo_world None)
    = (Ok (emitted 60 evs, Running), w')
    /\ List.length evs = 3%nat.
Proof.
  destruct (proj1 (live_feed_emits_one_event_per_cycle 60
              [mkCycle (Some (FetchResponse 503 (Malformed ""))) true true;
               mkCycle (Some (FetchRaised "timed out")) true true;
               mkCycle (Some (ok_response demo_owm)) true true] (demo_world None)) eq_refl)
    as (evs & w' & H1 & H2 & _).
  exists evs, w'. split; [exact H1 | exact H2].
Defined.

(* ===================================================================== *)

(** * Further properties of the routes                                   *)

(* ===================================================================== *)

(* ===================================================================== *)
(** * Cities                                                             *)
(* ===================================================================== *)

Lemma find_app_none {A} (p : A -> bool) (xs : list A) (y : A) :
  find p xs = None -> p y = true -> find p (xs ++ [y]) = Some y.
Proof.
  induction xs as [| x r IH]; cbn; intros Hn Hy; [now rewrite Hy |].
  destruct (p x); [discriminate | auto].
Qed.



Lemma flip_favorite_twice (c : City) : flip_favorite (flip_favorite c) = c.
Proof. destruct c as [i n co s la lo t f]. unfold flip_favorite. cbn. now rewrite negb_involutive. Qed.

Lemma toggle_favorite_run (city : Z) (db ses : Database) (u : nat -> Time) (rd : nat) :
  request (toggle_favorite city) (mkWorld db ses u rd None) =
  match city_by_id city db with
  | None => (Raise (HTTPException 404 "City not found."), mkWorld db db u rd None)
  | Some c =>
      let db' := set_cities (map (fun x =>
                   if city_id x =? city_id c then flip_favorite x else x)) db in
      (Ok (flip_favorite c), mkWorld db' db' u rd None)
  end.
Proof.
  unfold request, toggle_favorite. run_world.
  rewrite (bind_ok _ _ _ _ _ (db_query_run _ _ _ _ _)).
  destruct (city_by_id city db); reflexivity.
Qed.

Lemma find_map_same_key {A} (key : A -> Z) (f : A -> A) (k : Z) (xs : list A) :
  (forall x, key (f x) = key x) ->
  find (fun x => key x =? k) (map (fun x => if key x =? k then f x else x) xs)
  = option_map f (find (fun x => key x =? k) xs).
Proof.
  intros Hk. induction xs as [| x r IH]; cbn; [reflexivity |].
  destruct (key x =? k) eqn:E.
  - now rewrite Hk, E.
  - now rewrite E.
Qed.

Lemma map_map_same_key {A} (key : A -> Z) (f g : A -> A) (k : Z) (xs : list A) :
  (forall x, key (f x) = key x) ->
  map (fun x => if key x =? k then g x else x) (map (fun x => if key x =? k then f x else x) xs)
  = map (fun x => if key x =? k then g (f x) else x) xs.
Proof.
  intros Hk. rewrite map_map. apply map_ext. intros x.
  destruct (key x =? k) eqn:E; [now rewrite Hk, E | now rewrite E].
Qed.

Lemma city_by_id_key (city : Z) (db : Database) (c : City) :
  city_by_id city db = Some c -> city_id c = city.
Proof. intros H. apply find_some in H as [_ H]. now apply Z.eqb_eq in H. Qed.

Lemma toggle_back (city : Z) (c : City) (db ses : Database) (u : nat -> Time) (rd : nat) :
  city_by_id city db = Some c ->
  request (toggle_favorite city)
    (mkWorld (set_cities (map (fun x =>
                if city_id x =? city_id c then flip_favorite x else x)) db) ses u rd None)
  = (Ok c, mkWorld db db u rd None).
Proof.
  intros Hc. pose proof (city_by_id_key _ _ _ Hc) as Hid.
  rewrite toggle_favorite_run. unfold city_by_id in *. cbn [cities set_cities].
  rewrite Hid.
  rewrite (find_map_same_key city_id flip_favorite city (cities db)) by reflexivity.
  rewrite Hc. cbn [option_map].
  change (city_id (flip_favorite c)) with (city_id c). rewrite Hid, flip_favorite_twice.
  f_equal.
  assert (E : set_cities (map (fun x => if city_id x =? city then flip_favorite x else x))
                (set_cities (map (fun x => if city_id x =? city then flip_favorite x else x)) db)
              = db).
  { destruct db as [cs ls hs als ks]. unfold set_cities.
    cbn [cities weather_logs search_history alerts api_keys]. f_equal.
    rewrite (map_map_same_key city_id flip_favorite flip_favorite) by reflexivity.
    rewrite <- (map_id cs) at 2. apply map_ext. intros x.
    destruct (city_id x =? city); [apply flip_favorite_twice | reflexivity]. }
  now rewrite E.
Qed.

(** X2. toggling a city's favourite flag twice gives the database back; an
    unknown city is a 404 and changes nothing. *)
Theorem toggle_favorite_twice_restores (city : Z) (w : World) :
  fault w = None ->
  let once := request (toggle_favorite city) w in
  let twice := request (toggle_favorite city) (snd once) in
  durable (snd twice) = durable w
  /\ (city_by_id city (durable w) = None ->
      fst once = Raise (HTTPException 404 "City not found.")
      /\ durable (snd once) = durable w)
  /\ (forall c, city_by_id city (durable w) = Some c ->
      fst once = Ok (flip_favorite c) /\ fst twice = Ok c).
Proof.
  intros Hf. destruct w as [db ses u rd flt]. cbn in Hf. subst flt. cbv zeta.
  cbn [durable]. rewrite (toggle_favorite_run city db ses u rd).
  destruct (city_by_id city db) as [c |] eqn:Hc; cbn [fst snd durable].
  - cbv zeta. rewrite (toggle_back city c db _ u rd Hc). cbn [fst snd durable].
    split; [reflexivity | split; [intros H; discriminate H |]].
    intros c' [= <-]. split; reflexivity.
  - rewrite toggle_favorite_run, Hc. cbn [fst snd durable].
    split; [reflexivity | split; [auto | intros c H; discriminate H]].
Qed.

Lemma delete_city_run (city : Z) (db ses : Database) (u : nat -> Time) (rd : nat) :
  request (delete_city city) (mkWorld db ses u rd None) =
  match city_by_id city db with
  | None => (Raise (HTTPException 404 "City not found."), mkWorld db db u rd None)
  | Some c =>
      let db' := mkDatabase
                   (filter (fun x => negb (city_id x =? city_id c)) (cities db))
                   (filter (fun l => negb (log_city_id l =? city_id c)) (weather_logs db))
                   (search_history db)
                   (filter (fun a => negb (alert_city_id a =? city_id c)) (alerts db))
                   (api_keys db) in
      (Ok ("City '" ++ city_name c ++ "' deleted.")%string, mkWorld db' db' u rd None)
  end.
Proof.
  unfold request, delete_city. run_world.
  rewrite (bind_ok _ _ _ _ _ (db_query_run _ _ _ _ _)).
  destruct (city_by_id city db); reflexivity.
Qed.

(** X3. deleting a city removes it together with all of its weather logs and
    alerts, and nothing else: rows of other cities, the search history and
    the API keys stay. *)
Theorem delete_city_cascades (city : Z) (c : City) (w : World) :
  fault w = None ->
  city_by_id city (durable w) = Some c ->
  let db := durable w in
  let db' := durable (snd (request (delete_city city) w)) in
  fst (request (delete_city city) w) = Ok ("City '" ++ city_name c ++ "' deleted.")%string
  /\ city_by_id city db' = None
  /\ (forall a, In a (alerts db') <-> In a (alerts db) /\ alert_city_id a <> city)
  /\ (forall l, In l (weather_logs db') <-> In l (weather_logs db) /\ log_city_id l <> city)
  /\ (forall x, In x (cities db') <-> In x (cities db) /\ city_id x <> city)
  /\ search_history db' = search_history db
  /\ api_keys db' = api_keys db.
Proof.
  intros Hf Hc. destruct w as [db ses u rd flt]. cbn in Hf, Hc. subst flt. cbv zeta.
  cbn [durable]. rewrite delete_city_run, Hc. cbv zeta.
  pose proof (city_by_id_key _ _ _ Hc) as Hid. rewrite Hid.
  cbn [fst snd durable cities weather_logs alerts search_history api_keys].
  assert (Hne : forall k : Z, negb (k =? city) = true <-> k <> city).
  { intros k. rewrite negb_true_iff. apply Z.eqb_neq. }
  split; [reflexivity | split; [| split; [| split; [| split; [| split; reflexivity]]]]];
    try (intros x; rewrite filter_In, Hne; tauto).
  unfold city_by_id. cbn [cities].
  destruct (find _ _) as [x |] eqn:Hfind; [| reflexivity].
  apply find_some in Hfind as [Hin Hx]. apply filter_In in Hin as [_ Hin].
  apply Z.eqb_eq in Hx. apply Hne in Hin. contradiction.
Qed.

Lemma delete_alert_run (alert : Z) (db ses : Database) (u : nat -> Time) (rd : nat) :
  request (delete_alert alert) (mkWorld db ses u rd None) =
  match find (fun a => alert_id a =? alert) (alerts db) with
  | None => (Raise (HTTPException 404 "Alert not found."), mkWorld db db u rd None)
  | Some a =>
      let db' := set_alerts (filter (fun x => negb (alert_id x =? alert_id a))) db in
      (Ok ("Alert #" ++ str_of_int alert ++ " deleted.")%string, mkWorld db' db' u rd None)
  end.
Proof.
  unfold request, delete_alert. run_world.
  rewrite (bind_ok _ _ _ _ _ (db_query_run _ _ _ _ _)).
  destruct (find _ (alerts db)); reflexivity.
Qed.

(** X4. deleting an alert removes the alert with that id and no other row; an
    unknown id is a 404 and changes nothing. *)
Theorem delete_alert_removes_only_that_alert (alert : Z) (w : World) :
  fault w = None ->
  let db := durable w in
  let out := request (delete_alert alert) w in
  let db' := durable (snd out) in
  (In alert (map alert_id (alerts db)) ->
     fst out = Ok ("Alert #" ++ str_of_int alert ++ " deleted.")%string
     /\ (forall a, In a (alerts db') <-> In a (alerts db) /\ alert_id a <> alert))
  /\ (~ In alert (map alert_id (alerts db)) ->
     fst out = Raise (HTTPException 404 "Alert not found.") /\ db' = db)
  /\ cities db' = cities db /\ weather_logs db' = weather_logs db.
Proof.
  intros Hf. destruct w as [db ses u rd flt]. cbn in Hf. subst flt. cbv zeta.
  cbn [durable]. rewrite delete_alert_run.
  destruct (find _ (alerts db)) as [a |] eqn:Hfind; cbn [fst snd durable].
  - apply find_some in Hfind as [Hin Ha]. apply Z.eqb_eq in Ha. rewrite Ha.
    cbn [set_alerts alerts cities weather_logs].
    split; [| split; [| split; reflexivity]].
    + intros _. split; [reflexivity |]. intros x.
      rewrite filter_In, negb_true_iff, Z.eqb_neq. tauto.
    + intros Hn. exfalso. apply Hn. apply in_map_iff. eauto.
  - split; [| split; [| split; reflexivity]].
    + intros Hin. exfalso. apply in_map_iff in Hin as (a & Ha & Hin).
      apply (find_none _ _ Hfind) in Hin. apply Z.eqb_neq in Hin. contradiction.
    + intros _. split; reflexivity.
Qed.

Lemma next_id_fresh (ids : list Z) : ~ In (next_id ids) ids.
Proof.
  assert (H : forall x, In x ids -> x <= fold_right Z.max 0 ids).
  { induction ids as [| y r IH]; cbn; [tauto |]. intros x [-> | Hx]; [lia |].
    specialize (IH x Hx). lia. }
  intros Hin. apply H in Hin. unfold next_id in Hin. lia.
Qed.

(** X5. a create-alert request for a city that is not saved is a 404 and
    writes nothing; a created alert gets an id no alert had, so unique ids
    stay unique. *)
Theorem create_alert_needs_city_and_gives_fresh_id (body : AlertCreate) (w : World) :
  fault w = None ->
  let out := request (create_alert body) w in
  (city_by_id (ac_city_id body) (durable w) = None ->
     fst out = Raise (HTTPException 404
       ("City ID " ++ str_of_int (ac_city_id body) ++ " not found. Save the city first.")%string)
     /\ durable (snd out) = durable w)
  /\ (forall a, fst out = Ok a ->
        ~ In (alert_id a) (map alert_id (alerts (durable w)))
        /\ (NoDup (map alert_id (alerts (durable w))) ->
            NoDup (map alert_id (alerts (durable (snd out)))))).
Proof.
  intros Hf. destruct w as [db ses u rd flt]. cbn in Hf. subst flt. cbv zeta. cbn [durable].
  destruct (city_by_id (ac_city_id body) db) as [c |] eqn:Hc.
  - rewrite (create_alert_run body c db ses u rd Hc). cbn [fst snd durable].
    split; [intros H; discriminate H |]. intros a [= <-]. cbn [alert_id].
    split; [apply next_id_fresh |]. intros Hnd. cbn [set_alerts alerts].
    rewrite map_app. cbn [map alert_id].
    apply NoDup_app; [exact Hnd | repeat constructor; intros [] | ].
    intros x Hx [<- | []]. exact (next_id_fresh _ Hx).
  - unfold request, create_alert. run_world.
    rewrite (bind_ok _ _ _ _ _ (db_query_run _ _ _ _ _)), Hc. cbn [fst snd durable].
    split; [intros _; split; reflexivity | intros a H; discriminate H].
Qed.

Lemma filter_length_le {A} (p : A -> bool) (xs : list A) :
  (List.length (filter p xs) <= List.length xs)%nat.
Proof. induction xs as [| x r IH]; cbn; [lia |]. destruct (p x); cbn; lia. Qed.

(** X6. what [check_alerts] reports: [total_active_alerts] counts the city's
    active alerts whatever the score; [alerts_triggered] lists, in table
    order, exactly the active alerts of the city whose threshold is at most
    the current score, each with that score and level; so no more alerts are
    triggered than are active. *)
Theorem check_alerts_report (cfg : Config) (d : OwmData) (city : Z) (c : City) (w : World) :
  str_falsy (OWM_API_KEY cfg) = false ->
  healthy w ->
  city_by_id city (durable w) = Some c ->
  exists r,
    fst (request (check_alerts cfg city (ok_response d)) w) = Ok r
    /\ cr_city r = city_name c
    /\ cr_current_flood_score r = score (flood_of d)
    /\ cr_flood_level r = level (flood_of d)
    /\ cr_total_active_alerts r = List.length (filter (active_in city) (alerts (durable w)))
    /\ map tr_alert_id (cr_alerts_triggered r)
       = map alert_id (filter (qualifies city (score (flood_of d))) (alerts (durable w)))
    /\ Forall (fun t => (tr_threshold t <=? tr_current_score t)%float = true
                        /\ tr_current_score t = score (flood_of d)
                        /\ tr_flood_level t = level (flood_of d))
              (cr_alerts_triggered r)
    /\ (List.length (cr_alerts_triggered r) <= cr_total_active_alerts r)%nat.
Proof.
  intros Hkey [Hf Hnd] Hc. destruct w as [db ses u rd flt]. cbn in Hf, Hnd, Hc. subst flt.
  rewrite (check_alerts_run cfg d city c db ses u rd Hkey Hc Hnd).
  eexists. split; [reflexivity |].
  cbn [fst durable cr_city cr_current_flood_score cr_flood_level cr_total_active_alerts
       cr_alerts_triggered].
  repeat (split; [reflexivity |]). split; [| split; [| ]].
  - rewrite map_map. reflexivity.
  - apply Forall_forall. intros t Ht. apply in_map_iff in Ht as (a & <- & Ha).
    apply filter_In in Ha as [_ Hq]. unfold qualifies in Hq.
    apply andb_true_iff in Hq as [_ Hq]. cbn. auto.
  - rewrite length_map, <- qualifies_split. apply filter_length_le.
Qed.

Lemma fire_result_counts (q : Alert -> bool) (u u' : nat -> Time) (xs : list Alert) :
  forall k k',
  map (fun a => (alert_id a, alert_trigger_count a)) (fire_result q u k xs)
  = map (fun a => (alert_id a, alert_trigger_count a)) (fire_result q u' k' xs).
Proof.
  induction xs as [| a r IH]; intros k k'; cbn; [reflexivity |].
  destruct (q a); cbn; f_equal; apply IH.
Qed.

(** X7. the two evaluation paths agree: on the same database, city and
    document, [check_alerts] and the [save_log] branch of [get_weather]
    leave every alert with the same trigger count. *)
Theorem both_evaluation_paths_fire_the_same_alerts
    (cfg : Config) (d : OwmData) (w0 : WeatherItem) (city : Z) (c : City) (w : World) :
  str_falsy (OWM_API_KEY cfg) = false ->
  healthy w ->
  city_by_id city (durable w) = Some c ->
  first_weather d = Ok w0 ->
  city <> 0 ->
  map (fun a => (alert_id a, alert_trigger_count a))
      (alerts (durable (snd (request (check_alerts cfg city (ok_response d)) w))))
  = map (fun a => (alert_id a, alert_trigger_count a))
      (alerts (durable (snd (request (get_weather cfg (ok_response d) true (Some city)) w)))).
Proof.
  intros Hkey [Hf Hnd] Hc Hw0 Hcity. destruct w as [db ses u rd flt].
  cbn in Hf, Hnd, Hc. subst flt.
  rewrite (check_alerts_run cfg d city c db ses u rd Hkey Hc Hnd).
  rewrite (get_weather_save_run cfg d w0 city db ses u rd None Hkey Hw0 Hcity Hnd).
  cbn [snd durable fired logged set_alerts set_weather_logs alerts].
  apply fire_result_counts.
Qed.

(** X8. the snapshot written by the [save_log] branch is the only row added
    to the weather log; it carries the city it was asked for, the level and
    description of the response the caller gets and, as SQLite holds them,
    the response's score, rain amounts, temperature and humidity: a number
    is kept as the same number ([-0.0] as [0.0]), a NaN score is stored as
    NULL. *)
Theorem snapshot_matches_response
    (cfg : Config) (d : OwmData) (w0 : WeatherItem) (city : Z) (w : World) :
  str_falsy (OWM_API_KEY cfg) = false ->
  healthy w ->
  first_weather d = Ok w0 ->
  city <> 0 ->
  let out := request (get_weather cfg (ok_response d) true (Some city)) w in
  exists r log,
    fst out = Ok r
    /\ weather_logs (durable (snd out)) = weather_logs (durable w) ++ [log]
    /\ log_city_id log = city
    /\ log_flood_score log = sqlite_real (score (wr_flood_risk r))
    /\ (is_nan (score (wr_flood_risk r)) = true -> log_flood_score log = None)
    /\ (is_nan (score (wr_flood_risk r)) = false ->
        exists v, log_flood_score log = Some v
                  /\ (v =? score (wr_flood_risk r))%float = true)
    /\ log_flood_level log = level (wr_flood_risk r)
    /\ log_rain_1h log = sqlite_real (wr_rain_1h r)
    /\ log_rain_3h log = sqlite_real (wr_rain_3h r)
    /\ log_temperature log = sqlite_opt (wr_temperature r)
    /\ log_humidity log = sqlite_opt (wr_humidity r)
    /\ log_description log = wr_description r
    /\ ~ In (log_id log) (map log_id (weather_logs (durable w)))
    /\ cities (durable (snd out)) = cities (durable w).
Proof.
  intros Hkey [Hf Hnd] Hw0 Hcity. destruct w as [db ses u rd flt].
  cbn in Hf, Hnd. subst flt. cbv zeta.
  rewrite (get_weather_save_run cfg d w0 city db ses u rd None Hkey Hw0 Hcity Hnd).
  unfold weather_response. rewrite Hw0.
  eexists _, _. cbn [fst snd durable fired logged set_alerts set_weather_logs weather_logs cities].
  split; [reflexivity | split; [reflexivity |]].
  cbn [snapshot new_weather_log log_city_id log_flood_score log_flood_level log_rain_1h
       log_rain_3h log_temperature log_humidity log_description log_id
       wr_flood_risk wr_rain_1h wr_rain_3h wr_temperature wr_humidity wr_description].
  repeat split.
  - apply sqlite_real_nan.
  - intros Hn. rewrite (sqlite_real_number _ Hn). eexists. split; [reflexivity |].
    now apply sqlite_number_eqb.
  - apply next_id_fresh.
Qed.

(** X9. a [get_weather] call with [save_log] that cannot be answered writes
    nothing: with the key missing, a transport error, a status other than
    200, a body that is not JSON or an empty ["weather"] list, the request
    raises and the database is as before. *)
Theorem failed_weather_request_writes_nothing
    (cfg : Config) (resp : Fetch OwmData) (city : Z) (w : World) :
  fault w = None ->
  str_falsy (OWM_API_KEY cfg) = true
  \/ (exists msg, resp = FetchRaised msg)
  \/ (exists status body, resp = FetchResponse status body /\ status <> 200)
  \/ (exists msg, resp = FetchResponse 200 (Malformed msg))
  \/ (exists d, resp = FetchResponse 200 (Parsed d) /\ owm_weather d = Some []) ->
  let out := request (get_weather cfg resp true (Some city)) w in
  (exists e, fst out = Raise e) /\ durable (snd out) = durable w.
Proof.
  intros Hf H. destruct w as [db ses u rd flt]. cbn in Hf. subst flt. cbv zeta.
  unfold request, get_weather. run_world.
  destruct (str_falsy (OWM_API_KEY cfg)) eqn:Hkey.
  { cbn. split; [eexists; reflexivity | reflexivity]. }
  destruct H as [H | [(msg & ->) | [(st & body & -> & Hst) | [(msg & ->) | (d & -> & Hd)]]]].
  - discriminate.
  - cbn. split; [eexists; reflexivity | reflexivity].
  - apply Z.eqb_neq in Hst. rewrite Hst. cbn. split; [eexists; reflexivity | reflexivity].
  - cbn. split; [eexists; reflexivity | reflexivity].
  - cbn [negb Z.eqb Pos.eqb resp_json]. rewrite bind_ret.
    unfold _log_weather, weather_response, first_weather. rewrite Hd.
    destruct (truthy_id (Some city)); cbn; split; (eexists; reflexivity) || reflexivity.
Qed.

(* ===================================================================== *)
(** * API keys                                                           *)
(* ===================================================================== *)

Lemma require_api_key_run (cfg : Config) (api_key : option string)
    (db ses : Database) (u : nat -> Time) (rd : nat) :
  request (require_api_key cfg api_key) (mkWorld db ses u rd None) =
  if negb (auth_on cfg) then (Ok None, mkWorld db db u rd None)
  else match api_key with
       | None => (Raise (HTTPException 401 "Missing X-API-Key header."), mkWorld db db u rd None)
       | Some key =>
           if str_falsy key then
             (Raise (HTTPException 401 "Missing X-API-Key header."), mkWorld db db u rd None)
           else match find (valid_key key) (api_keys db) with
                | None => (Raise (HTTPException 403 "Invalid or revoked API key."),
                           mkWorld db db u rd None)
                | Some row =>
                    let db' := set_api_keys (map (fun k =>
                                 if key_id k =? key_id row then update_key k (u rd) else k)) db in
                    (Ok (Some (update_key row (u rd))), mkWorld db' db' u (S rd) None)
                end
       end.
Proof.
  unfold request, require_api_key. fold (auth_on cfg). run_world.
  destruct (negb (auth_on cfg)); [reflexivity |].
  destruct api_key as [key |]; [| reflexivity].
  destruct (str_falsy key); [reflexivity |].
  rewrite (bind_ok _ _ _ _ _ (db_query_run _ _ _ _ _)).
  change (fun k : ApiKey => String.eqb (key_key k) key && key_is_active k) with (valid_key key).
  destruct (find (valid_key key) (api_keys db)); reflexivity.
Qed.

(** X10. with [REQUIRE_API_KEY] unset or anything but "true" (in any case),
    [require_api_key] lets every request through and touches nothing; with
    it on, a missing or empty key is a 401 and an unknown or inactive key a
    403, both without a write; a valid key has its call count raised by 1
    and its last use stamped. *)
Theorem require_api_key_outcomes (cfg : Config) (api_key : option string) (w : World) :
  fault w = None ->
  let out := request (require_api_key cfg api_key) w in
  (auth_on cfg = false -> fst out = Ok None /\ durable (snd out) = durable w)
  /\ (auth_on cfg = true ->
      match api_key with
      | None => fst out = Raise (HTTPException 401 "Missing X-API-Key header.")
                /\ durable (snd out) = durable w
      | Some key =>
          if str_falsy key then
            fst out = Raise (HTTPException 401 "Missing X-API-Key header.")
            /\ durable (snd out) = durable w
          else
            match find (valid_key key) (api_keys (durable w)) with
            | None => fst out = Raise (HTTPException 403 "Invalid or revoked API key.")
                      /\ durable (snd out) = durable w
            | Some row =>
                exists t, fst out = Ok (Some (update_key row t))
                  /\ key_call_count (update_key row t) = key_call_count row + 1
                  /\ key_last_used (update_key row t) = Some t
                  /\ alerts (durable (snd out)) = alerts (durable w)
                  /\ cities (durable (snd out)) = cities (durable w)
            end
      end).
Proof.
  intros Hf. destruct w as [db ses u rd flt]. cbn in Hf. subst flt. cbv zeta.
  rewrite require_api_key_run. cbn [durable].
  split; intros Hon; rewrite Hon; cbn [negb]; [split; reflexivity |].
  destruct api_key as [key |]; [| split; reflexivity].
  destruct (str_falsy key); [split; reflexivity |].
  destruct (find (valid_key key) (api_keys db)); [| split; reflexivity].
  eexists. cbn [fst snd durable]. repeat split.
Qed.

Lemma revoke_api_key_run (key : string) (db ses : Database) (u : nat -> Time) (rd : nat) :
  request (revoke_api_key key) (mkWorld db ses u rd None) =
  match find (fun k => String.eqb (key_key k) key) (api_keys db) with
  | None => (Raise (HTTPException 404 "API key not found."), mkWorld db db u rd None)
  | Some r =>
      let db' := set_api_keys (map (fun k =>
                   if key_id k =? key_id r then deactivate k else k)) db in
      (Ok "API key revoked.", mkWorld db' db' u rd None)
  end.
Proof.
  unfold request, revoke_api_key. run_world.
  rewrite (bind_ok _ _ _ _ _ (db_query_run _ _ _ _ _)).
  destruct (find _ (api_keys db)); reflexivity.
Qed.

Lemma find_none_iff {A} (p : A -> bool) (xs : list A) :
  find p xs = None <-> forall x, In x xs -> p x = false.
Proof.
  split; [apply find_none |]. induction xs as [| x r IH]; cbn; intros H; [reflexivity |].
  rewrite (H x) by now left. apply IH. intros y Hy. apply H. now right.
Qed.

(** X11. a revoked key is refused: once [revoke_api_key] has answered for a
    key, and key strings being unique, [require_api_key] rejects that key
    with a 403. *)
Theorem revoked_key_is_refused (cfg : Config) (key : string) (w : World) :
  fault w = None ->
  auth_on cfg = true ->
  str_falsy key = false ->
  NoDup (map key_key (api_keys (durable w))) ->
  let revoked := request (revoke_api_key key) w in
  fst revoked = Ok "API key revoked." ->
  fst (request (require_api_key cfg (Some key)) (snd revoked))
    = Raise (HTTPException 403 "Invalid or revoked API key.").
Proof.
  intros Hf Hon Hkey Hnd. destruct w as [db ses u rd flt]. cbn in Hf, Hnd. subst flt. cbv zeta.
  rewrite revoke_api_key_run.
  destruct (find _ (api_keys db)) as [r |] eqn:Hfind; cbn [fst snd]; [| discriminate].
  intros _. rewrite require_api_key_run, Hon, Hkey. cbn [negb].
  replace (find (valid_key key) _) with (@None ApiKey); [reflexivity |].
  symmetry. apply find_none_iff. intros x Hx. cbn [api_keys set_api_keys] in Hx.
  apply in_map_iff in Hx as (k & <- & Hk).
  apply find_some in Hfind as [Hr Hrk]. apply String.eqb_eq in Hrk.
  unfold valid_key.
  destruct (key_id k =? key_id r) eqn:E.
  - cbn. apply andb_false_r.
  - destruct (String.eqb_spec (key_key k) key) as [Hkk | Hkk]; [| reflexivity].
    exfalso. assert (k = r); [| subst; rewrite Z.eqb_refl in E; discriminate].
    clear E. rewrite <- Hrk in Hkk. clear Hrk.
    induction (api_keys db) as [| y l IH]; [contradiction |].
    cbn in Hnd. inversion Hnd as [| ? ? Hny Hndl]; subst.
    destruct Hk as [-> | Hk], Hr as [-> | Hr]; auto.
    + exfalso. apply Hny. rewrite Hkk. now apply in_map.
    + exfalso. apply Hny. rewrite <- Hkk. now apply in_map.
Qed.

Lemma revoked_key_is_refused_witness :
  let keys := [mkApiKey 1 "k-one" "ops" true 0 None 0; mkApiKey 2 "k-two" "ci" true 0 None 4] in
  let w := mkWorld (set_api_keys (fun _ => keys) demo_db) demo_db (fun n => Z.of_nat n) 0 None in
  fst (request (require_api_key (mkConfig "owm" "s" (Some "TRUE")) (Some "k-two"))
               (snd (request (revoke_api_key "k-two") w)))
    = Raise (HTTPException 403 "Invalid or revoked API key.").
Proof.
  cbv zeta.
  apply (revoked_key_is_refused (mkConfig "owm" "s" (Some "TRUE")) "k-two");
    try reflexivity.
  cbn. repeat constructor; cbn; intuition discriminate.
Defined.

Lemma create_api_key_run (label token : string) (db ses : Database) (u : nat -> Time) (rd : nat) :
  let key := mkApiKey (next_id (map key_id (api_keys db))) token label true (u rd) None 0 in
  request (create_api_key label token) (mkWorld db ses u rd None) =
  (Ok key, mkWorld (set_api_keys (fun ks => ks ++ [key]) db)
                   (set_api_keys (fun ks => ks ++ [key]) db) u (S rd) None).
Proof. reflexivity. Qed.

(** X12. a key made by [create_api_key] works at once: the token being new
    (the [unique] column then accepts it), the next request that presents
    it is let in and is served by the created row itself, its call count
    raised from 0 to 1. *)
Theorem created_key_is_accepted (cfg : Config) (label token : string) (w : World) :
  fault w = None ->
  auth_on cfg = true ->
  str_falsy token = false ->
  ~ In token (map key_key (api_keys (durable w))) ->
  let created := request (create_api_key label token) w in
  exists key row,
    fst created = Ok key
    /\ key_key key = token /\ key_is_active key = true /\ key_call_count key = 0
    /\ fst (request (require_api_key cfg (Some token)) (snd created)) = Ok (Some row)
    /\ key_id row = key_id key /\ key_key row = token /\ key_is_active row = true
    /\ key_call_count row = 1.
Proof.
  intros Hf Hon Htok Hnew. destruct w as [db ses u rd flt]. cbn in Hf. subst flt. cbv zeta.
  rewrite create_api_key_run. cbv zeta. cbn [fst snd].
  rewrite require_api_key_run, Hon, Htok. cbn [negb api_keys set_api_keys].
  set (key := mkApiKey _ token label true (u rd) None 0).
  assert (Hnone : find (valid_key token) (api_keys db) = None).
  { apply find_none_iff. intros k Hk. unfold valid_key.
    destruct (String.eqb (key_key k) token) eqn:E; [| reflexivity].
    apply String.eqb_eq in E. exfalso. apply Hnew. cbn [durable].
    rewrite <- E. now apply in_map. }
  rewrite (find_app_none _ _ key Hnone).
  2:{ unfold valid_key. cbn. now rewrite String.eqb_refl. }
  cbn [fst].
  exists key, (update_key key (u (S rd))). repeat split; auto.
Qed.

Lemma created_key_is_accepted_witness :
  exists key row,
    fst (request (create_api_key "ci" "t0k3n") (demo_world None)) = Ok key
    /\ fst (request (require_api_key (mkConfig "owm" "s" (Some "true")) (Some "t0k3n"))
                    (snd (request (create_api_key "ci" "t0k3n") (demo_world None))))
       = Ok (Some row)
    /\ key_call_count row = 1.
Proof.
  assert (Hnew : ~ In "t0k3n"%string (map key_key (api_keys (durable (demo_world None))))).
  { cbn. intuition discriminate. }
  destruct (created_key_is_accepted (mkConfig "owm" "s" (Some "true")) "ci" "t0k3n"
              (demo_world None) eq_refl eq_refl eq_refl Hnew)
    as (key & row & H1 & _ & _ & _ & H2 & _ & _ & _ & H3).
  exists key, row. auto.
Defined.

(* ===================================================================== *)
(** * Geocoding and the search history                                   *)
(* ===================================================================== *)

Lemma log_search_run (query : string) (geo : option Geo) (success : bool)
    (db ses : Database) (u : nat -> Time) (rd : nat) :
  let row := mkSearchHistory (next_id (map search_id (search_history ses))) query
      (match geo with Some g => Some (fmt (geo_name g) ++ ", " ++ fmt (geo_country g))%string
                    | None => None end)
      (match geo with Some g => sqlite_real (geo_lat g) | None => None end)
      (match geo with Some g => sqlite_real (geo_lon g) | None => None end)
      (u rd) success in
  _log_search query geo success (mkWorld db ses u rd None) =
  (Ok tt, mkWorld (set_search_history (fun hs => hs ++ [row]) ses)
                  (set_search_history (fun hs => hs ++ [row]) ses) u (S rd) None).
Proof. reflexivity. Qed.

(** X13. every geocoding request that got an HTTP answer is logged exactly
    once: a status other than 200 and an empty result list log a failed
    search (and raise the upstream status, or 404), a first match with
    coordinates logs a successful one; a transport error logs nothing. *)
Theorem geocoding_logs_each_answered_search
    (cfg : Config) (city : string) (resp : Fetch (list GeoLoc)) (w : World) :
  fault w = None ->
  str_falsy (OWM_API_KEY cfg) = false ->
  let out := request (geocode_city cfg city resp) w in
  match resp with
  | FetchRaised msg => fst out = Raise (TransportError msg) /\ durable (snd out) = durable w
  | FetchResponse status (Parsed []) =>
      logged_search w (snd out) city false
      /\ exists detail, fst out = Raise (HTTPException (if status =? 200 then 404 else status) detail)
  | FetchResponse status (Parsed (loc :: _)) =>
      if status =? 200 then
        match loc_lat loc, loc_lon loc with
        | Some lat, Some lon =>
            logged_search w (snd out) city true
            /\ (forall n c, loc_name loc = Some n -> loc_country loc = Some c ->
                  fst out = Ok (mkGeoResponse n c (get_or (loc_state loc) "") lat lon))
        | _, _ => (exists key, fst out = Raise (KeyError key)) /\ durable (snd out) = durable w
        end
      else logged_search w (snd out) city false
           /\ fst out = Raise (HTTPException status "Geocoding API error.")
  | FetchResponse status (Malformed msg) =>
      if status =? 200 then
        fst out = Raise (JSONDecodeError msg) /\ durable (snd out) = durable w
      else logged_search w (snd out) city false
           /\ fst out = Raise (HTTPException status "Geocoding API error.")
  end.
Proof.
  intros Hf Hkey. destruct w as [db ses u rd flt]. cbn in Hf. subst flt. cbv zeta.
  unfold request, geocode_city. rewrite Hkey. run_world.
  assert (Hlog : forall g s, logged_search (mkWorld db ses u rd None)
            (snd (_log_search city g s (mkWorld db db u rd None))) city s).
  { intros g s. rewrite log_search_run. cbv zeta. eexists.
    cbn [snd durable set_search_history search_history cities alerts weather_logs].
    repeat split. }
  destruct resp as [msg | status [msg | [| loc rest]]].
  - split; reflexivity.
  - destruct (status =? 200); cbn [negb resp_json].
    + split; reflexivity.
    + rewrite (bind_ok _ _ _ _ _ (log_search_run _ _ _ _ _ _ _)). cbv zeta.
      split; [| reflexivity]. exact (Hlog None false).
  - destruct (status =? 200); cbn [negb resp_json].
    + rewrite bind_ret, (bind_ok _ _ _ _ _ (log_search_run _ _ _ _ _ _ _)). cbv zeta.
      split; [exact (Hlog None false) | eexists; reflexivity].
    + rewrite (bind_ok _ _ _ _ _ (log_search_run _ _ _ _ _ _ _)). cbv zeta.
      split; [exact (Hlog None false) | eexists; reflexivity].
  - destruct (status =? 200); cbn [negb resp_json].
    + rewrite bind_ret.
      destruct (loc_lat loc) as [lat |]; [| split; [eexists |]; reflexivity].
      destruct (loc_lon loc) as [lon |]; [| split; [eexists |]; reflexivity].
      rewrite (bind_ok _ _ _ _ _ (log_search_run _ _ _ _ _ _ _)). cbv zeta.
      split; [exact (Hlog (Some _) true) |].
      intros n c Hn Hc. unfold lift, geo_response. cbn [geo_name geo_country fst].
      rewrite Hn, Hc. reflexivity.
    + rewrite (bind_ok _ _ _ _ _ (log_search_run _ _ _ _ _ _ _)). cbv zeta.
      split; [exact (Hlog None false) | reflexivity].
Qed.

Lemma geocoding_logs_each_answered_search_witness :
  logged_search (demo_world None)
    (snd (request (geocode_city demo_cfg "Atlantis" (FetchResponse 200 (Parsed []))) (demo_world None)))
    "Atlantis" false.
Proof.
  exact (proj1 (geocoding_logs_each_answered_search demo_cfg "Atlantis"
                  (FetchResponse 200 (Parsed [])) (demo_world None) eq_refl eq_refl)).
Defined.

(* ===================================================================== *)
(** * Statistics                                                         *)
(* ===================================================================== *)

Lemma get_stats_run (db ses : Database) (u : nat -> Time) (rd : nat) :
  request get_stats (mkWorld db ses u rd None) =
  (Ok (mkStatsResponse (List.length (search_history db)) (List.length (cities db))
         (List.length (weather_logs db)) (List.length (alerts db))
         (List.length (filter (fun l => is_high (log_flood_level l)) (weather_logs db)))),
   mkWorld db db u rd None).
Proof. reflexivity. Qed.

(** X14. the statistics follow the log: after a [save_log] weather request
    the count of weather logs is one more, the count of high-risk events is
    one more exactly when the response's level is HIGH, and the other counts
    are as before; high-risk events never outnumber the logs. *)
Theorem stats_follow_the_weather_log
    (cfg : Config) (d : OwmData) (w0 : WeatherItem) (city : Z) (w : World) :
  str_falsy (OWM_API_KEY cfg) = false ->
  healthy w ->
  first_weather d = Ok w0 ->
  city <> 0 ->
  let w' := snd (request (get_weather cfg (ok_response d) true (Some city)) w) in
  exists s s',
    fst (request get_stats w) = Ok s /\ fst (request get_stats w') = Ok s'
    /\ total_weather_logs s' = S (total_weather_logs s)
    /\ high_risk_events s' =
         (high_risk_events s + if is_high (level (flood_of d)) then 1 else 0)%nat
    /\ total_alerts s' = total_alerts s
    /\ total_cities_saved s' = total_cities_saved s
    /\ total_searches s' = total_searches s
    /\ (high_risk_events s <= total_weather_logs s)%nat
    /\ (high_risk_events s' <= total_weather_logs s')%nat.
Proof.
  intros Hkey [Hf Hnd] Hw0 Hcity. destruct w as [db ses u rd flt].
  cbn in Hf, Hnd. subst flt. cbv zeta.
  rewrite (get_weather_save_run cfg d w0 city db ses u rd None Hkey Hw0 Hcity Hnd).
  cbn [snd]. rewrite !get_stats_run. eexists _, _.
  split; [reflexivity | split; [reflexivity |]].
  cbn [total_weather_logs high_risk_events total_alerts total_cities_saved total_searches
       fired logged set_alerts set_weather_logs weather_logs alerts cities search_history].
  rewrite filter_app, !length_app, fire_result_length. cbn [filter snapshot new_weather_log log_flood_level].
  pose proof (filter_length_le (fun l => is_high (log_flood_level l)) (weather_logs db)).
  destruct (is_high (level (flood_of d))); cbn [List.length]; repeat split; lia.
Qed.

(* ===================================================================== *)
(** * The live feed, the forecast and the flood history                  *)
(* ===================================================================== *)

Lemma emitted_sleeps (interval : Z) (evs : list Json) (a : Action) :
  In a (emitted interval evs) -> forall s, a = Sleep s -> s = interval.
Proof.
  induction evs as [| e r IH]; cbn; [tauto |].
  intros [<- | [<- | H]] s Hs; [discriminate | congruence | eauto].
Qed.

Lemma event_generator_sleeps (interval : Z) (cycles : list Cycle) : forall w trace st w',
  event_generator interval cycles w = (Ok (trace, st), w') ->
  forall s, In (Sleep s) trace -> s = interval.
Proof.
  induction cycles as [| c rest IH]; intros w trace st w' Hrun s Hin.
  - cbn in Hrun. inversion Hrun; subst. contradiction.
  - cbn [event_generator] in Hrun.
    destruct (cycle_fetch c) as [resp |]; [| inversion Hrun; subst; contradiction].
    destruct (stream_event_run resp w) as (ev & k & Hev & _).
    rewrite (bind_ok _ _ _ _ _ Hev) in Hrun.
    destruct (cycle_next c); cbn [negb] in Hrun.
    2: { inversion Hrun; subst. destruct Hin as [H | []]; discriminate. }
    destruct (cycle_slept c); cbn [negb] in Hrun.
    2: { inversion Hrun; subst. destruct Hin as [H | [H | []]]; [discriminate | congruence]. }
    destruct (event_generator_total interval rest
                (mkWorld (durable w) (session w) (utc w) k (fault w)))
      as (tr & st' & k' & Hrest & _).
    rewrite (bind_ok _ _ _ _ _ Hrest) in Hrun. inversion Hrun; subst. cbn [fst] in Hin.
    destruct Hin as [H | [H | H]]; [discriminate | congruence |].
    exact (IH _ _ _ _ Hrest s H).
Qed.

(** What a run of the generator emits: an event and a pause for each
    cycle it went through, and at most one more event, the one at which the
    consumer closed it. *)
Lemma event_generator_shape (interval : Z) (cycles : list Cycle) : forall w trace st w',
  event_generator interval cycles w = (Ok (trace, st), w') ->
  exists evs last,
    trace = emitted interval evs ++ last
    /\ (last = [] \/ exists ev, last = [Yield ev])
    /\ (List.length evs + List.length last <= List.length cycles)%nat.
Proof.
  induction cycles as [| c rest IH]; intros w trace st w' Hrun.
  - cbn in Hrun. inversion Hrun; subst. exists [], []. cbn. auto.
  - cbn [event_generator] in Hrun.
    destruct (cycle_fetch c) as [resp |].
    2: { inversion Hrun; subst. exists [], []. cbn. split; [reflexivity | split; [auto | lia]]. }
    destruct (stream_event_run resp w) as (ev & k & Hev & _).
    rewrite (bind_ok _ _ _ _ _ Hev) in Hrun.
    destruct (cycle_next c); cbn [negb] in Hrun.
    2: { inversion Hrun; subst. exists [], [Yield ev]. cbn.
         split; [reflexivity | split; [eauto | lia]]. }
    destruct (cycle_slept c); cbn [negb] in Hrun.
    2: { inversion Hrun; subst. exists [ev], []. cbn.
         split; [reflexivity | split; [auto | lia]]. }
    destruct (event_generator_total interval rest
                (mkWorld (durable w) (session w) (utc w) k (fault w)))
      as (tr & st' & k' & Hrest & _).
    rewrite (bind_ok _ _ _ _ _ Hrest) in Hrun. inversion Hrun; subst. cbn [fst].
    destruct (IH _ _ _ _ Hrest) as (evs & last & -> & Hlast & Hlen).
    exists (ev :: evs), last. cbn [emitted List.length app].
    split; [reflexivity | split; [exact Hlast | lia]].
Qed.

(** X15. [weather_stream] refuses an interval outside 10..300 seconds before
    any event; otherwise the feed never raises, leaves the database and the
    session untouched whatever the fetches return, and emits per cycle at
    most one event followed by at most one pause: its trace is an event
    and a pause for each of some cycles, then possibly one last event, and
    no more of them than there are cycles.  Every pause is the requested
    interval (60 seconds by default), so between 10 and 300 seconds. *)
Theorem live_feed_pace_and_isolation
    (cfg : Config) (interval : option Z) (cycles : list Cycle) (w : World) :
  str_falsy (OWM_API_KEY cfg) = false ->
  let secs := get_or interval 60 in
  if (10 <=? secs) && (secs <=? 300) then
    exists trace st w',
      weather_stream cfg interval cycles w = (Ok (trace, st), w')
      /\ durable w' = durable w /\ session w' = session w /\ fault w' = fault w
      /\ (forall s, In (Sleep s) trace -> s = secs /\ 10 <= s <= 300)
      /\ (exists evs last,
            trace = emitted secs evs ++ last
            /\ (last = [] \/ exists ev, last = [Yield ev])
            /\ (List.length evs + List.length last <= List.length cycles)%nat)
  else weather_stream cfg interval cycles w = (Raise RequestValidationError, w).
Proof.
  intros Hkey secs. unfold weather_stream. fold secs. rewrite Hkey.
  destruct ((10 <=? secs) && (secs <=? 300)) eqn:Hb; cbn [negb]; [| reflexivity].
  destruct (event_generator_total secs cycles w) as (trace & st & k & Hrun & _).
  eexists _, _, _. split; [exact Hrun |]. cbn [durable session fault].
  split; [reflexivity | split; [reflexivity | split; [reflexivity | split]]].
  - intros s H.
    rewrite (event_generator_sleeps secs cycles w trace st _ Hrun s H).
    apply andb_true_iff in Hb as [H1 H2]. apply Z.leb_le in H1, H2. auto.
  - exact (event_generator_shape secs cycles w trace st _ Hrun).
Qed.

Lemma live_feed_pace_and_isolation_witness :
  weather_stream demo_cfg (Some 5) [mkCycle (Some (ok_response demo_owm)) true true]
                 (demo_world None)
  = (Raise RequestValidationError, demo_world None)
  /\ exists trace st w',
       weather_stream demo_cfg (Some 30)
         [mkCycle (Some (ok_response demo_owm)) true true;
          mkCycle (Some (FetchRaised "timed out")) false true] (demo_world None)
       = (Ok (trace, st), w')
       /\ durable w' = demo_db
       /\ exists evs last, trace = emitted 30 evs ++ last
                            /\ (List.length evs + List.length last <= 2)%nat.
Proof.
  split.
  - exact (live_feed_pace_and_isolation demo_cfg (Some 5)
             [mkCycle (Some (ok_response demo_owm)) true true] (demo_world None) eq_refl).
  - destruct (live_feed_pace_and_isolation demo_cfg (Some 30)
                [mkCycle (Some (ok_response demo_owm)) true true;
                 mkCycle (Some (FetchRaised "timed out")) false true]
                (demo_world None) eq_refl)
      as (trace & st & w' & Hrun & Hd & _ & _ & _ & (evs & last & Ht & _ & Hlen)).
    exists trace, st, w'. split; [exact Hrun | split; [exact Hd |]].
    exists evs, last. split; [exact Ht | exact Hlen].
Defined.

Lemma forecast_item_usable (s : Slot) :
  if usable_slot s then
    exists it, forecast_item s = Ok it
      /\ fi_flood_risk it = calculate_flood_probability 0 (get_or (slot_rain_3h s) 0%float)
           (get_or (slot_humidity s) 0%float) (get_or (slot_wind_speed s) 0%float)
           (get_or (slot_clouds_all s) 0%float)
      /\ Some (fi_dt it) = slot_dt s
  else exists e, forecast_item s = Raise e.
Proof.
  unfold usable_slot, forecast_item.
  destruct (slot_dt s) as [dt |]; [| eexists; reflexivity].
  destruct (slot_weather s) as [[| x r] |]; eexists; try reflexivity; repeat split.
Qed.

(** X16. the forecast is all or nothing: when every slot has its ["dt"] and
    no empty ["weather"] list there is one item per slot, in order, each
    scored with no hourly rain ([rain_1h = 0]); one slot without ["dt"] or
    with an empty ["weather"] list fails the whole forecast. *)
Theorem forecast_is_all_or_nothing (slots : list Slot) :
  if forallb usable_slot slots then
    exists items,
      forecast_items slots = Ok items
      /\ Forall2 (fun s it =>
           Some (fi_dt it) = slot_dt s
           /\ fi_flood_risk it =
                calculate_flood_probability 0 (get_or (slot_rain_3h s) 0%float)
                  (get_or (slot_humidity s) 0%float) (get_or (slot_wind_speed s) 0%float)
                  (get_or (slot_clouds_all s) 0%float)) slots items
  else exists e, forecast_items slots = Raise e.
Proof.
  induction slots as [| s r IH]; cbn [forallb forecast_items].
  - exists []. split; [reflexivity | constructor].
  - pose proof (forecast_item_usable s) as Hs.
    destruct (usable_slot s); cbn [andb].
    + destruct Hs as (it & Hit & Hf & Hdt). rewrite Hit.
      destruct (forallb usable_slot r).
      * destruct IH as (items & Hitems & Hall). rewrite Hitems.
        exists (it :: items). split; [reflexivity |]. constructor; auto.
      * destruct IH as (e & He). rewrite He. eauto.
    + destruct Hs as (e & He). rewrite He. eauto.
Qed.


Lemma toggle_favorite_twice_restores_witness :
  durable (snd (request (toggle_favorite 1)
                  (snd (request (toggle_favorite 1) (demo_world None))))) = demo_db.
Proof. exact (proj1 (toggle_favorite_twice_restores 1 (demo_world None) eq_refl)). Defined.

Lemma delete_city_cascades_witness :
  city_by_id 1 (durable (snd (request (delete_city 1) (demo_world None)))) = None.
Proof.
  exact (proj1 (proj2 (delete_city_cascades 1 demo_city (demo_world None) eq_refl eq_refl))).
Defined.

Lemma delete_alert_removes_only_that_alert_witness :
  fst (request (delete_alert 2) (demo_world None)) = Ok "Alert #2 deleted."
  /\ fst (request (delete_alert 7) (demo_world None)) = Raise (HTTPException 404 "Alert not found.").
Proof.
  pose proof (delete_alert_removes_only_that_alert 2 (demo_world None) eq_refl) as H2.
  pose proof (delete_alert_removes_only_that_alert 7 (demo_world None) eq_refl) as H7.
  cbv zeta in H2, H7. destruct H2 as (H2 & _). destruct H7 as (_ & H7 & _).
  split.
  - apply H2. cbn. auto.
  - apply H7. cbn. intuition discriminate.
Defined.

Lemma create_alert_needs_city_and_gives_fresh_id_witness :
  fst (request (create_alert (mkAlertCreate 9 50 "")) (demo_world None))
  = Raise (HTTPException 404 "City ID 9 not found. Save the city first.").
Proof.
  exact (proj1 (proj1 (create_alert_needs_city_and_gives_fresh_id (mkAlertCreate 9 50 "")
                         (demo_world None) eq_refl) eq_refl)).
Defined.

Lemma check_alerts_report_witness :
  exists r,
    fst (request (check_alerts demo_cfg 1 (ok_response demo_owm)) (demo_world None)) = Ok r
    /\ cr_total_active_alerts r = 2%nat
    /\ map tr_alert_id (cr_alerts_triggered r) = [1].
Proof.
  destruct (check_alerts_report demo_cfg demo_owm 1 demo_city (demo_world None)
              eq_refl demo_world_healthy eq_refl)
    as (r & H1 & _ & _ & _ & H2 & H3 & _).
  exists r. split; [exact H1 | split].
  - rewrite H2. reflexivity.
  - rewrite H3. vm_compute. reflexivity.
Defined.

Lemma both_evaluation_paths_fire_the_same_alerts_witness :
  map (fun a => (alert_id a, alert_trigger_count a))
      (alerts (durable (snd (request (check_alerts demo_cfg 1 (ok_response demo_owm))
                                     (demo_world None)))))
  = map (fun a => (alert_id a, alert_trigger_count a))
      (alerts (durable (snd (request (get_weather demo_cfg (ok_response demo_owm) true (Some 1))
                                     (demo_world None))))).
Proof.
  exact (both_evaluation_paths_fire_the_same_alerts demo_cfg demo_owm (mkWeatherItem None None)
           1 demo_city (demo_world None) eq_refl demo_world_healthy eq_refl eq_refl
           ltac:(discriminate)).
Defined.

Lemma snapshot_matches_response_witness :
  exists r log,
    fst (request (get_weather demo_cfg (ok_response demo_owm) true (Some 1)) (demo_world None))
      = Ok r
    /\ weather_logs (durable (snd (request (get_weather demo_cfg (ok_response demo_owm) true
                                              (Some 1)) (demo_world None)))) = [log]
    /\ log_flood_score log = sqlite_real (score (wr_flood_risk r))
    /\ score (wr_flood_risk r) = 50%float.
Proof.
  destruct (snapshot_matches_response demo_cfg demo_owm (mkWeatherItem None None) 1
              (demo_world None) eq_refl demo_world_healthy eq_refl ltac:(discriminate))
    as (r & log & H1 & H2 & _ & H3 & _).
  exists r, log. repeat split; auto.
  vm_compute in H1. injection H1 as <-. reflexivity.
Defined.

Lemma failed_weather_request_writes_nothing_witness :
  durable (snd (request (get_weather demo_cfg (FetchResponse 502 (Malformed "bad gateway"))
                           true (Some 1)) (demo_world None))) = demo_db.
Proof.
  refine (proj2 (failed_weather_request_writes_nothing demo_cfg
                   (FetchResponse 502 (Malformed "bad gateway")) 1 (demo_world None) eq_refl _)).
  right. right. left. exists 502, (Malformed "bad gateway"). split; [reflexivity | discriminate].
Defined.

Lemma require_api_key_outcomes_witness :
  fst (request (require_api_key demo_cfg (Some "anything")) (demo_world None)) = Ok None
  /\ fst (request (require_api_key (mkConfig "owm" "s" (Some "True")) None) (demo_world None))
     = Raise (HTTPException 401 "Missing X-API-Key header.").
Proof.
  split.
  - exact (proj1 (proj1 (require_api_key_outcomes demo_cfg (Some "anything") (demo_world None)
                           eq_refl) eq_refl)).
  - exact (proj1 (proj2 (require_api_key_outcomes (mkConfig "owm" "s" (Some "True")) None
                           (demo_world None) eq_refl) eq_refl)).
Defined.

Lemma stats_follow_the_weather_log_witness :
  exists s s',
    fst (request get_stats (demo_world None)) = Ok s
    /\ fst (request get_stats
              (snd (request (get_weather demo_cfg (ok_response demo_owm) true (Some 1))
                            (demo_world None)))) = Ok s'
    /\ total_weather_logs s' = S (total_weather_logs s).
Proof.
  destruct (stats_follow_the_weather_log demo_cfg demo_owm (mkWeatherItem None None) 1
              (demo_world None) eq_refl demo_world_healthy eq_refl ltac:(discriminate))
    as (s & s' & H1 & H2 & H3 & _).
  exists s, s'. auto.
Defined.

(* ===================================================================== *)
(** * Guards run before the handler                                      *)
(* ===================================================================== *)

(** [require_api_key] on a fresh session: it raises and leaves the world
    as it was, or answers with everything it wrote committed. *)
Lemma require_api_key_commits (cfg : Config) (api_key : option string)
    (db : Database) (u : nat -> Time) (rd : nat) :
  let w := mkWorld db db u rd None in
  (exists e, require_api_key cfg api_key w = (Raise e, w))
  \/ (exists row db' rd',
        require_api_key cfg api_key w = (Ok row, mkWorld db' db' u rd' None)).
Proof.
  cbv zeta. unfold require_api_key.
  destruct (negb _); [right; exists None, db, rd; reflexivity |].
  destruct api_key as [key |]; [| left; eexists; reflexivity].
  destruct (str_falsy key); [left; eexists; reflexivity |].
  rewrite (bind_ok _ _ _ _ _ (db_query_run _ _ _ _ _)).
  destruct (find _ (api_keys db)) as [row |]; [| left; eexists; reflexivity].
  right. eexists _, _, _. reflexivity.
Qed.

(** X25. the guards run before the handler, whatever the handler is.  A
    request with a wrong admin secret, or one that [require_api_key]
    refuses, raises the guard's error without running the handler and
    writes nothing.  A request that [require_api_key] lets in is the
    handler run on the database the guard left: the key's use is committed
    first and stays recorded even when the handler then raises. *)
Theorem guards_run_before_the_handler {A : Type}
    (cfg : Config) (handler : M A) (w : World) :
  fault w = None ->
  (forall secret, secret <> ADMIN_SECRET cfg ->
     request (admin_route cfg secret handler) w
     = (Raise (HTTPException 403 "Invalid admin secret."), db_close w))
  /\ (forall api_key,
        match fst (request (require_api_key cfg api_key) w) with
        | Raise e => request (api_route cfg api_key handler) w = (Raise e, db_close w)
        | Ok _ =>
            request (api_route cfg api_key handler) w
            = request handler (snd (request (require_api_key cfg api_key) w))
        end).
Proof.
  intros Hf. destruct w as [db ses u rd flt]. cbn in Hf. subst flt. split.
  - intros secret Hs. unfold request, admin_route, require_admin.
    apply String.eqb_neq in Hs. rewrite Hs. reflexivity.
  - intros api_key. unfold request, api_route. run_world.
    destruct (require_api_key_commits cfg api_key db u rd)
      as [(e & He) | (row & db' & rd' & He)]; cbv zeta in He.
    + rewrite He. cbn [fst]. rewrite (bind_raise _ _ _ _ _ He). reflexivity.
    + rewrite He. cbn [fst snd]. rewrite (bind_ok _ _ _ _ _ He). run_world. reflexivity.
Qed.

Lemma guards_run_before_the_handler_witness :
  let key := mkApiKey 1 "k-one" "ci" true 5 None 0 in
  let w := mkWorld (mkDatabase [] [] [] [] [key]) (mkDatabase [] [] [] [] [key])
                   (fun n => 1000 + Z.of_nat n) 0 None in
  let cfg := mkConfig "owm" "s3cret" (Some "true") in
  request (api_route cfg None (delete_city 7)) w
    = (Raise (HTTPException 401 "Missing X-API-Key header."), db_close w)
  /\ request (api_route cfg (Some "k-one") (delete_city 7)) w
     = request (delete_city 7) (snd (request (require_api_key cfg (Some "k-one")) w))
  /\ fst (request (api_route cfg (Some "k-one") (delete_city 7)) w)
     = Raise (HTTPException 404 "City not found.")
  /\ map key_call_count
       (api_keys (durable (snd (request (api_route cfg (Some "k-one") (delete_city 7)) w))))
     = [1].
Proof.
  cbv zeta.
  destruct (guards_run_before_the_handler
              (mkConfig "owm" "s3cret" (Some "true")) (delete_city 7)
              (mkWorld (mkDatabase [] [] [] [] [mkApiKey 1 "k-one" "ci" true 5 None 0])
                       (mkDatabase [] [] [] [] [mkApiKey 1 "k-one" "ci" true 5 None 0])
                       (fun n => 1000 + Z.of_nat n) 0%nat None) eq_refl) as [_ H].
  split; [exact (H None) |]. split; [exact (H (Some "k-one")) |].
  split; reflexivity.
Defined.

(* ===================================================================== *)
(** * Failures of the persistence layer in the one-commit handlers       *)
(* ===================================================================== *)

Ltac run_faulty :=
  unfold request, db_query, db_commit, db_refresh, persistence_call, read_session,
         write_session, utcnow, bind, ret, raise, db_close;
  cbn [fault durable session utc reads fst snd].

Lemma delete_city_faulty (city : Z) (db ses : Database) (u : nat -> Time) (rd : nat)
    (flt : option nat) :
  let out := request (delete_city city) (mkWorld db ses u rd flt) in
  (exists e, fst out = Raise e /\ durable (snd out) = db)
  \/ (exists c, city_by_id city db = Some c
        /\ fst out = Ok ("City '" ++ city_name c ++ "' deleted.")%string
        /\ durable (snd out) = without_city c db).
Proof.
  cbv zeta. unfold delete_city, db_delete_city.
  destruct flt as [[| [| [| k]]] |]; run_faulty;
    try (left; eexists; split; reflexivity);
    destruct (city_by_id city db) as [c |] eqn:Ec; run_faulty;
    try (left; eexists; split; reflexivity);
    right; exists c; repeat split.
Qed.

(** X22. a failed [delete_city] deletes nothing: whichever call into the
    persistence layer fails, the request either raises with the database
    as it was, or answers with the city, all of its weather logs and all of
    its alerts gone; the cascade is never left half done. *)
Theorem delete_city_is_all_or_nothing (city : Z) (w : World) :
  let out := request (delete_city city) w in
  (exists e, fst out = Raise e /\ durable (snd out) = durable w)
  \/ (exists c, city_by_id city (durable w) = Some c
        /\ fst out = Ok ("City '" ++ city_name c ++ "' deleted.")%string
        /\ durable (snd out) = without_city c (durable w)
        /\ city_by_id city (durable (snd out)) = None
        /\ Forall (fun a => alert_city_id a <> city) (alerts (durable (snd out)))
        /\ Forall (fun l => log_city_id l <> city) (weather_logs (durable (snd out)))).
Proof.
  destruct w as [db ses u rd flt]. cbv zeta. cbn [durable].
  destruct (delete_city_faulty city db ses u rd flt) as [H | (c & Hc & Hr & Hd)];
    cbv zeta in *; [left; exact H | right].
  exists c. rewrite Hd. repeat split; auto.
  - pose proof (city_by_id_key _ _ _ Hc) as Hid. unfold city_by_id, without_city.
    cbn [cities]. rewrite Hid. apply find_none_iff. intros x Hx.
    apply filter_In in Hx as [_ Hx]. now apply negb_true_iff in Hx.
  - pose proof (city_by_id_key _ _ _ Hc) as Hid. unfold without_city. cbn [alerts].
    rewrite Hid. apply Forall_forall. intros a Ha. apply filter_In in Ha as [_ Ha].
    apply negb_true_iff, Z.eqb_neq in Ha. exact Ha.
  - pose proof (city_by_id_key _ _ _ Hc) as Hid. unfold without_city. cbn [weather_logs].
    rewrite Hid. apply Forall_forall. intros l Hl. apply filter_In in Hl as [_ Hl].
    apply negb_true_iff, Z.eqb_neq in Hl. exact Hl.
Qed.








Lemma dict_get_in {A} (d : list (string * A)) (key : string) (v : A) :
  dict_get d key = Some v -> In (key, v) d.
Proof.
  induction d as [| [k x] r IH]; cbn; [discriminate |].
  destruct (String.eqb_spec k key) as [-> | _]; [intros [= ->]; now left | auto].
Qed.

Lemma first_related_in (d : list (string * list FloodEvent)) (s : string) (v : list FloodEvent) :
  first_related d s = Some v -> exists k, In (k, v) d /\ k <> "default".
Proof.
  induction d as [| [k x] r IH]; cbn; [discriminate |].
  destruct (String.eqb_spec k "default") as [E | E]; cbn [negb andb].
  - intros H. destruct (IH H) as (k' & Hin & Hk). eauto.
  - destruct (str_in k s || str_in s k).
    + intros [= ->]. exists k. auto.
    + intros H. destruct (IH H) as (k' & Hin & Hk). eauto.
Qed.

(** X17. [get_flood_history] always answers with one of the dictionary's
    lists, and never with an empty one, whatever [lower] and [strip] make
    of the name: the count that [flood_history] returns is at least 1 and
    is the number of events. *)
Theorem flood_history_is_never_empty (lower strip : string -> string) (city : string) :
  (exists key, In (key, get_flood_history lower strip city) HISTORICAL_FLOODS)
  /\ get_flood_history lower strip city <> []
  /\ snd (flood_history lower strip city) = List.length (get_flood_history lower strip city)
  /\ (1 <= snd (flood_history lower strip city))%nat.
Proof.
  assert (Hin : exists key, In (key, get_flood_history lower strip city) HISTORICAL_FLOODS).
  { unfold get_flood_history, flood_history_in.
    destruct (dict_get HISTORICAL_FLOODS _) as [v |] eqn:E1.
    - eexists. exact (dict_get_in _ _ _ E1).
    - destruct (first_related HISTORICAL_FLOODS _) as [v |] eqn:E2.
      + destruct (first_related_in _ _ _ E2) as (k & Hk & _). eauto.
      + exists "default". apply dict_get_in. reflexivity. }
  assert (Hne : Forall (fun kv : string * list FloodEvent => snd kv <> []) HISTORICAL_FLOODS).
  { repeat constructor; discriminate. }
  destruct Hin as [key Hkey].
  pose proof (proj1 (Forall_forall _ _) Hne _ Hkey) as Hv. cbn [snd] in Hv.
  split; [eauto | split; [exact Hv | split; [reflexivity |]]].
  unfold flood_history. cbn [snd].
  destruct (get_flood_history lower strip city); [contradiction | cbn; lia].
Qed.

Lemma str_in_empty (b : string) : str_in "" b = true.
Proof. destruct b; reflexivity. Qed.

Lemma historical_lookup (k : string) (v : list FloodEvent) :
  In (k, v) HISTORICAL_FLOODS -> dict_get HISTORICAL_FLOODS k = Some v.
Proof.
  intros Hin. cbn in Hin.
  repeat (destruct Hin as [[= <- <-] | Hin]; [reflexivity |]). contradiction.
Qed.

(** X18. the lookup goes by the lowered, trimmed name [s] alone: two names
    with the same [s] get the same events; when [s] is a key the answer is
    that key's list and no other ("default" included), before any partial
    match is tried; when [s] is empty (a blank name, which the route's
    [min_length=1] lets through) the answer is the list of the first key,
    Mumbai, since the empty string occurs in every key, and not the
    default. *)
Theorem flood_history_lookup (lower strip : string -> string) (city : string) :
  let s := strip (lower city) in
  (forall city', strip (lower city') = s ->
     get_flood_history lower strip city' = get_flood_history lower strip city)
  /\ (forall events, In (s, events) HISTORICAL_FLOODS ->
        get_flood_history lower strip city = events)
  /\ (s = "" ->
      Some (get_flood_history lower strip city) = dict_get HISTORICAL_FLOODS "mumbai"
      /\ Some (get_flood_history lower strip city) <> dict_get HISTORICAL_FLOODS "default").
Proof.
  intros s. split; [| split].
  - intros city' H. unfold get_flood_history, flood_history_in. now rewrite H.
  - intros events H. apply historical_lookup in H.
    unfold get_flood_history, flood_history_in. fold s. now rewrite H.
  - intros H. unfold get_flood_history, flood_history_in. fold s. rewrite H.
    split; [reflexivity | discriminate].
Qed.

Lemma flood_history_lookup_witness :
  Some (get_flood_history lower_ascii strip_ascii "  New York ")
    = dict_get HISTORICAL_FLOODS "new york"
  /\ Some (get_flood_history lower_ascii strip_ascii "   ")
     = dict_get HISTORICAL_FLOODS "mumbai".
Proof.
  split.
  - destruct (dict_get HISTORICAL_FLOODS "new york") as [events |] eqn:E; [| discriminate E].
    f_equal.
    apply (proj1 (proj2 (flood_history_lookup lower_ascii strip_ascii "  New York "))).
    apply dict_get_in. exact E.
  - apply (proj2 (proj2 (flood_history_lookup lower_ascii strip_ascii "   "))). reflexivity.
Defined.

(** X19. when the lowered, trimmed name [s] is no key, the first key in
    insertion order that occurs in [s], or in which [s] occurs, decides;
    "default" is only the fall-back.  So "new" gets New Orleans and never
    New York. *)
Theorem flood_history_partial_match (lower strip : string -> string) (city : string) :
  let s := strip (lower city) in
  dict_get HISTORICAL_FLOODS s = None ->
  Some (get_flood_history lower strip city) =
    dict_get HISTORICAL_FLOODS
      (get_or (first_key_related (map fst HISTORICAL_FLOODS) s) "default").
Proof.
  intros s Hs. unfold get_flood_history, flood_history_in. fold s. rewrite Hs.
  assert (H : forall d,
    (forall k v, In (k, v) d -> dict_get HISTORICAL_FLOODS k = Some v) ->
    match first_related d s with
    | Some v => exists k, first_key_related (map fst d) s = Some k
                          /\ dict_get HISTORICAL_FLOODS k = Some v
    | None => first_key_related (map fst d) s = None
    end).
  { induction d as [| [k v] r IH]; cbn; intros Hd; [reflexivity |].
    destruct (negb (String.eqb k "default") && (str_in k s || str_in s k)).
    - exists k. split; [reflexivity | apply Hd; now left].
    - apply IH. intros k' v' Hin. apply Hd. now right. }
  specialize (H HISTORICAL_FLOODS historical_lookup).
  destruct (first_related HISTORICAL_FLOODS s) as [v |].
  - destruct H as (k & -> & Hk). cbn [get_or]. now rewrite Hk.
  - rewrite H. reflexivity.
Qed.

Lemma flood_history_partial_match_witness :
  Some (get_flood_history lower_ascii strip_ascii "new")
    = dict_get HISTORICAL_FLOODS "new orleans".
Proof. exact (flood_history_partial_match lower_ascii strip_ascii "new" eq_refl). Defined.

(* ===================================================================== *)

(** * Further properties of the flood risk engine                        *)

(* ===================================================================== *)

Open Scope float_scope.

(** ** NaN factors *)

Lemma nan_div (x c : float) : is_nan x = true -> is_nan (x / c) = true.
Proof. rewrite !is_nan_SF, div_spec. intros ->. reflexivity. Qed.

Lemma nan_mul (x c : float) : is_nan x = true -> is_nan (x * c) = true.
Proof. rewrite !is_nan_SF, mul_spec. intros ->. reflexivity. Qed.

Lemma nan_sub (x c : float) : is_nan x = true -> is_nan (x - c) = true.
Proof. rewrite !is_nan_SF, sub_spec. intros ->. reflexivity. Qed.

Lemma nan_add_l (x y : float) : is_nan x = true -> is_nan (x + y) = true.
Proof. rewrite !is_nan_SF, add_spec. intros ->. reflexivity. Qed.

Lemma nan_add_r (x y : float) : is_nan y = true -> is_nan (x + y) = true.
Proof. rewrite !is_nan_SF, add_spec. intros ->. destruct (Prim2SF x); reflexivity. Qed.

Lemma nan_ltb_l (x y : float) : is_nan x = true -> (x <? y) = false.
Proof. rewrite is_nan_SF, ltb_spec. intros ->. reflexivity. Qed.

Lemma nan_ltb_r (x y : float) : is_nan y = true -> (x <? y) = false.
Proof. rewrite is_nan_SF, ltb_spec. intros ->. unfold SFltb. destruct (Prim2SF x); reflexivity. Qed.

Lemma nan_leb_r (x y : float) : is_nan y = true -> (x <=? y) = false.
Proof. rewrite is_nan_SF, leb_spec. intros ->. unfold SFleb. destruct (Prim2SF x); reflexivity. Qed.

Lemma nan_py_min (x c : float) : is_nan x = true -> py_min x c = x.
Proof. intros H. unfold py_min. now rewrite nan_ltb_r. Qed.

Lemma nan_py_max (x c : float) : is_nan x = true -> py_max x c = x.
Proof. intros H. unfold py_max. now rewrite nan_ltb_l. Qed.

Lemma nan_term (x cap w : float) : is_nan x = true -> is_nan (py_min (x / cap) 1 * w) = true.
Proof. intros H. apply nan_mul. rewrite nan_py_min; now apply nan_div. Qed.

Lemma nan_round (x : float) : is_nan x = true -> py_round1 x = x.
Proof. rewrite is_nan_SF. unfold py_round1. now intros ->. Qed.

(** X20. a NaN among the five factors is not rejected: the score is then NaN
    and, since every comparison with NaN is false, the level is LOW. *)
Theorem nan_factor_scores_low (r1 r3 h w c : float) :
  is_nan r1 = true \/ is_nan r3 = true \/ is_nan h = true
  \/ is_nan w = true \/ is_nan c = true ->
  is_nan (score (calculate_flood_probability r1 r3 h w c)) = true
  /\ level (calculate_flood_probability r1 r3 h w c) = LOW
  /\ color (calculate_flood_probability r1 r3 h w c) = "#22c55e"%string.
Proof.
  intros H.
  assert (Hraw : is_nan (raw_score r1 r3 h w c) = true).
  { unfold raw_score.
    destruct H as [H | [H | [H | [H | H]]]].
    - do 4 apply nan_add_l. apply nan_add_r. now apply nan_term.
    - do 3 apply nan_add_l. apply nan_add_r. now apply nan_term.
    - do 2 apply nan_add_l. apply nan_add_r. apply nan_mul.
      rewrite nan_py_min; apply nan_div; rewrite nan_py_max; now apply nan_sub.
    - apply nan_add_l. apply nan_add_r. now apply nan_term.
    - apply nan_add_r. now apply nan_term. }
  assert (Hs : is_nan (py_round1 (py_min (raw_score r1 r3 h w c) 100)) = true).
  { rewrite nan_py_min by exact Hraw. now rewrite nan_round. }
  unfold calculate_flood_probability, risk_band, py_ge.
  rewrite !(nan_leb_r _ _ Hs). cbn [score level color]. auto.
Qed.

Lemma nan_factor_scores_low_witness :
  level (calculate_flood_probability 30 80 nan 5 5) = LOW.
Proof.
  exact (proj1 (proj2 (nan_factor_scores_low 30 80 nan 5 5
                         (or_intror (or_intror (or_introl eq_refl)))))).
Defined.

(** ** The humidity baseline *)

Lemma iter_xO_pow (m d : positive) : Z.pos (Pos.iter xO m d) = (Z.pos m * 2 ^ Z.pos d)%Z.
Proof.
  induction d as [| d IH] using Pos.peano_ind.
  - cbn. lia.
  - rewrite Pos.iter_succ, Pos2Z.inj_xO, IH, Pos2Z.inj_succ, Z.pow_succ_r by lia. lia.
Qed.

Lemma shl_align_value (m : positive) (e ez : Z) :
  (ez <= e)%Z -> Z.pos (fst (shl_align m e ez)) = (Z.pos m * 2 ^ (e - ez))%Z.
Proof.
  intros H. unfold shl_align.
  destruct (ez - e)%Z as [| p | p] eqn:E; cbn [fst]; try lia.
  - replace (e - ez)%Z with 0%Z by lia. cbn. lia.
  - rewrite iter_xO_pow. f_equal. f_equal. lia.
Qed.

Lemma at_most_60_sub (h : float) :
  (h <=? 60) = true -> py_max (h - 60) 0 = 0.
Proof.
  intros Hle. unfold py_max.
  assert (H : sf_neg (Prim2SF (h - 60)) \/ Prim2SF (h - 60) = S754_zero false).
  { pose proof (sub_pos_const_cases 60 h pos_const_60) as Hc.
    rewrite leb_spec in Hle.
    change (Prim2SF 60) with (S754_finite false 8444249301319680 (-47)) in Hle.
    destruct (Prim2SF h) as [s | [] | | [] m e] eqn:Eh; try discriminate; try (now left).
    - left. rewrite Hc. exact I.
    - clear Hc. pose proof (valid_finite h _ _ _ Eh) as [Hm He].
      unfold SFleb, SFcompare in Hle.
      rewrite sub_spec, Eh.
      change (Prim2SF 60) with (S754_finite false 8444249301319680 (-47)).
      cbn [SF64sub SFsub cond_Zopp].
      set (ez := IntDef.Z.min e (-47)).
      assert (Hez : ez = Z.min e (-47)) by reflexivity.
      assert (Hemin : (emin <= ez)%Z) by (clear Hle; unfold SpecFloat.emin, prec, emax in *; lia).
      assert (Hd : (Z.pos (fst (shl_align m e ez))
                    - Z.pos (fst (shl_align 8444249301319680 (-47) ez)) <= 0)%Z).
      { rewrite !shl_align_value by (clear Hle; lia).
        destruct (Z.compare_spec e (-47)) as [E | E | E]; try discriminate.
        - subst e. replace ez with (-47)%Z by (clear Hle; lia). rewrite Z.sub_diag, !Z.mul_1_r.
          pose proof (Pos.compare_spec m 8444249301319680) as Hc.
          unfold Pos.compare in Hc. revert Hle.
          destruct Hc as [Hc | Hc | Hc]; intros Hle; try discriminate Hle.
          + subst m. rewrite Z.sub_diag. apply Z.le_refl.
          + apply Pos2Z.pos_lt_pos in Hc. apply Z.lt_le_incl, Z.lt_sub_0. exact Hc.
        - replace ez with e by (clear Hle; lia). rewrite Z.sub_diag, Z.mul_1_r.
          assert (Hp : (2 <= 2 ^ (-47 - e))%Z).
          { change 2%Z with (2 ^ 1)%Z at 1. apply Z.pow_le_mono_r; clear Hle; lia. }
          change (2 ^ 53)%Z with 9007199254740992%Z in Hm.
          clear - Hm Hp. nia. }
      clear Hle.
      destruct (Z.pos (fst (shl_align m e ez))
                - Z.pos (fst (shl_align 8444249301319680 (-47) ez)))%Z as [| p | p] eqn:Ed;
        cbn [binary_normalize]; [now right | exfalso; clear - Hd; lia | left].
      pose proof (binary_round_signed true p ez) as H1.
      pose proof (binary_round_nonzero true p ez Hemin) as H2.
      destruct (binary_round prec emax true p ez); cbn in *; subst; tauto. }
  destruct H as [H | H].
  - apply ltb_zero_neg in H. now rewrite H.
  - assert (E : h - 60 = 0) by (apply Prim2SF_inj; rewrite H; reflexivity).
    rewrite E. reflexivity.
Qed.

(** X21. humidity counts only above the 60 % baseline: every humidity of at
    most 60 (negative values included) gives the same [FloodRisk] as a
    humidity of 0. *)
Theorem humidity_at_most_60_adds_nothing (r1 r3 h w c : float) :
  (h <=? 60) = true ->
  calculate_flood_probability r1 r3 h w c = calculate_flood_probability r1 r3 0 w c.
Proof.
  intros H. unfold calculate_flood_probability, raw_score.
  rewrite (at_most_60_sub h H), (at_most_60_sub 0 eq_refl). reflexivity.
Qed.

Lemma humidity_at_most_60_adds_nothing_witness :
  calculate_flood_probability 8 3 59.5 12 40 = calculate_flood_probability 8 3 0 12 40.
Proof. exact (humidity_at_most_60_adds_nothing 8 3 59.5 12 40 eq_refl). Defined.

(** ** Upper bounds through a rounding *)

Lemma mod_mul_nonzero (m a b : Z) :
  (0 < a)%Z -> (0 < b)%Z ->
  (m mod a <> 0 \/ (m / a) mod b <> 0)%Z -> (m mod (a * b) <> 0)%Z.
Proof.
  intros Ha Hb H. rewrite Z.rem_mul_r by lia.
  pose proof (Z.mod_pos_bound m a Ha). pose proof (Z.mod_pos_bound (m / a) b Hb). nia.
Qed.

Lemma shr_1_flags (r : shr_record) :
  (0 <= shr_m r)%Z -> shr_flags (shr_1 r) = true ->
  shr_flags r = true \/ (shr_m r mod 2 <> 0)%Z.
Proof.
  destruct r as [m b s]; unfold shr_flags; cbn [shr_m shr_r shr_s]; intros Hm.
  destruct m as [| p | p]; [| | lia].
  - cbn. auto.
  - destruct p as [p | p |]; cbn [shr_1 shr_r shr_s]; intros H.
    + right. rewrite Pos2Z.inj_xI. rewrite Z.add_comm, Z.mul_comm, Z.mod_add by lia. discriminate.
    + left. exact H.
    + right. discriminate.
Qed.

Lemma iter_shr_1_flags (p : positive) : forall r : shr_record,
  (0 <= shr_m r)%Z -> shr_flags (iter_pos shr_1 p r) = true ->
  shr_flags r = true \/ (shr_m r mod 2 ^ Z.pos p <> 0)%Z.
Proof.
  assert (Hnn : forall a b, (0 <= a)%Z -> (0 < b)%Z -> (0 <= a / b)%Z)
    by (intros; apply Z.div_pos; lia).
  assert (Hpw : forall q, (0 < 2 ^ Z.pos q)%Z)
    by (intros; apply Z.pow_pos_nonneg; lia).
  induction p as [p IH | p IH |]; intros r Hr; cbn [iter_pos]; intros H.
  - assert (H1 : (0 <= shr_m (shr_1 r))%Z)
      by (rewrite shr_1_m by exact Hr; apply Hnn; lia).
    assert (H2 : (0 <= shr_m (iter_pos shr_1 p (shr_1 r)))%Z)
      by (rewrite iter_shr_1_m by exact H1; apply Hnn; auto).
    replace (Z.pos p~1) with (1 + (Z.pos p + Z.pos p))%Z by lia.
    rewrite !Z.pow_add_r, Z.pow_1_r by lia.
    apply IH in H; [| exact H2].
    rewrite iter_shr_1_m in H by exact H1.
    assert (H' : shr_flags (shr_1 r) = true
                 \/ (shr_m (shr_1 r) mod (2 ^ Z.pos p * 2 ^ Z.pos p) <> 0)%Z).
    { destruct H as [H | H].
      - apply IH in H; [| exact H1]. destruct H as [H | H]; [now left | right].
        apply mod_mul_nonzero; auto.
      - right. apply mod_mul_nonzero; auto. }
    clear H. destruct H' as [H | H].
    + apply shr_1_flags in H; [| exact Hr]. destruct H as [H | H]; [now left | right].
      apply mod_mul_nonzero; [lia | pose proof (Hpw p); nia | now left].
    + right. rewrite shr_1_m in H by exact Hr.
      apply mod_mul_nonzero; [lia | pose proof (Hpw p); nia | now right].
  - assert (H1 : (0 <= shr_m (iter_pos shr_1 p r))%Z)
      by (rewrite iter_shr_1_m by exact Hr; apply Hnn; auto).
    replace (Z.pos p~0) with (Z.pos p + Z.pos p)%Z by lia.
    rewrite Z.pow_add_r by lia.
    apply IH in H; [| exact H1]. rewrite iter_shr_1_m in H by exact Hr.
    destruct H as [H | H].
    + apply IH in H; [| exact Hr]. destruct H as [H | H]; [now left | right].
      apply mod_mul_nonzero; auto.
    + right. apply mod_mul_nonzero; auto.
  - apply shr_1_flags in H; auto.
Qed.

Lemma loc_of_flags (r : shr_record) :
  shr_flags r = false -> loc_of_shr_record r = loc_Exact.
Proof. destruct r as [m [] []]; cbn; intros H; try discriminate; reflexivity. Qed.

(** What rounding to nearest does to a shifted mantissa: it keeps it, or
    adds one when bits were shifted out. *)
Lemma round_shifted (r : shr_record) :
  round_nearest_even (shr_m r) (loc_of_shr_record r) = shr_m r
  \/ (round_nearest_even (shr_m r) (loc_of_shr_record r) = (shr_m r + 1)%Z
      /\ shr_flags r = true).
Proof.
  destruct r as [m [] []]; cbn; auto; destruct (Z.even m); auto.
Qed.

(** The first shift of a rounding: the mantissa is divided by a power of
    two, and the flags are set only if bits were lost. *)
Lemma shr_fexp_exact (m e : Z) :
  (0 <= m)%Z ->
  let n := (fexp prec emax (Zdigits2 m + e) - e)%Z in
  let out := shr_fexp prec emax m e loc_Exact in
  ((n <= 0)%Z /\ shr_m (fst out) = m /\ snd out = e /\ shr_flags (fst out) = false)
  \/ ((0 < n)%Z /\ shr_m (fst out) = (m / 2 ^ n)%Z /\ snd out = (e + n)%Z
      /\ (shr_flags (fst out) = true -> (m mod 2 ^ n <> 0)%Z)).
Proof.
  intros Hm n out. unfold out, shr_fexp, shr. fold n.
  destruct n as [| p | p] eqn:En; cbn [fst snd shr_record_of_loc shr_m].
  - left. repeat split; lia.
  - right. split; [lia |]. split; [| split; [reflexivity |]].
    + rewrite iter_shr_1_m by (cbn; exact Hm). reflexivity.
    + intros H. apply iter_shr_1_flags in H; [| cbn; exact Hm].
      destruct H as [H | H]; [discriminate H | exact H].
  - left. repeat split; lia.
Qed.

(** *** Scaled values *)

Lemma pow2_pos (a : Z) : (0 < 2 ^ a)%Z \/ (a < 0)%Z.
Proof. destruct (Z.le_gt_cases 0 a); [left; apply Z.pow_pos_nonneg; lia | now right]. Qed.

Lemma scaled_mono (m m' e : Z) :
  (- scale <= e)%Z -> (m <= m')%Z -> (scaled m e <= scaled m' e)%Z.
Proof.
  intros He H. unfold scaled. apply Z.mul_le_mono_nonneg_r; [| exact H].
  apply Z.pow_nonneg. lia.
Qed.

Lemma scaled_shift (m e n : Z) :
  (- scale <= e)%Z -> (0 <= n)%Z -> scaled (m * 2 ^ n) e = scaled m (e + n).
Proof.
  intros He Hn. unfold scaled.
  replace (e + n + scale)%Z with (n + (e + scale))%Z by lia.
  rewrite (Z.pow_add_r 2 n (e + scale)) by lia. ring.
Qed.

Lemma scaled_shr (m e n : Z) :
  (- scale <= e)%Z -> (0 < n)%Z -> (scaled (m / 2 ^ n) (e + n) <= scaled m e)%Z.
Proof.
  intros He Hn. rewrite <- scaled_shift by lia. apply scaled_mono; [exact He |].
  rewrite Z.mul_comm. apply Z.mul_div_le. apply Z.pow_pos_nonneg; lia.
Qed.

Lemma scaled_exp_mono (m e e' : Z) :
  (0 <= m)%Z -> (- scale <= e <= e')%Z -> (scaled m e <= scaled m e')%Z.
Proof.
  intros Hm He. unfold scaled. apply Z.mul_le_mono_nonneg_l; [exact Hm |].
  apply Z.pow_le_mono_r; lia.
Qed.

Lemma scaled_upper (q : positive) (e : Z) :
  (- scale <= e)%Z ->
  (scaled (Z.pos q) e < 2 ^ (Z.pos (digits2_pos q) + e + scale))%Z.
Proof.
  intros He. unfold scaled. pose proof (digits2_pos_bounds q) as [_ Hhi].
  replace (Z.pos (digits2_pos q) + e + scale)%Z
    with (Z.pos (digits2_pos q) + (e + scale))%Z by lia.
  rewrite (Z.pow_add_r 2 (Z.pos (digits2_pos q)) (e + scale)) by lia.
  apply Z.mul_lt_mono_pos_r; [apply Z.pow_pos_nonneg; lia | exact Hhi].
Qed.

Lemma scaled_lower (q : positive) (e : Z) :
  (- scale <= e)%Z ->
  (2 ^ (Z.pos (digits2_pos q) - 1 + e + scale) <= scaled (Z.pos q) e)%Z.
Proof.
  intros He. unfold scaled. pose proof (digits2_pos_bounds q) as [Hlo _].
  replace (Z.pos (digits2_pos q) - 1 + e + scale)%Z
    with ((Z.pos (digits2_pos q) - 1) + (e + scale))%Z by lia.
  rewrite (Z.pow_add_r 2 (Z.pos (digits2_pos q) - 1) (e + scale)) by lia.
  apply Z.mul_le_mono_nonneg_r; [apply Z.pow_nonneg; lia | exact Hlo].
Qed.

(** Rounding up cannot pass a bound that is itself a normal number. *)
Lemma scaled_round_up (m e n : Z) (mB : positive) (eB : Z) :
  (0 <= m)%Z -> (- scale <= e)%Z -> (0 < n)%Z ->
  (e + n)%Z = fexp prec emax (Zdigits2 m + e) ->
  (m mod 2 ^ n <> 0)%Z ->
  digits2_pos mB = 53%positive -> (-1000 <= eB <= 900)%Z ->
  (scaled m e <= scaled (Z.pos mB) eB)%Z ->
  (scaled (m / 2 ^ n + 1) (e + n) <= scaled (Z.pos mB) eB)%Z.
Proof.
  intros Hm He Hn Hf Hr HdB HeB Hle.
  assert (HeB' : (- scale <= eB)%Z) by (unfold scale; lia).
  destruct m as [| q | q]; [rewrite Z.mod_0_l in Hr; [congruence | ] | | lia].
  { apply Z.pow_nonzero; lia. }
  cbn [Zdigits2] in Hf.
  assert (HN : (0 < 2 ^ n)%Z) by (apply Z.pow_pos_nonneg; lia).
  destruct (Z.le_gt_cases (e + n) eB) as [Hge | Hlt].
  - (* the bound lies on the grid of the result *)
    set (j := (eB - (e + n))%Z).
    assert (HB : scaled (Z.pos mB) eB = scaled (Z.pos mB * 2 ^ j) (e + n)).
    { rewrite scaled_shift by (unfold j; lia). f_equal. unfold j. lia. }
    rewrite HB in *. apply scaled_mono; [lia |].
    rewrite <- scaled_shift in Hle by lia.
    assert (Hm' : (Z.pos q <= Z.pos mB * 2 ^ j * 2 ^ n)%Z).
    { unfold scaled in Hle.
      apply Z.mul_le_mono_pos_r in Hle; [exact Hle | apply Z.pow_pos_nonneg; lia]. }
    assert (Hne : (Z.pos q <> Z.pos mB * 2 ^ j * 2 ^ n)%Z).
    { intros E. apply Hr. rewrite E. apply Z.mod_mul. lia. }
    assert (Hlt : (Z.pos q / 2 ^ n < Z.pos mB * 2 ^ j)%Z).
    { apply Z.div_lt_upper_bound; [exact HN |]. lia. }
    lia.
  - (* the bound would be below the number that is rounded *)
    exfalso.
    pose proof (scaled_upper mB eB HeB') as Hup. rewrite HdB in Hup.
    pose proof (scaled_lower q e He) as Hlo.
    assert (Hexp : (53 + eB + scale <= Z.pos (digits2_pos q) - 1 + e + scale)%Z).
    { unfold fexp, emin, prec, emax in *. lia. }
    apply (Z.pow_le_mono_r 2) in Hexp; [| lia].
    change (Z.pos 53) with 53%Z in Hup.
    set (a := (2 ^ (53 + eB + scale))%Z) in *.
    set (b := (2 ^ (Z.pos (digits2_pos q) - 1 + e + scale))%Z) in *.
    clearbody a b. lia.
Qed.

(** A rounding of a non-negative value that is at most a normal number of
    moderate size gives a number that is at most it. *)
Lemma round_below (m e : Z) (mB : positive) (eB : Z) :
  (0 <= m)%Z -> (- scale <= e)%Z ->
  digits2_pos mB = 53%positive -> (-1000 <= eB <= 900)%Z ->
  (scaled m e <= scaled (Z.pos mB) eB)%Z ->
  sf_below (binary_round_aux prec emax false m e loc_Exact) (scaled (Z.pos mB) eB).
Proof.
  intros Hm He HdB HeB Hle.
  assert (HeB' : (- scale <= eB)%Z) by (unfold scale; lia).
  unfold binary_round_aux.
  pose proof (shr_fexp_exact m e Hm) as H1. cbv zeta in H1.
  destruct (shr_fexp prec emax m e loc_Exact) as [mrs1 e1]. cbn [fst snd] in H1.
  set (m1 := round_nearest_even (shr_m mrs1) (loc_of_shr_record mrs1)).
  assert (F : (0 <= m1)%Z /\ (- scale <= e1)%Z
              /\ (scaled m1 e1 <= scaled (Z.pos mB) eB)%Z).
  { pose proof (round_shifted mrs1) as Hr. fold m1 in Hr.
    destruct H1 as [(Hn & Hs & Hee & Hfl) | (Hn & Hs & Hee & Hfl)].
    - destruct Hr as [Hr | [_ Hr]]; [| congruence].
      rewrite Hr, Hs, Hee. auto.
    - assert (Hq : (0 <= m / 2 ^ (fexp prec emax (Zdigits2 m + e) - e))%Z)
        by (apply Z.div_pos; [exact Hm | apply Z.pow_pos_nonneg; lia]).
      destruct Hr as [Hr | [Hr Hfl']].
      + rewrite Hr, Hs, Hee. split; [exact Hq |]. split; [lia |].
        eapply Z.le_trans; [apply scaled_shr; lia | exact Hle].
      + rewrite Hr, Hs, Hee. split; [lia |]. split; [lia |].
        apply scaled_round_up; auto. lia. }
  clearbody m1. destruct F as (Hm1 & He1 & Hle1).
  pose proof (shr_fexp_exact m1 e1 Hm1) as H2. cbv zeta in H2.
  destruct (shr_fexp prec emax m1 e1 loc_Exact) as [mrs2 e2]. cbn [fst snd] in H2.
  assert (G : (e1 <= e2)%Z /\ (scaled (shr_m mrs2) e2 <= scaled (Z.pos mB) eB)%Z).
  { destruct H2 as [(Hn & Hs & Hee & _) | (Hn & Hs & Hee & _)]; rewrite Hs, Hee.
    - split; [lia | exact Hle1].
    - split; [lia |]. eapply Z.le_trans; [apply scaled_shr; lia | exact Hle1]. }
  destruct G as [He2 Hle2].
  destruct (shr_m mrs2) as [| p | p] eqn:Ep.
  - exact I.
  - destruct (e2 <=? emax - prec)%Z eqn:Hov; cbn [sf_below].
    + split; [lia | exact Hle2].
    + exfalso. apply Z.leb_gt in Hov.
      pose proof (scaled_upper mB eB HeB') as Hup. rewrite HdB in Hup.
      change (Z.pos 53) with 53%Z in Hup.
      assert (Hlo : (2 ^ (53 + eB + scale) <= scaled (Z.pos p) e2)%Z).
      { unfold scaled. eapply Z.le_trans with (m := (1 * 2 ^ (e2 + scale))%Z); [| apply Z.mul_le_mono_nonneg_r; [apply Z.pow_nonneg |]; lia].
        rewrite Z.mul_1_l. apply Z.pow_le_mono_r; [lia |].
        unfold emax, prec in Hov. lia. }
      set (a := (2 ^ (53 + eB + scale))%Z) in *. clearbody a. lia.
  - exfalso. clear Hle2.
    destruct H2 as [(_ & Hs & _) | (Hn & Hs & _)]; [lia |].
    assert (Hq : (0 <= m1 / 2 ^ (fexp prec emax (Zdigits2 m1 + e1) - e1))%Z)
      by (apply Z.div_pos; [exact Hm1 | apply Z.pow_pos_nonneg; lia]).
    lia.
Qed.

Lemma binary_round_below (p : positive) (e : Z) (mB : positive) (eB : Z) :
  (- scale <= e)%Z ->
  digits2_pos mB = 53%positive -> (-1000 <= eB <= 900)%Z ->
  (scaled (Z.pos p) e <= scaled (Z.pos mB) eB)%Z ->
  sf_below (binary_round prec emax false p e) (scaled (Z.pos mB) eB).
Proof.
  intros He HdB HeB Hle. unfold binary_round.
  set (f := fexp prec emax (Z.pos (digits2_pos p) + e)).
  assert (Hf : (- scale <= f)%Z).
  { pose proof (fexp_emin (Z.pos (digits2_pos p) + e)) as H. fold f in H.
    unfold emin, prec, emax, scale in *. lia. }
  destruct (Z.le_gt_cases e f) as [Hc | Hc].
  - replace (shl_align p e f) with (p, e).
    + apply round_below; auto. lia.
    + unfold shl_align. destruct (f - e)%Z eqn:E; try reflexivity. lia.
  - pose proof (shl_align_value p e f ltac:(lia)) as Hv.
    assert (Hs : snd (shl_align p e f) = f).
    { unfold shl_align. destruct (f - e)%Z eqn:E; try lia. reflexivity. }
    destruct (shl_align p e f) as [mz ez]. cbn [fst snd] in Hv, Hs. subst ez.
    apply round_below; auto; [lia |].
    rewrite Hv, scaled_shift by lia. replace (f + (e - f))%Z with e by lia. exact Hle.
Qed.

(** *** Bounds read off a float *)

Lemma is_normal_const (c : float) :
  is_normal c = true ->
  exists m e, normal_const c m e /\ bound_of c = scaled (Z.pos m) e.
Proof.
  unfold is_normal, bound_of, normal_const.
  destruct (Prim2SF c) as [s | s | | [] m e]; try discriminate.
  intros H. apply andb_true_iff in H as [H1 H2]. apply andb_true_iff in H2 as [H2 H3].
  apply Pos.eqb_eq in H1. apply Z.leb_le in H2, H3. exists m, e. auto.
Qed.

Lemma scaled_pos (m : positive) (e : Z) : (0 < scaled (Z.pos m) e)%Z \/ (e < - scale)%Z.
Proof.
  destruct (Z.le_gt_cases (- scale) e) as [H | H]; [left | right; exact H].
  unfold scaled. apply Z.mul_pos_pos; [lia | apply Z.pow_pos_nonneg; lia].
Qed.

Lemma bound_of_nonneg (c : float) : (0 <= bound_of c)%Z.
Proof.
  unfold bound_of. destruct (Prim2SF c) as [s | s | | [] m e]; try lia.
  unfold scaled. apply Z.mul_nonneg_nonneg; [lia | apply Z.pow_nonneg; lia].
Qed.

Lemma sf_below_mono (x : spec_float) (b b' : Z) :
  (b <= b')%Z -> sf_below x b -> sf_below x b'.
Proof.
  intros Hb. destruct x as [s | s | | [] m e]; cbn; auto. intros [H1 H2]. split; lia.
Qed.

Lemma signed_true_below (x : spec_float) (b : Z) : signed_as true x -> sf_below x b.
Proof. destruct x as [s | s | | s m e]; cbn; intros H; subst; auto. Qed.

Lemma valid_canonical (x : float) (s : bool) (m : positive) (e : Z) :
  Prim2SF x = S754_finite s m e ->
  fexp prec emax (Z.pos (digits2_pos m) + e) = e.
Proof.
  intros Hx. pose proof (Prim2SF_valid x) as Hv. rewrite Hx in Hv.
  cbn [valid_binary] in Hv. unfold bounded, canonical_mantissa in Hv.
  apply andb_true_iff in Hv as [Hc _]. apply Z.eqb_eq in Hc. exact Hc.
Qed.

(** A valid float with a smaller exponent than a normal one is smaller. *)
Lemma scaled_lt_by_exp (x : float) (s : bool) (mx : positive) (ex : Z) (m : positive) (e : Z) :
  Prim2SF x = S754_finite s mx ex ->
  digits2_pos m = 53%positive -> (- scale <= e)%Z -> (ex < e)%Z ->
  (scaled (Z.pos mx) ex < scaled (Z.pos m) e)%Z.
Proof.
  intros Hx Hd He Hlt.
  pose proof (valid_finite x _ _ _ Hx) as [_ Hemin].
  pose proof (valid_canonical x _ _ _ Hx) as Hc.
  assert (Hex : (- scale <= ex)%Z) by (unfold emin, prec, emax, scale in *; lia).
  pose proof (scaled_upper mx ex Hex) as Hup.
  pose proof (scaled_lower m e He) as Hlo. rewrite Hd in Hlo.
  change (Z.pos 53) with 53%Z in Hlo.
  assert (Hexp : (Z.pos (digits2_pos mx) + ex + scale <= 53 - 1 + e + scale)%Z).
  { unfold fexp, emin, prec, emax in *. lia. }
  apply (Z.pow_le_mono_r 2) in Hexp; [| lia].
  set (a := (2 ^ (Z.pos (digits2_pos mx) + ex + scale))%Z) in *.
  set (b := (2 ^ (53 - 1 + e + scale))%Z) in *. clearbody a b. lia.
Qed.

(** [not (c < x)] for a number [x], read on the scaled values. *)
Lemma not_lt_below (c x : float) (m : positive) (e : Z) :
  normal_const c m e -> is_nan x = false -> (c <? x) = false ->
  sf_below (Prim2SF x) (scaled (Z.pos m) e).
Proof.
  intros (Hc & Hd & He) Hn Hlt. rewrite ltb_spec, Hc in Hlt.
  assert (Hes : (- scale <= e)%Z) by (unfold scale; lia).
  destruct (Prim2SF x) as [s | [] | | [] mx ex] eqn:Ex; cbn [sf_below]; auto;
    try discriminate Hlt.
  - exfalso. apply not_true_iff_false in Hn. apply Hn, is_nan_SF. exact Ex.
  - pose proof (valid_finite x _ _ _ Ex) as [_ Hemin].
    split; [unfold emin, prec, emax, scale in *; lia |].
    unfold SFltb, SFcompare in Hlt.
    destruct (Z.compare_spec e ex) as [E | E | E]; try discriminate Hlt.
    + subst ex. apply scaled_mono; [exact Hes |].
      pose proof (Pos.compare_spec m mx) as Hp. unfold Pos.compare in Hp.
      revert Hlt. destruct Hp as [Hp | Hp | Hp]; intros Hlt; try discriminate Hlt.
      * subst. apply Z.le_refl.
      * apply Z.lt_le_incl. exact (Pos2Z.pos_lt_pos _ _ Hp).
    + apply Z.lt_le_incl. eapply scaled_lt_by_exp; eauto.
Qed.

(** A number of at most a bound is not above a normal constant that is at
    least the bound. *)
Lemma below_not_lt (c x : float) (m : positive) (e : Z) (b : Z) :
  normal_const c m e -> (b <= scaled (Z.pos m) e)%Z ->
  sf_below (Prim2SF x) b -> (c <? x) = false.
Proof.
  intros (Hc & Hd & He) Hb Hx. rewrite ltb_spec, Hc.
  assert (Hes : (- scale <= e)%Z) by (unfold scale; lia).
  destruct (Prim2SF x) as [s | [] | | [] mx ex] eqn:Ex; cbn [sf_below] in Hx;
    try reflexivity; try discriminate Hx; try tauto.
  destruct Hx as [Hex Hle]. unfold SFltb, SFcompare.
  destruct (Z.compare_spec e ex) as [E | E | E]; try reflexivity.
  - subst ex.
    pose proof (Pos.compare_spec m mx) as Hp. unfold Pos.compare in Hp.
    destruct Hp as [Hp | Hp | Hp]; try reflexivity.
    exfalso. apply Pos2Z.pos_lt_pos in Hp.
    assert (Hs : (scaled (Z.pos m) e < scaled (Z.pos mx) e)%Z).
    { unfold scaled. apply Z.mul_lt_mono_pos_r; [apply Z.pow_pos_nonneg; lia | exact Hp]. }
    clear Hp. set (u := scaled (Z.pos m) e) in *. set (v := scaled (Z.pos mx) e) in *.
    clearbody u v. lia.
  - exfalso.
    (* [x] has the larger exponent, so it is normal and larger *)
    pose proof (valid_canonical x _ _ _ Ex) as Hcx.
    assert (Hdx : Z.pos (digits2_pos mx) = 53%Z).
    { unfold fexp, emin, prec, emax in *. lia. }
    pose proof (scaled_lower mx ex Hex) as Hlo. rewrite Hdx in Hlo.
    pose proof (scaled_upper m e Hes) as Hup. rewrite Hd in Hup.
    change (Z.pos 53) with 53%Z in Hup.
    assert (Hexp : (53 + e + scale <= 53 - 1 + ex + scale)%Z) by lia.
    apply (Z.pow_le_mono_r 2) in Hexp; [| lia].
    set (u := scaled (Z.pos m) e) in *. set (v := scaled (Z.pos mx) ex) in *.
    set (a := (2 ^ (53 + e + scale))%Z) in *.
    set (a' := (2 ^ (53 - 1 + ex + scale))%Z) in *. clearbody u v a a'. lia.
Qed.

(** *** Sums *)

Lemma valid_emin (x : float) : sf_emin (Prim2SF x).
Proof.
  destruct (Prim2SF x) as [s | s | | s m e] eqn:Ex; cbn; auto.
  now destruct (valid_finite x _ _ _ Ex).
Qed.

Lemma aligned_below (s : bool) (m : positive) (e ez b : Z) :
  sf_below (S754_finite s m e) b -> (0 <= b)%Z -> (- scale <= ez <= e)%Z ->
  (scaled (cond_Zopp s (Z.pos (fst (shl_align m e ez)))) ez <= b)%Z.
Proof.
  intros Hx Hb He.
  assert (Hv : scaled (Z.pos (fst (shl_align m e ez))) ez = scaled (Z.pos m) e).
  { rewrite shl_align_value by lia. rewrite scaled_shift by lia. f_equal. lia. }
  destruct s; cbn [cond_Zopp sf_below] in *.
  - apply Z.le_trans with (m := 0%Z); [| exact Hb]. unfold scaled.
    apply Z.mul_nonpos_nonneg; [lia | apply Z.pow_nonneg; lia].
  - rewrite Hv. tauto.
Qed.

Lemma scaled_add (a b e : Z) : scaled (a + b) e = (scaled a e + scaled b e)%Z.
Proof. unfold scaled. ring. Qed.

Lemma add_below (a b : spec_float) (sa sb : Z) (m : positive) (e : Z) :
  sf_emin a -> sf_emin b ->
  sf_below a sa -> sf_below b sb -> (0 <= sa)%Z -> (0 <= sb)%Z ->
  digits2_pos m = 53%positive -> (-1000 <= e <= 900)%Z ->
  (sa + sb <= scaled (Z.pos m) e)%Z ->
  sf_below (SFadd prec emax a b) (scaled (Z.pos m) e).
Proof.
  intros Va Vb Ha Hb Hsa Hsb Hd He Hsum.
  destruct a as [s1 | s1 | | s1 m1 e1], b as [s2 | s2 | | s2 m2 e2];
    cbn [SFadd sf_below] in *; subst; auto; try tauto.
  - destruct s1, s2; exact I.
  - apply (sf_below_mono (S754_finite s2 m2 e2) sb); [lia | exact Hb].
  - reflexivity.
  - apply (sf_below_mono (S754_finite s1 m1 e1) sa); [lia | exact Ha].
  - cbn [sf_emin] in Va, Vb.
    set (ez := IntDef.Z.min e1 e2).
    assert (Hez : ez = Z.min e1 e2) by reflexivity.
    assert (Hr : (- scale <= ez <= e1)%Z /\ (ez <= e2)%Z)
      by (unfold emin, prec, emax, scale in *; lia).
    pose proof (aligned_below s1 m1 e1 ez sa Ha Hsa (proj1 Hr)) as H1.
    pose proof (aligned_below s2 m2 e2 ez sb Hb Hsb ltac:(lia)) as H2.
    set (z1 := cond_Zopp s1 (Z.pos (fst (shl_align m1 e1 ez)))) in *.
    set (z2 := cond_Zopp s2 (Z.pos (fst (shl_align m2 e2 ez)))) in *.
    assert (Hz : (scaled (z1 + z2) ez <= scaled (Z.pos m) e)%Z)
      by (rewrite scaled_add; lia).
    clearbody z1 z2.
    destruct (z1 + z2)%Z as [| p | p]; cbn [binary_normalize].
    + exact I.
    + apply binary_round_below; auto. lia.
    + apply signed_true_below, binary_round_signed.
Qed.

Lemma add_below_zero (a b : spec_float) :
  sf_below a 0 -> sf_below b 0 -> sf_below (SFadd prec emax a b) 0.
Proof.
  intros Ha Hb.
  assert (Hpos : forall m e, sf_below (S754_finite false m e) 0 -> False).
  { intros m e [H1 H2]. destruct (scaled_pos m e); lia. }
  destruct a as [s1 | s1 | | [] m1 e1], b as [s2 | s2 | | [] m2 e2];
    cbn [SFadd sf_below] in *; subst; auto; try tauto;
    try (exfalso; eapply Hpos; eassumption).
  - destruct s1, s2; exact I.
  - reflexivity.
  - cbn [cond_Zopp Z.opp Z.add binary_normalize].
    apply signed_true_below, binary_round_signed.
Qed.

Lemma at_most_add (a b : float) (sa sb : Z) (c : float) :
  at_most a sa -> at_most b sb -> (0 <= sa)%Z -> (0 <= sb)%Z ->
  is_normal c = true -> (sa + sb <= bound_of c)%Z ->
  at_most (a + b) (bound_of c).
Proof.
  intros [Ha | Ha] [Hb | Hb] Hsa Hsb Hc Hsum;
    try (left; now apply nan_add_l); try (left; now apply nan_add_r).
  apply is_normal_const in Hc as (m & e & (_ & Hd & He) & Hbd). rewrite Hbd in *.
  right. rewrite add_spec. apply add_below with (sa := sa) (sb := sb); auto using valid_emin.
Qed.

Lemma at_most_add_zero (a b : float) :
  at_most a 0 -> at_most b 0 -> at_most (a + b) 0.
Proof.
  intros [Ha | Ha] [Hb | Hb];
    try (left; now apply nan_add_l); try (left; now apply nan_add_r).
  right. rewrite add_spec. now apply add_below_zero.
Qed.

(** *** Products with a weight *)

Lemma mul_below (a : spec_float) (m : positive) (e : Z) :
  sf_emin a -> sf_below a (2 ^ scale) ->
  digits2_pos m = 53%positive -> (-1000 <= e <= 900)%Z ->
  sf_below (SFmul prec emax a (S754_finite false m e)) (scaled (Z.pos m) e).
Proof.
  intros Va Ha Hd He.
  destruct a as [s | s | | [] ma ea]; cbn [SFmul sf_below xorb] in *; subst; auto.
  - apply signed_true_below, binary_round_aux_signed. lia.
  - cbn [sf_emin] in Va. destruct Ha as [Hea Hle].
    apply round_below; auto; [lia | unfold emin, prec, emax, scale in *; lia |].
    unfold scaled in *.
    assert (Hs1 : (0 <= ea + e + scale)%Z) by (unfold emin, prec, emax, scale in *; lia).
    assert (Hs2 : (0 <= ea + scale)%Z) by lia.
    assert (Hs3 : (0 <= e + scale)%Z) by (unfold scale; lia).
    assert (Hs4 : (0 <= scale)%Z) by (unfold scale; lia).
    assert (E : (2 ^ (ea + e + scale) * 2 ^ scale = 2 ^ (ea + scale) * 2 ^ (e + scale))%Z).
    { rewrite <- !Z.pow_add_r by assumption. f_equal. lia. }
    assert (HP : (0 < 2 ^ scale)%Z) by (apply Z.pow_pos_nonneg; lia).
    assert (HW : (0 <= 2 ^ (e + scale))%Z) by (apply Z.pow_nonneg; lia).
    set (A := (2 ^ (ea + e + scale))%Z) in *. set (P := (2 ^ scale)%Z) in *.
    set (X := (2 ^ (ea + scale))%Z) in *. set (W := (2 ^ (e + scale))%Z) in *.
    clearbody A P X W.
    apply (Z.mul_le_mono_pos_r _ _ P HP).
    rewrite Pos2Z.inj_mul.
    replace (Z.pos ma * Z.pos m * A * P)%Z with (Z.pos ma * Z.pos m * (A * P))%Z by ring.
    rewrite E.
    replace (Z.pos ma * Z.pos m * (X * W))%Z with (Z.pos ma * X * (Z.pos m * W))%Z by ring.
    replace (Z.pos m * W * P)%Z with (P * (Z.pos m * W))%Z by ring.
    apply Z.mul_le_mono_nonneg_r; [| exact Hle].
    apply Z.mul_nonneg_nonneg; [lia | exact HW].
Qed.

Lemma one_normal : is_normal 1 = true.
Proof. vm_compute. reflexivity. Qed.

Lemma one_bound : bound_of 1 = (2 ^ scale)%Z.
Proof. vm_compute. reflexivity. Qed.

(** [min(q, 1.0)] of a number is at most 1. *)
Lemma py_min_one_below (q : float) :
  is_nan q = false -> sf_below (Prim2SF (py_min q 1)) (2 ^ scale).
Proof.
  intros Hn. destruct (is_normal_const 1 one_normal) as (m & e & Hc & Hb).
  rewrite <- one_bound, Hb. unfold py_min. destruct (1 <? q) eqn:E.
  - destruct Hc as (Hc & _ & He). rewrite Hc. cbn [sf_below].
    split; [unfold scale; lia | apply Z.le_refl].
  - now apply (not_lt_below 1 q m e).
Qed.

(** A factor's term [min(q, 1.0) * weight] is NaN or at most the weight. *)
Lemma term_at_most (q w : float) :
  is_normal w = true -> at_most (py_min q 1 * w) (bound_of w).
Proof.
  intros Hw. destruct (is_nan q) eqn:Hn.
  - left. apply nan_mul. now rewrite nan_py_min.
  - right. apply is_normal_const in Hw as (m & e & (Hc & Hd & He) & Hb).
    rewrite Hb, mul_spec, Hc.
    apply mul_below; auto using valid_emin, py_min_one_below.
Qed.

(** *** Terms of factors that are zero or negative *)

Lemma nonpos_below (x : spec_float) :
  sf_is_zero x \/ sf_sign x = Some true -> sf_below x 0.
Proof.
  destruct x as [s | s | | [] m e]; cbn; intros [H | H]; auto; try tauto; try congruence;
    try discriminate H.
Qed.

Lemma below_nonpos (x : spec_float) :
  sf_below x 0 -> sf_is_zero x \/ sf_sign x = Some true.
Proof.
  destruct x as [s | s | | [] m e]; cbn [sf_below sf_is_zero sf_sign]; intros H; subst;
    auto; try tauto.
  destruct H as [H1 H2]. destruct (scaled_pos m e) as [H3 | H3]; lia.
Qed.

Lemma leb_zero_below (x : float) : (x <=? 0) = true -> sf_below (Prim2SF x) 0.
Proof.
  rewrite leb_spec, zero_SF.
  destruct (Prim2SF x) as [s | [] | | [] m e]; cbn; intros H; auto; discriminate H.
Qed.

Lemma term_nonpos (x cap w : float) :
  pos_const cap -> pos_const w -> (x <=? 0) = true ->
  at_most (py_min (x / cap) 1 * w) 0.
Proof.
  intros Hcap Hw Hx. right. apply leb_zero_below, below_nonpos in Hx.
  assert (Hq : sf_below (Prim2SF (x / cap)) 0).
  { apply nonpos_below. destruct Hx as [Hx | Hx].
    - left. now apply div_pos_const_zero.
    - right. now rewrite div_pos_const_sign. }
  destruct (is_normal_const 1 one_normal) as (m & e & Hc & Hb).
  assert (Hlt : (1 <? x / cap) = false).
  { apply (below_not_lt 1 (x / cap) m e 0 Hc); [| exact Hq].
    rewrite <- Hb, one_bound. apply Z.pow_nonneg. lia. }
  unfold py_min. rewrite Hlt. apply below_nonpos in Hq.
  apply nonpos_below. destruct Hq as [Hq | Hq].
  - left. now apply mul_pos_const_zero.
  - right. now rewrite mul_pos_const_sign.
Qed.

(** *** Rounding to one decimal below 60 *)

Lemma tenths_table_60 : forallb tenths_at_most_60 (map Z.of_nat (seq 0 601)) = true.
Proof. vm_compute. reflexivity. Qed.

Lemma tenths_60_ok (k : Z) : (0 <= k <= 600)%Z -> tenths_at_most_60 k = true.
Proof.
  intros Hk. pose proof tenths_table_60 as H. rewrite forallb_forall in H. apply H.
  rewrite <- (Z2Nat.id k) by lia. apply in_map, in_seq. lia.
Qed.

Lemma sixty_bound : bound_of 60 = (60 * 2 ^ scale)%Z.
Proof. vm_compute. reflexivity. Qed.

Lemma round_half_even_tenths_nonneg (m : positive) (e : Z) :
  (0 <= round_half_even_tenths m e)%Z.
Proof.
  unfold round_half_even_tenths.
  destruct e as [| p | p].
  - cbn. lia.
  - apply Z.mul_nonneg_nonneg; [lia | apply Z.pow_nonneg; lia].
  - change (Z.pow_pos 2 p) with (2 ^ Z.pos p)%Z.
    assert (Hd : (0 < 2 ^ Z.pos p)%Z) by (apply Z.pow_pos_nonneg; lia).
    assert (Hq : (0 <= 10 * Z.pos m / 2 ^ Z.pos p)%Z) by (apply Z.div_pos; lia).
    destruct (_ ?= _)%Z; try destruct (Z.even _); lia.
Qed.

Lemma round_half_even_tenths_le (m : positive) (e N : Z) :
  (- scale <= e)%Z -> (scaled (Z.pos m) e <= N * 2 ^ scale)%Z ->
  (round_half_even_tenths m e <= 10 * N)%Z.
Proof.
  intros He Hle. unfold scaled in Hle.
  assert (HP : (0 < 2 ^ scale)%Z) by (apply Z.pow_pos_nonneg; unfold scale; lia).
  unfold round_half_even_tenths. destruct e as [| p | p].
  - rewrite Z.add_0_l in Hle. apply Z.mul_le_mono_pos_r in Hle; [| exact HP].
    cbn [Z.pow]. lia.
  - rewrite Z.pow_add_r in Hle by (unfold scale; lia).
    rewrite Z.mul_assoc in Hle. apply Z.mul_le_mono_pos_r in Hle; [| exact HP]. lia.
  - change (Z.pow_pos 2 p) with (2 ^ Z.pos p)%Z.
    set (d := (2 ^ Z.pos p)%Z). set (n := (10 * Z.pos m)%Z).
    assert (Hd : (0 < d)%Z) by (apply Z.pow_pos_nonneg; lia).
    assert (Hm : (Z.pos m <= N * d)%Z).
    { assert (Hs : (2 ^ scale = 2 ^ (Z.neg p + scale) * d)%Z).
      { unfold d. rewrite <- Z.pow_add_r by lia. f_equal. lia. }
      rewrite Hs in Hle.
      replace (N * (2 ^ (Z.neg p + scale) * d))%Z
        with (N * d * 2 ^ (Z.neg p + scale))%Z in Hle by ring.
      apply Z.mul_le_mono_pos_r in Hle; [exact Hle | apply Z.pow_pos_nonneg; lia]. }
    clear Hle HP.
    pose proof (Z.div_mod n d ltac:(lia)) as Hdm.
    pose proof (Z.mod_pos_bound n d Hd) as Hr.
    assert (Hn : (n <= d * (10 * N))%Z) by (unfold n; lia).
    assert (Hq : (n / d < 10 * N \/ (n / d = 10 * N /\ n mod d = 0))%Z).
    { assert (Hqle : (n / d <= 10 * N)%Z) by (apply Z.div_le_upper_bound; lia).
      destruct (Z.eq_dec (n / d) (10 * N)) as [Heq | Hne]; [right | left; lia].
      split; [exact Heq |]. rewrite Heq in Hdm. lia. }
    destruct (2 * (n mod d) ?= d)%Z eqn:Hc; try destruct (Z.even (n / d)); try lia;
      destruct Hq as [Hq | [Hq Hz]]; try lia;
      rewrite Hz in Hc; (apply Z.compare_eq in Hc || apply Z.compare_gt_iff in Hc); lia.
Qed.

(** *** The sign of a rounded negative value *)

Lemma SF_of_ratio_signed (s : bool) (k : Z) :
  (0 <= k)%Z -> signed_as s (SF_of_ratio s k 10).
Proof.
  intros Hk. unfold SF_of_ratio. destruct k as [| p | p]; [reflexivity | | lia].
  destruct (SFdiv_core_binary prec emax (Z.pos p) 0 10 0) as [[q e'] l] eqn:Hd.
  apply binary_round_aux_signed.
  unfold SFdiv_core_binary in Hd.
  set (m' := match (0 - 0 - _)%Z with Z.pos _ => _ | Z0 => _ | Z.neg _ => _ end) in Hd.
  assert (Hm' : (0 <= m')%Z).
  { subst m'. destruct (0 - 0 - _)%Z; try lia. apply Z.shiftl_nonneg. lia. }
  pose proof (Z.div_pos m' 10 Hm' ltac:(lia)) as Hq.
  unfold Z.div in Hq. destruct (Z.div_eucl m' 10) as [q0 r0].
  cbn [fst] in Hq. inversion Hd; subst. exact Hq.
Qed.

Lemma SFldexp_signed (s : bool) (x : spec_float) (e : Z) :
  signed_as s x -> signed_as s (SFldexp prec emax x e).
Proof.
  destruct x as [s' | s' | | s' m e']; cbn [SFldexp signed_as]; auto.
  intros ->. apply binary_round_signed.
Qed.

Lemma SFopp_signed (s : bool) (x : spec_float) :
  signed_as s x -> signed_as (negb s) (SFopp x).
Proof. destruct x as [s' | s' | | s' m e']; cbn; intros H; subst; auto. Qed.

Lemma SF2Prim_signed_true (y : spec_float) :
  signed_as true y -> signed_as true (Prim2SF (SF2Prim y)).
Proof.
  destruct y as [s | s | | s m e]; cbn [signed_as]; intros H; subst; try reflexivity; try tauto.
  cbn [SF2Prim]. rewrite opp_spec, Z_ldexp_spec, of_uint63_spec.
  apply (SFopp_signed false), SFldexp_signed.
  pose proof (Uint63.to_Z_bounded (Uint63.of_Z (Z.pos m))) as [Hn _].
  destruct (Uint63.to_Z (Uint63.of_Z (Z.pos m))) as [| p | p]; cbn [binary_normalize].
  - reflexivity.
  - apply binary_round_signed.
  - lia.
Qed.

Lemma signed_true_compare (c y : float) :
  pos_const c -> signed_as true (Prim2SF y) ->
  (c <=? y) = false /\ (y <=? c) = true.
Proof.
  intros (m & e & Hc) Hy. rewrite !leb_spec, Hc.
  destruct (Prim2SF y) as [s | s | | s my ey]; cbn [signed_as] in Hy; subst; try tauto;
    split; reflexivity.
Qed.

Lemma pos_const_65 : pos_const 65.
Proof. pos_const_tac. Qed.

Lemma sixty_normal : is_normal 60 = true.
Proof. vm_compute. reflexivity. Qed.

Lemma hundred_normal : is_normal 100 = true.
Proof. vm_compute. reflexivity. Qed.

Lemma sixty_below_hundred : (bound_of 60 <=? bound_of 100)%Z = true.
Proof. vm_compute. reflexivity. Qed.

(** Rounding a value of at most 60 to one decimal gives at most 60, so less
    than 65; a NaN stays a NaN. *)
Lemma py_round1_at_most_60 (x : float) :
  at_most x (bound_of 60) ->
  (65 <=? py_round1 x) = false
  /\ (is_nan (py_round1 x) = true \/ (py_round1 x <=? 60) = true).
Proof.
  intros [Hn | Hx].
  - rewrite nan_round by exact Hn. split; [now apply nan_leb_r | now left].
  - unfold py_round1.
    destruct (Prim2SF x) as [s | s | | [] m e] eqn:Ex; cbn [sf_below] in Hx; try tauto.
    + split; [| right]; rewrite leb_spec, Ex; reflexivity.
    + subst s. split; [| right]; rewrite leb_spec, Ex; reflexivity.
    + pose proof (round_half_even_tenths_nonneg m e) as Hk.
      pose proof (SF2Prim_signed_true _ (SF_of_ratio_signed true _ Hk)) as Hs.
      split; [| right].
      * apply (signed_true_compare 65 _ pos_const_65 Hs).
      * apply (signed_true_compare 60 _ pos_const_60 Hs).
    + destruct Hx as [He Hle]. rewrite sixty_bound in Hle.
      pose proof (round_half_even_tenths_nonneg m e) as Hk.
      pose proof (round_half_even_tenths_le m e 60 He Hle) as Hk'.
      pose proof (tenths_60_ok _ (conj Hk Hk')) as Ht. unfold tenths_at_most_60 in Ht.
      apply andb_true_iff in Ht as [H1 H2]. apply negb_true_iff in H2. auto.
Qed.

(** *** The upper clamp, for every input *)

Lemma hundred_bound : bound_of 100 = (100 * 2 ^ scale)%Z.
Proof. vm_compute. reflexivity. Qed.

Lemma py_min_100_at_most (x : float) : at_most (py_min x 100) (bound_of 100).
Proof.
  destruct (is_nan x) eqn:Hn; [left; now rewrite nan_py_min |]. right.
  destruct (is_normal_const 100 hundred_normal) as (m & e & Hc & Hb). rewrite Hb.
  unfold py_min. destruct (100 <? x) eqn:E.
  - destruct Hc as (Hc & _ & He). rewrite Hc. cbn [sf_below].
    split; [unfold scale; lia | apply Z.le_refl].
  - now apply (not_lt_below 100 x m e).
Qed.

Lemma py_round1_at_most_100 (x : float) :
  at_most x (bound_of 100) ->
  is_nan (py_round1 x) = true \/ (py_round1 x <=? 100) = true.
Proof.
  intros [Hn | Hx].
  - left. now rewrite nan_round.
  - right. unfold py_round1.
    destruct (Prim2SF x) as [s | s | | [] m e] eqn:Ex; cbn [sf_below] in Hx; try tauto.
    + rewrite leb_spec, Ex; reflexivity.
    + subst s. rewrite leb_spec, Ex; reflexivity.
    + pose proof (round_half_even_tenths_nonneg m e) as Hk.
      pose proof (SF2Prim_signed_true _ (SF_of_ratio_signed true _ Hk)) as Hs.
      apply (signed_true_compare 100 _ pos_const_100 Hs).
    + destruct Hx as [He Hle]. rewrite hundred_bound in Hle.
      pose proof (round_half_even_tenths_nonneg m e) as Hk.
      pose proof (round_half_even_tenths_le m e 100 He Hle) as Hk'.
      pose proof (tenths_ok _ (conj Hk Hk')) as Ht. unfold tenths_in_range in Ht.
      now apply andb_true_iff in Ht.
Qed.

(** X26. the upper clamp holds for every input: whatever the five factors
    are (negative, infinite or NaN included), the score is NaN or at most
    100; unlike the lower bound, this needs no assumption on the
    observation. *)
Theorem score_is_never_above_100 (r1 r3 h w c : float) :
  is_nan (score (calculate_flood_probability r1 r3 h w c)) = true
  \/ (score (calculate_flood_probability r1 r3 h w c) <=? 100) = true.
Proof.
  rewrite score_calculate. apply py_round1_at_most_100, py_min_100_at_most.
Qed.

(** *** Without hourly rain the score stays below the HIGH band *)

Lemma weights_normal :
  is_normal 25 = true /\ is_normal 20 = true /\ is_normal 10 = true /\ is_normal 5 = true
  /\ is_normal 45 = true /\ is_normal 55 = true.
Proof. vm_compute. repeat split. Qed.

Lemma weights_add :
  (0 + bound_of 25 <=? bound_of 25)%Z = true
  /\ (bound_of 25 + bound_of 20 <=? bound_of 45)%Z = true
  /\ (bound_of 45 + bound_of 10 <=? bound_of 55)%Z = true
  /\ (bound_of 55 + bound_of 5 <=? bound_of 60)%Z = true.
Proof. vm_compute. repeat split. Qed.

Lemma raw_score_rain_free (r1 r3 h w c : float) :
  (r1 <=? 0) = true -> at_most (raw_score r1 r3 h w c) (bound_of 60).
Proof.
  intros Hr. unfold raw_score.
  destruct weights_normal as (N25 & N20 & N10 & N5 & N45 & N55).
  destruct weights_add as (A1 & A2 & A3 & A4).
  apply Z.leb_le in A1, A2, A3, A4.
  pose proof (bound_of_nonneg 25). pose proof (bound_of_nonneg 20).
  pose proof (bound_of_nonneg 10). pose proof (bound_of_nonneg 5).
  pose proof (bound_of_nonneg 45). pose proof (bound_of_nonneg 55).
  assert (Z0 : at_most 0 0) by (right; rewrite zero_SF; exact I).
  pose proof (term_nonpos r1 20 40 pos_const_20 pos_const_40 Hr) as T1.
  pose proof (term_at_most (r3 / 40) 25 N25) as T3.
  pose proof (term_at_most (py_max (h - 60) 0 / 40) 20 N20) as Th.
  pose proof (term_at_most (w / 25) 10 N10) as Tw.
  pose proof (term_at_most (c / 100) 5 N5) as Tc.
  pose proof (at_most_add_zero _ _ Z0 T1) as S1.
  pose proof (at_most_add _ _ 0%Z _ 25 S1 T3 ltac:(lia) ltac:(assumption) N25 A1) as S2.
  pose proof (at_most_add _ _ _ _ 45 S2 Th ltac:(assumption) ltac:(assumption) N45 A2) as S3.
  pose proof (at_most_add _ _ _ _ 55 S3 Tw ltac:(assumption) ltac:(assumption) N55 A3) as S4.
  exact (at_most_add _ _ _ _ 60 S4 Tc ltac:(assumption) ltac:(assumption) sixty_normal A4).
Qed.

Lemma score_rain_free (r1 r3 h w c : float) :
  (r1 <=? 0) = true ->
  let s := score (calculate_flood_probability r1 r3 h w c) in
  (65 <=? s) = false /\ (is_nan s = true \/ (s <=? 60) = true).
Proof.
  intros Hr. cbv zeta. rewrite score_calculate.
  pose proof (raw_score_rain_free r1 r3 h w c Hr) as Hraw.
  assert (E : py_min (raw_score r1 r3 h w c) 100 = raw_score r1 r3 h w c).
  { destruct Hraw as [Hn | Hb]; [now apply nan_py_min |].
    unfold py_min.
    destruct (is_normal_const 100 hundred_normal) as (m & e & Hc & Hbd).
    rewrite (below_not_lt 100 _ m e (bound_of 60) Hc); [reflexivity | | exact Hb].
    rewrite <- Hbd. apply Z.leb_le, sixty_below_hundred. }
  rewrite E. now apply py_round1_at_most_60.
Qed.

Lemma level_rain_free (r1 r3 h w c : float) :
  (r1 <=? 0) = true ->
  level (calculate_flood_probability r1 r3 h w c) <> HIGH.
Proof.
  intros Hr. pose proof (score_rain_free r1 r3 h w c Hr) as [Hs _].
  pose proof (band_calculate r1 r3 h w c) as Hb.
  unfold risk_band, py_ge in Hb. rewrite Hs in Hb.
  destruct (35 <=? _); inversion Hb as [[Hl Hc]]; rewrite Hl; discriminate.
Qed.

Lemma no_rain_bound (r1 r3 h w c : float) :
  (r1 <=? 0) = true ->
  level (calculate_flood_probability r1 r3 h w c) <> HIGH
  /\ (65 <=? score (calculate_flood_probability r1 r3 h w c)) = false
  /\ (is_nan (score (calculate_flood_probability r1 r3 h w c)) = true
      \/ (score (calculate_flood_probability r1 r3 h w c) <=? 60) = true).
Proof.
  intros Hr. split; [now apply level_rain_free |]. now apply (score_rain_free r1 r3 h w c).
Qed.

(** X27. hourly rain is needed for HIGH: when [rain_1h] is zero or negative
    the other four factors, whatever their values, give a score that is
    NaN or at most 60, so never one of the HIGH band. *)
Theorem no_hourly_rain_is_never_high (r1 r3 h w c : float) :
  (r1 <=? 0) = true ->
  let risk := calculate_flood_probability r1 r3 h w c in
  level risk <> HIGH
  /\ (65 <=? score risk) = false
  /\ (is_nan (score risk) = true \/ (score risk <=? 60) = true).
Proof.
  intros Hr. cbv zeta. now apply no_rain_bound.
Qed.

Lemma no_hourly_rain_is_never_high_witness :
  level (calculate_flood_probability 0 500 100 90 100) <> HIGH
  /\ (calculate_flood_probability 0 500 100 90 100).(score) = 60.
Proof.
  split; [| vm_compute; reflexivity].
  exact (proj1 (no_hourly_rain_is_never_high 0 500 100 90 100 eq_refl)).
Defined.

Close Scope float_scope.

(** ** The forecast never reports HIGH *)

Lemma forecast_item_risk (s : Slot) (it : ForecastItem) :
  forecast_item s = Ok it ->
  fi_flood_risk it =
    calculate_flood_probability 0 (get_or (slot_rain_3h s) 0%float)
      (get_or (slot_humidity s) 0%float) (get_or (slot_wind_speed s) 0%float)
      (get_or (slot_clouds_all s) 0%float).
Proof.
  unfold forecast_item. destruct (slot_dt s) as [dt |]; [| discriminate].
  destruct (slot_weather s) as [[| x r] |]; intros H; inversion H; reflexivity.
Qed.

Lemma forecast_items_each (P : Slot -> ForecastItem -> Prop) :
  (forall s it, forecast_item s = Ok it -> P s it) ->
  forall slots items, forecast_items slots = Ok items -> Forall2 P slots items.
Proof.
  intros HP. induction slots as [| s rest IH]; cbn [forecast_items]; intros items H.
  - inversion H. constructor.
  - destruct (forecast_item s) as [it | e] eqn:Ei; [| discriminate].
    destruct (forecast_items rest) as [its | e] eqn:Er; [| discriminate].
    inversion H; subst. constructor; auto.
Qed.

(** X28. a forecast never reports HIGH: every slot is scored with
    [rain_1h = 0], so whatever the forecast document holds, each item of an
    answered forecast has a score that is NaN or at most 60 and a level
    other than HIGH; the answer has one item per slot of the document. *)
Theorem forecast_never_reports_high
    (cfg : Config) (lat lon : float) (resp : Fetch ForecastDoc) (r : ForecastResponse) :
  get_forecast cfg lat lon resp = Ok r ->
  Forall (fun it =>
            level (fi_flood_risk it) <> HIGH
            /\ ((65 <=? score (fi_flood_risk it))%float = false)
            /\ (is_nan (score (fi_flood_risk it)) = true
                \/ (score (fi_flood_risk it) <=? 60)%float = true))
         (fr_items r)
  /\ exists data, resp = FetchResponse 200 (Parsed data)
       /\ List.length (fr_items r) = List.length (get_or (fd_list data) []).
Proof.
  unfold get_forecast. destruct (str_falsy _); [discriminate |].
  destruct resp as [msg | status [msg | data]]; try discriminate;
    destruct (status =? 200) eqn:Es; cbn [negb]; try discriminate.
  apply Z.eqb_eq in Es. subst status.
  destruct (forecast_items _) as [items | e] eqn:Ei; [| discriminate].
  intros H. inversion H; subst; clear H. cbn [fr_items].
  pose proof (forecast_items_each
                (fun s it => fi_flood_risk it =
                   calculate_flood_probability 0 (get_or (slot_rain_3h s) 0%float)
                     (get_or (slot_humidity s) 0%float) (get_or (slot_wind_speed s) 0%float)
                     (get_or (slot_clouds_all s) 0%float))
                forecast_item_risk _ _ Ei) as Hall.
  split.
  - clear Ei. induction Hall as [| s it ss its Hr _ IH]; constructor; [| exact IH].
    rewrite Hr. apply (no_rain_bound 0); reflexivity.
  - exists data. split; [reflexivity |]. symmetry. eapply Forall2_length. exact Hall.
Qed.

Lemma forecast_never_reports_high_witness :
  exists r,
    get_forecast demo_cfg 19.5 72.875
      (FetchResponse 200 (Parsed (mkForecastDoc (Some "Mumbai") (Some "IN") None None
         (Some [mkSlot (Some 1700000000) None (Some 29%float) None (Some 100%float)
                       (Some 90%float) (Some 100%float) (Some 500%float) None])))) = Ok r
    /\ Forall (fun it => level (fi_flood_risk it) <> HIGH) (fr_items r).
Proof.
  eexists. split; [reflexivity |].
  eapply Forall_impl;
    [| exact (proj1 (forecast_never_reports_high demo_cfg 19.5 72.875
         (FetchResponse 200 (Parsed (mkForecastDoc (Some "Mumbai") (Some "IN") None None
            (Some [mkSlot (Some 1700000000) None (Some 29%float) None (Some 100%float)
                          (Some 90%float) (Some 100%float) (Some 500%float) None]))))
         _ eq_refl))].
  intros it H. exact (proj1 H).
Defined.
